(** * JobSystem: a shallow embedding of libs/utils/src/JobSystem.cpp

    The scheduler is modelled as a record of its members ([World]) and
    every member function as a computation in a state-and-failure monad.
    Atomic operations, fences, lock operations and condition-variable
    signals are appended to a trace, so that statements about ordering and
    about memory-order arguments can be made on the trace.

    Job pointers are arena indices ([ptr - mJobStorageBase]); the null
    pointer is [None]. Thread-local storage is a map from thread ids to
    thread-state references. *)

From Stdlib Require Import ZArith Lia.
From stdpp Require Import base option list gmap strings.

(** ** Fixed-width integers *)

(** Conversion to an unsigned and to a signed (two's complement) integer
    of [bits] bits. *)
Definition wrap_unsigned (bits z : Z) : Z := (z mod 2 ^ bits)%Z.
Definition wrap_signed (bits z : Z) : Z :=
  ((z + 2 ^ (bits - 1)) mod 2 ^ bits - 2 ^ (bits - 1))%Z.

Definition to_uint16 (z : Z) : Z := wrap_unsigned 16 z.
Definition to_uint32 (z : Z) : Z := wrap_unsigned 32 z.
Definition to_size_t (z : Z) : Z := wrap_unsigned 64 z.

(** ** Build configuration

    The preprocessor conditions the source file branches on, and the
    constants it takes from headers. *)

Record Config := mkConfig {
  (** [#if __has_feature(thread_sanitizer)] *)
  thread_sanitizer : bool;
  (** [#if __ARM_ARCH_7A__] *)
  ARM_ARCH_7A : bool;
  (** [assert] of <cassert> expands to nothing when NDEBUG is defined
      (release builds, see UTILS_UNUSED_IN_RELEASE in execute) *)
  NDEBUG : bool;
  (** utils/compiler.h *)
  UTILS_HAS_THREADING : bool;
  UTILS_HAS_HYPER_THREADING : bool;
  (** utils/JobSystem.h *)
  MAX_JOB_COUNT : Z;
  DONT_SIGNAL : Z;
  (** width of [unsigned long], the type of the literal [1UL] *)
  ULONG_BITS : Z;
  (** widths of the atomic counters of a Job (utils/JobSystem.h) *)
  runningJobCount_bits : Z;
  refCount_bits : Z;
}.

(** A value stored to [runningJobCount], a signed counter, and to
    [refCount], an unsigned one. *)
Definition to_runningJobCount (cfg : Config) (z : Z) : Z :=
  wrap_signed (runningJobCount_bits cfg) z.

Definition to_refCount (cfg : Config) (z : Z) : Z :=
  wrap_unsigned (refCount_bits cfg) z.

(** ** Data model *)

Inductive memory_order :=
| memory_order_relaxed
| memory_order_acquire
| memory_order_release
| memory_order_acq_rel.

Inductive Priority := NORMAL | DISPLAY | URGENT_DISPLAY.

(** A job function is named by an identifier; what it does is given by
    the [invoke] parameter of the section below. *)
Definition JobFunc := nat.

(** The atomic objects of the scheduler. *)
Inductive Atomic :=
| A_runningJobCount (j : nat)
| A_refCount (j : nat)
| A_mActiveJobs
| A_mAdoptedThreads
| A_mExitRequested.

Inductive Event :=
| EvFetchAdd (a : Atomic) (mo : memory_order)
| EvFetchSub (a : Atomic) (mo : memory_order)
| EvLoad (a : Atomic) (mo : memory_order)
| EvStore (a : Atomic) (mo : memory_order)
| EvFence (mo : memory_order)
| EvLock
| EvUnlock
| EvNotifyOne
| EvNotifyAll
| EvDsb (option_ : Z)
| EvSignalEvent
| EvWaitForEvent
| EvPut (queue : nat) (j : nat)
| EvPop (queue : nat)
| EvSteal (queue : nat)
| EvSetThreadName (name : string)
| EvSetThreadPriority (p : Priority)
| EvDestroy (j : nat)
| EvCall (f : JobFunc) (j : nat).

(** Modelled from the spec: the class Job of utils/JobSystem.h, by the
    members JobSystem.cpp uses. The inline [storage] buffer is opaque to
    the scheduler and is left out; [parent] is a uint16_t;
    [runningJobCount] is a signed and [refCount] an unsigned atomic
    counter, of the widths the configuration gives. *)
Record Job := mkJob {
  function : option JobFunc;
  parent : Z;
  runningJobCount : Z;
  refCount : Z;
}.

(** A pointer to a [ThreadState]: the scheduler that owns it and its
    position in that scheduler's [mThreadStates]. The constructor sets
    the back pointer [state.js] of each of its states to [this] and
    nothing changes it afterwards, so [ref_js] is what [state->js] reads. *)
Record TSRef := mkTSRef { ref_js : nat; ref_index : nat }.

(** Modelled from the spec: the struct ThreadState of utils/JobSystem.h,
    by the members JobSystem.cpp uses. [workQueue] lists job indices from
    the stealing end (front) to the owner's end (back); [rndGen] is the
    state of the random engine; [thread] tells whether the std::thread
    member was started (is joinable). *)
Record ThreadState := mkThreadState {
  workQueue : list nat;
  rndGen : N;
  mask : Z;
  thread : bool;
}.

(** The members of a JobSystem that JobSystem.cpp uses, the thread-local
    pointers of all threads and the trace. [mActiveJobs] is read into a
    uint32_t and [mAdoptedThreads] into a uint16_t. *)
Record World := mkWorld {
  (** identity of the scheduler ([this]) *)
  this : nat;
  (** live jobs of the arena, by index from [mJobStorageBase] *)
  mJobPool : gmap nat Job;
  mThreadStates : list ThreadState;
  mThreadCount : Z;
  mAdoptedThreads : Z;
  mActiveJobs : Z;
  mExitRequested : bool;
  mMasterJob : option nat;
  (** the thread-local [sThreadState] of every thread *)
  sThreadState : gmap nat TSRef;
  trace : list Event;
}.

Definition set_this (self : nat) (w : World) : World :=
  mkWorld self (mJobPool w) (mThreadStates w) (mThreadCount w) (mAdoptedThreads w)
    (mActiveJobs w) (mExitRequested w) (mMasterJob w) (sThreadState w) (trace w).

Definition set_mJobPool (p : gmap nat Job) (w : World) : World :=
  mkWorld (this w) p (mThreadStates w) (mThreadCount w) (mAdoptedThreads w)
    (mActiveJobs w) (mExitRequested w) (mMasterJob w) (sThreadState w) (trace w).

Definition set_mThreadStates (l : list ThreadState) (w : World) : World :=
  mkWorld (this w) (mJobPool w) l (mThreadCount w) (mAdoptedThreads w)
    (mActiveJobs w) (mExitRequested w) (mMasterJob w) (sThreadState w) (trace w).

Definition set_mAdoptedThreads (n : Z) (w : World) : World :=
  mkWorld (this w) (mJobPool w) (mThreadStates w) (mThreadCount w) n
    (mActiveJobs w) (mExitRequested w) (mMasterJob w) (sThreadState w) (trace w).

Definition set_mActiveJobs (n : Z) (w : World) : World :=
  mkWorld (this w) (mJobPool w) (mThreadStates w) (mThreadCount w) (mAdoptedThreads w)
    n (mExitRequested w) (mMasterJob w) (sThreadState w) (trace w).

Definition set_mExitRequested (b : bool) (w : World) : World :=
  mkWorld (this w) (mJobPool w) (mThreadStates w) (mThreadCount w) (mAdoptedThreads w)
    (mActiveJobs w) b (mMasterJob w) (sThreadState w) (trace w).

Definition set_sThreadState (t : gmap nat TSRef) (w : World) : World :=
  mkWorld (this w) (mJobPool w) (mThreadStates w) (mThreadCount w) (mAdoptedThreads w)
    (mActiveJobs w) (mExitRequested w) (mMasterJob w) t (trace w).

Definition set_trace (t : list Event) (w : World) : World :=
  mkWorld (this w) (mJobPool w) (mThreadStates w) (mThreadCount w) (mAdoptedThreads w)
    (mActiveJobs w) (mExitRequested w) (mMasterJob w) (sThreadState w) t.

Definition set_runningJobCount (c : Z) (j : Job) : Job :=
  mkJob (function j) (parent j) c (refCount j).

Definition set_refCount (c : Z) (j : Job) : Job :=
  mkJob (function j) (parent j) (runningJobCount j) c.

Definition set_workQueue (q : list nat) (s : ThreadState) : ThreadState :=
  mkThreadState q (rndGen s) (mask s) (thread s).

Definition set_rndGen (g : N) (s : ThreadState) : ThreadState :=
  mkThreadState (workQueue s) g (mask s) (thread s).

(** ** The monad of member functions *)

Inductive Outcome (A : Type) : Type :=
| Done (a : A) (w : World)
  (** a failed [assert], ASSERT_PRECONDITION or ASSERT_POSTCONDITION *)
| Panic (msg : string) (w : World)
  (** undefined behaviour: null or dangling dereference, index out of
      range, division by zero, shift by the width of the type *)
| Undefined
  (** the call works on a ThreadState of another JobSystem, which this
      model of one scheduler does not hold *)
| Escapes
| OutOfFuel.

Arguments Done {A} a w.
Arguments Panic {A} msg w.
Arguments Undefined {A}.
Arguments Escapes {A}.
Arguments OutOfFuel {A}.

Definition M (A : Type) : Type := World -> Outcome A.

Definition ret {A} (a : A) : M A := fun w => Done a w.

Definition bind {A B} (m : M A) (k : A -> M B) : M B := fun w =>
  match m w with
  | Done a w' => k a w'
  | Panic msg w' => Panic msg w'
  | Undefined => Undefined
  | Escapes => Escapes
  | OutOfFuel => OutOfFuel
  end.

Notation "x <- m ;; k" := (bind m (fun x => k))
  (at level 100, m at next level, right associativity).
Notation "m ;;; k" := (bind m (fun _ => k))
  (at level 100, right associativity).

Definition emit (e : Event) : M unit := fun w =>
  Done tt (set_trace (trace w ++ [e]) w).

Definition undefined {A} : M A := fun _ => Undefined.
Definition panic {A} (msg : string) : M A := fun w => Panic msg w.
Definition when (b : bool) (m : M unit) : M unit := if b then m else ret tt.

Global Instance memory_order_eq_dec : EqDecision memory_order.
Proof. solve_decision. Defined.

Global Instance Priority_eq_dec : EqDecision Priority.
Proof. solve_decision. Defined.

Global Instance Atomic_eq_dec : EqDecision Atomic.
Proof. solve_decision. Defined.

Global Instance Event_eq_dec : EqDecision Event.
Proof. solve_decision. Defined.

Global Instance TSRef_eq_dec : EqDecision TSRef.
Proof. solve_decision. Defined.

(** ** Reading traces *)

(** The events of [t] that happen while the scheduler lock is held, when
    [held] tells whether it is held at the start of [t]. *)
Fixpoint under_lock (held : bool) (t : list Event) : list Event :=
  match t with
  | [] => []
  | EvLock :: t' => under_lock true t'
  | EvUnlock :: t' => under_lock false t'
  | e :: t' => if held then e :: under_lock held t' else under_lock held t'
  end.

Definition is_notify (e : Event) : bool :=
  match e with
  | EvNotifyOne | EvNotifyAll => true
  | _ => false
  end.

(** The events a call added to the trace. *)
Definition events_since (w w' : World) : list Event :=
  drop (length (trace w)) (trace w').

(** ** The member functions *)

Section JobSystem.

Variable cfg : Config.

(** [default_random_engine] is declared in utils/JobSystem.h: one call of
    [state.rndGen()] maps the engine state to the value drawn and the
    next state. *)
Variable default_random_engine : N -> N * N.

(** [job->function(job->storage, *this, job)]: the effect of running job
    function [f] on thread [tid] for job [j]. *)
Variable invoke : JobFunc -> nat -> nat -> M unit.

(** [assert] of <cassert>. *)
Definition assert (c : bool) : M unit :=
  if NDEBUG cfg || c then ret tt else panic "assert".

(** Modelled from the spec: ASSERT_PRECONDITION and ASSERT_POSTCONDITION
    of utils/Panic.h, which is not part of the sources; the spec says that
    a violated contract panics. *)
Definition ASSERT_PRECONDITION (c : bool) (msg : string) : M unit :=
  if c then ret tt else panic msg.

Definition ASSERT_POSTCONDITION (c : bool) (msg : string) : M unit :=
  if c then ret tt else panic msg.

(** *** Access to jobs and thread states *)

Definition ptr (p : option nat) : M nat :=
  match p with Some j => ret j | None => undefined end.

Definition load_job (j : nat) : M Job := fun w =>
  match mJobPool w !! j with
  | Some jb => Done jb w
  | None => Undefined
  end.

Definition store_job (j : nat) (jb : Job) : M unit := fun w =>
  Done tt (set_mJobPool (<[j := jb]> (mJobPool w)) w).

Definition load_state (r : TSRef) : M ThreadState := fun w =>
  if bool_decide (ref_js r = this w) then
    match mThreadStates w !! ref_index r with
    | Some s => Done s w
    | None => Undefined
    end
  else Escapes.

Definition store_state (r : TSRef) (s : ThreadState) : M unit := fun w =>
  Done tt (set_mThreadStates (<[ref_index r := s]> (mThreadStates w)) w).

(** [mThreadStates[index]] as a reference. *)
Definition mThreadStates_at (index : Z) : M TSRef := fun w =>
  if (Z.of_nat (length (mThreadStates w)) <=? index)%Z then Undefined
  else Done (mkTSRef (this w) (Z.to_nat index)) w.

(** *** Atomic members *)

Definition runningJobCount_fetch_add (j : nat) (mo : memory_order) : M Z :=
  jb <- load_job j ;;
  emit (EvFetchAdd (A_runningJobCount j) mo) ;;;
  store_job j (set_runningJobCount (to_runningJobCount cfg (runningJobCount jb + 1)) jb) ;;;
  ret (runningJobCount jb).

Definition runningJobCount_fetch_sub (j : nat) (mo : memory_order) : M Z :=
  jb <- load_job j ;;
  emit (EvFetchSub (A_runningJobCount j) mo) ;;;
  store_job j (set_runningJobCount (to_runningJobCount cfg (runningJobCount jb - 1)) jb) ;;;
  ret (runningJobCount jb).

Definition runningJobCount_load (j : nat) (mo : memory_order) : M Z :=
  jb <- load_job j ;;
  emit (EvLoad (A_runningJobCount j) mo) ;;;
  ret (runningJobCount jb).

Definition refCount_fetch_add (j : nat) (mo : memory_order) : M Z :=
  jb <- load_job j ;;
  emit (EvFetchAdd (A_refCount j) mo) ;;;
  store_job j (set_refCount (to_refCount cfg (refCount jb + 1)) jb) ;;;
  ret (refCount jb).

Definition refCount_fetch_sub (j : nat) (mo : memory_order) : M Z :=
  jb <- load_job j ;;
  emit (EvFetchSub (A_refCount j) mo) ;;;
  store_job j (set_refCount (to_refCount cfg (refCount jb - 1)) jb) ;;;
  ret (refCount jb).

Definition mActiveJobs_fetch_add (mo : memory_order) : M Z := fun w =>
  Done (mActiveJobs w)
    (set_trace (trace w ++ [EvFetchAdd A_mActiveJobs mo])
       (set_mActiveJobs (to_uint32 (mActiveJobs w + 1)) w)).

Definition mActiveJobs_fetch_sub (mo : memory_order) : M Z := fun w =>
  Done (mActiveJobs w)
    (set_trace (trace w ++ [EvFetchSub A_mActiveJobs mo])
       (set_mActiveJobs (to_uint32 (mActiveJobs w - 1)) w)).

Definition mAdoptedThreads_fetch_add (mo : memory_order) : M Z := fun w =>
  Done (mAdoptedThreads w)
    (set_trace (trace w ++ [EvFetchAdd A_mAdoptedThreads mo])
       (set_mAdoptedThreads (to_uint16 (mAdoptedThreads w + 1)) w)).

Definition mAdoptedThreads_load (mo : memory_order) : M Z := fun w =>
  Done (mAdoptedThreads w) (set_trace (trace w ++ [EvLoad A_mAdoptedThreads mo]) w).

Definition mExitRequested_store (b : bool) (mo : memory_order) : M unit := fun w =>
  Done tt (set_trace (trace w ++ [EvStore A_mExitRequested mo]) (set_mExitRequested b w)).

Definition mExitRequested_load (mo : memory_order) : M bool := fun w =>
  Done (mExitRequested w) (set_trace (trace w ++ [EvLoad A_mExitRequested mo]) w).

(** *** Collaborators declared in headers *)

(** Modelled from the spec: [mJobPool.make<Job>()] and [mJobPool.destroy]
    of the arena (utils/Allocator.h). The arena has MAX_JOB_COUNT slots;
    [make] hands out a free slot holding a default-constructed Job (no
    function, both counters 1) and yields null when no slot is free. *)
Definition free_slot (pool : gmap nat Job) : option nat :=
  snd <$> list_find (fun i => pool !! i = None) (seq 0 (Z.to_nat (MAX_JOB_COUNT cfg))).

Definition exhausted (pool : gmap nat Job) : Prop :=
  forall i, (Z.of_nat i < MAX_JOB_COUNT cfg)%Z -> is_Some (pool !! i).

Definition default_Job : Job := mkJob None 0x7FFF 1 1.

Definition allocateJob : M (option nat) := fun w =>
  match free_slot (mJobPool w) with
  | Some j => Done (Some j) (set_mJobPool (<[j := default_Job]> (mJobPool w)) w)
  | None => Done None w
  end.

Definition destroy (j : nat) : M unit := fun w =>
  Done tt (set_trace (trace w ++ [EvDestroy j]) (set_mJobPool (delete j (mJobPool w)) w)).

(** Modelled from the spec: [put], [pop] and [steal] of utils/JobSystem.h
    over the WorkStealingDequeue. The owner pushes and pops at one end
    (LIFO), a thief takes from the other end (FIFO); pushing on a full
    queue is a programming error. *)
Definition put (r : TSRef) (j : nat) : M unit :=
  s <- load_state r ;;
  if (MAX_JOB_COUNT cfg <=? Z.of_nat (length (workQueue s)))%Z then undefined
  else
    emit (EvPut (ref_index r) j) ;;;
    store_state r (set_workQueue (workQueue s ++ [j]) s).

Definition pop (r : TSRef) : M (option nat) :=
  s <- load_state r ;;
  emit (EvPop (ref_index r)) ;;;
  match last (workQueue s) with
  | Some j => store_state r (set_workQueue (removelast (workQueue s)) s) ;;; ret (Some j)
  | None => ret None
  end.

Definition steal (r : TSRef) : M (option nat) :=
  s <- load_state r ;;
  emit (EvSteal (ref_index r)) ;;;
  match workQueue s with
  | j :: q => store_state r (set_workQueue q s) ;;; ret (Some j)
  | [] => ret None
  end.

(** The OS and CPU hooks are recorded as events. *)
Definition setThreadName (name : string) : M unit := emit (EvSetThreadName name).
Definition setThreadPriority (p : Priority) : M unit := emit (EvSetThreadPriority p).
Definition UTILS_WAIT_FOR_EVENT : M unit := emit EvWaitForEvent.
Definition UTILS_SIGNAL_EVENT : M unit := emit EvSignalEvent.

(** *** JobSystem.cpp *)

Definition incRef (job : option nat) : M unit :=
  j <- ptr job ;;
  refCount_fetch_add j memory_order_relaxed ;;;
  ret tt.

Definition decRef (job : option nat) : M unit :=
  j <- ptr job ;;
  c <- refCount_fetch_sub j
         (if thread_sanitizer cfg then memory_order_acq_rel else memory_order_release) ;;
  assert (0 <? c)%Z ;;;
  if (c =? 1)%Z then
    when (negb (thread_sanitizer cfg)) (emit (EvFence memory_order_acquire)) ;;;
    destroy j
  else ret tt.

Definition requestExit : M unit :=
  emit EvLock ;;;
  mExitRequested_store true memory_order_relaxed ;;;
  emit EvUnlock ;;;
  emit EvNotifyAll ;;;
  when (ARM_ARCH_7A cfg) (emit (EvDsb 0xA) ;;; UTILS_SIGNAL_EVENT).

Definition exitRequested : M bool :=
  mExitRequested_load memory_order_relaxed.

Definition hasJobCompleted (job : option nat) : M bool :=
  j <- ptr job ;;
  c <- runningJobCount_load j memory_order_relaxed ;;
  ret (c <=? 0)%Z.

Definition getState (tid : nat) : M TSRef := fun w =>
  (assert (bool_decide (is_Some (sThreadState w !! tid))) ;;;
   match sThreadState w !! tid with
   | Some r => ret r
   | None => undefined
   end) w.

Definition getStateToStealFrom (state : TSRef) : M TSRef := fun w =>
  (adopted <- mAdoptedThreads_load memory_order_relaxed ;;
   s <- load_state state ;;
   let (r, g) := default_random_engine (rndGen s) in
   store_state state (set_rndGen g s) ;;;
   let d := (mThreadCount w + adopted)%Z in
   if (d =? 0)%Z then undefined
   else
     let index := to_uint16 (Z.of_N r mod d) in
     assert (index <? Z.of_nat (length (mThreadStates w)))%Z ;;;
     mThreadStates_at index) w.

(** Modelled from the spec: [Pin] of utils/JobSystem.h, a scope that
    keeps a job alive while the current thread works on it, implemented
    as an increment of the reference count on entry and a decrement on
    exit. *)
Definition Pin_enter (job : option nat) : M unit := incRef job.
Definition Pin_exit (job : option nat) : M unit := decRef job.

(** The do-while loop of [finish], started on job [j]. *)
Fixpoint finish_loop (fuel : nat) (j : nat) : M unit :=
  match fuel with
  | O => fun _ => OutOfFuel
  | S fuel' =>
      c <- runningJobCount_fetch_sub j
             (if thread_sanitizer cfg then memory_order_acq_rel else memory_order_release) ;;
      assert (0 <? c)%Z ;;;
      if (c =? 1)%Z then
        when (negb (thread_sanitizer cfg)) (emit (EvFence memory_order_acquire)) ;;;
        jb <- load_job j ;;
        let parent_ :=
          if (parent jb =? 0x7FFF)%Z then None else Some (Z.to_nat (parent jb)) in
        decRef (Some j) ;;;
        match parent_ with
        | Some p => finish_loop fuel' p
        | None => ret tt
        end
      else ret tt
  end.

(** Every iteration but the last takes a job whose count is 1 to 0, so
    the loop runs at most once more than there are live jobs (see
    [finish_loop_terminates]). *)
Definition finish (job : option nat) : M unit := fun w =>
  (Pin_enter job ;;;
   j <- ptr job ;;
   finish_loop (S (size (mJobPool w))) j ;;;
   when (ARM_ARCH_7A cfg) (emit (EvDsb 0xA) ;;; UTILS_SIGNAL_EVENT) ;;;
   Pin_exit job) w.

Definition execute (tid : nat) (state : TSRef) : M bool :=
  job <- pop state ;;
  job <- match job with
         | Some _ => ret job
         | None =>
             stateToStealFrom <- getStateToStealFrom state ;;
             if bool_decide (stateToStealFrom <> state) then steal stateToStealFrom
             else ret None
         end ;;
  match job with
  | Some j =>
      activeJobs <- mActiveJobs_fetch_sub memory_order_relaxed ;;
      assert (negb (activeJobs =? 0)%Z) ;;;
      jb <- load_job j ;;
      match function jb with
      | Some f => emit (EvCall f j) ;;; invoke f tid j
      | None => ret tt
      end ;;;
      finish job ;;;
      ret true
  | None => ret false
  end.

(** The first statements of [loop], run by each thread the constructor
    starts, up to the main loop. *)
Definition loop_enter (tid : nat) (threadState : TSRef) : M unit :=
  setThreadName "JobSystem::loop" ;;;
  setThreadPriority DISPLAY ;;;
  (fun w => Done tt (set_sThreadState (<[tid := threadState]> (sThreadState w)) w)).

Definition create (parent_ : option nat) (func : option JobFunc) : M (option nat) := fun w =>
  (let parent_ := match parent_ with None => mMasterJob w | Some _ => parent_ end in
   job <- allocateJob ;;
   match job with
   | Some j =>
       index <- match parent_ with
                | Some p =>
                    parentjobCount <- runningJobCount_fetch_add p memory_order_relaxed ;;
                    assert (0 <? parentjobCount)%Z ;;;
                    let index := Z.of_nat p in
                    assert (index <? MAX_JOB_COUNT cfg)%Z ;;;
                    ret index
                | None => ret 0x7FFF%Z
                end ;;
       jb <- load_job j ;;
       store_job j (mkJob func (to_uint16 index) (runningJobCount jb) (refCount jb)) ;;;
       ret job
   | None => ret job
   end) w.

(** [run] takes its job by reference: the result is the caller's pointer
    after the call. *)
Definition run (tid : nat) (job : option nat) (flags : Z) : M (option nat) :=
  Pin_enter job ;;;
  state <- getState tid ;;
  activeJobs <- mActiveJobs_fetch_add memory_order_relaxed ;;
  j <- ptr job ;;
  put state j ;;;
  when (Z.land flags (DONT_SIGNAL cfg) =? 0)%Z
    (when (negb (activeJobs =? 0)%Z)
       (emit EvLock ;;; emit EvUnlock ;;; emit EvNotifyOne)) ;;;
  Pin_exit job ;;;
  ret None.

Definition runAndRetain (tid : nat) (job : option nat) (flags : Z) : M (option nat) :=
  let retained := job in
  incRef retained ;;;
  run tid job flags ;;;
  ret retained.

(** [do { body } while (cond)]. *)
Fixpoint do_while (fuel : nat) (body : M unit) (cond : M bool) : M unit :=
  match fuel with
  | O => fun _ => OutOfFuel
  | S fuel' =>
      body ;;;
      again <- cond ;;
      if again then do_while fuel' body cond else ret tt
  end.

(** The body and the condition of the loop of [wait]. *)
Definition wait_body (tid : nat) (state : TSRef) : M unit :=
  ran <- execute tid state ;;
  when (negb ran) UTILS_WAIT_FOR_EVENT.

Definition wait_condition (job : option nat) : M bool :=
  completed <- hasJobCompleted job ;;
  if negb completed then
    exit_ <- exitRequested ;;
    ret (negb exit_)
  else ret false.

(** [wait] takes its job by reference: the result is the caller's
    pointer after the call. *)
Definition wait (fuel : nat) (tid : nat) (job : option nat) : M (option nat) :=
  assert (bool_decide (is_Some job)) ;;;
  state <- getState tid ;;
  do_while fuel (wait_body tid state) (wait_condition job) ;;;
  decRef job ;;;
  ret None.

Definition adopt (tid : nat) : M unit := fun w =>
  match sThreadState w !! tid with
  | Some state =>
      ASSERT_PRECONDITION (bool_decide (this w = ref_js state))
        "Called adopt on a thread owned by another JobSystem" w
  | None =>
      (adopted <- mAdoptedThreads_fetch_add memory_order_relaxed ;;
       let index := (mThreadCount w + adopted)%Z in
       ASSERT_POSTCONDITION (index <? Z.of_nat (length (mThreadStates w)))%Z
         "Too many calls to adopt(). No more adoptable threads!" ;;;
       setThreadPriority DISPLAY ;;;
       r <- mThreadStates_at index ;;
       (fun w' => Done tt (set_sThreadState (<[tid := r]> (sThreadState w')) w'))) w
  end.

Definition emancipate (tid : nat) : M unit := fun w =>
  (let state := sThreadState w !! tid in
   ASSERT_PRECONDITION (bool_decide (is_Some state)) "this thread is not an adopted thread" ;;;
   match state with
   | Some r =>
       ASSERT_PRECONDITION (bool_decide (ref_js r = this w)) "this thread is not adopted by us"
   | None => undefined
   end ;;;
   (fun w' => Done tt (set_sThreadState (delete tid (sThreadState w')) w'))) w.

End JobSystem.

(** ** The constructor *)

(** The thread count the constructor settles on: [hwThreads] is the value
    of std::thread::hardware_concurrency(), arithmetic is on size_t. *)
Definition ctor_threadCount (cfg : Config) (hwThreads threadCount : Z) : Z :=
  let threadCount :=
    if (threadCount =? 0)%Z then
      if UTILS_HAS_HYPER_THREADING cfg then to_size_t (hwThreads / 2 - 1)
      else to_size_t (hwThreads - 1)
    else threadCount in
  Z.min (if UTILS_HAS_THREADING cfg then 32 else 0) threadCount.

(** State [i] of the loop over [mThreadStates]: [rd] gives the value of
    the [i]-th call of the std::random_device. *)
Definition ctor_state (rd : nat -> N) (hardwareThreadCount : Z) (i : nat) : ThreadState :=
  mkThreadState [] (rd i) (to_uint32 (Z.shiftl 1 (Z.of_nat i)))
    (Z.of_nat i <? hardwareThreadCount)%Z.

(** [JobSystem::JobSystem(threadCount, adoptableThreadsCount)], building
    scheduler [self] when the threads of the process have the thread-local
    pointers [tls]. The members that the header initialises are empty or
    zero. [1UL << i] is undefined from [i = ULONG_BITS] on.
    [mParallelSplitCount] is a floating-point expression and is not part
    of the model, nor are the two asserts on is_lock_free. *)
Definition JobSystem_ctor (cfg : Config) (self : nat) (tls : gmap nat TSRef)
    (hwThreads : Z) (rd : nat -> N) (threadCount adoptableThreadsCount : Z)
    : Outcome unit :=
  let threadCount := ctor_threadCount cfg hwThreads threadCount in
  let n := to_size_t (threadCount + adoptableThreadsCount) in
  let mThreadCount_ := to_uint16 threadCount in
  if (ULONG_BITS cfg <? n)%Z then Undefined
  else
    Done tt (mkWorld self ∅ (map (ctor_state rd mThreadCount_) (seq 0 (Z.to_nat n)))
               mThreadCount_ 0 0 false None tls []).

(** The number of threads the constructor started. *)
Definition spawned (w : World) : nat :=
  length (filter (fun s => thread s = true) (mThreadStates w)).

(** ** Runs of a loop *)

(** [do_while_run body cond w w']: the loop [do { body } while (cond)]
    started in [w] ends in [w'] after one or more passes. *)
Inductive do_while_run (body : M unit) (cond : M bool) : World -> World -> Prop :=
| dw_last w w1 w' :
    body w = Done tt w1 -> cond w1 = Done false w' -> do_while_run body cond w w'
| dw_again w w1 w2 w' :
    body w = Done tt w1 -> cond w1 = Done true w2 ->
    do_while_run body cond w2 w' -> do_while_run body cond w w'.

(** ** Reading worlds *)

(** The parent [create] works with: the master job stands in for null. *)
Definition effective_parent (parent_ : option nat) (w : World) : option nat :=
  match parent_ with None => mMasterJob w | Some _ => parent_ end.

(** The parent [finish] reads from a job: 0x7FFF is no parent. *)
Definition parent_of (jb : Job) : option nat :=
  if (parent jb =? 0x7FFF)%Z then None else Some (Z.to_nat (parent jb)).

(** Every live job lies in the arena. *)
Definition arena_ok (cfg : Config) (w : World) : Prop :=
  forall i, is_Some (mJobPool w !! i) -> (Z.of_nat i < MAX_JOB_COUNT cfg)%Z.

(** The number of live jobs whose runningJobCount is 1. *)
Definition at_one (pool : gmap nat Job) : nat :=
  size (filter (fun kv : nat * Job => runningJobCount (snd kv) = 1%Z) pool).

(** ** Worlds after a step *)

Definition log (l : list Event) (w : World) : World :=
  set_trace (trace w ++ l) w.

Definition with_job (j : nat) (jb : Job) (w : World) : World :=
  set_mJobPool (<[j := jb]> (mJobPool w)) w.

Definition without_job (j : nat) (w : World) : World :=
  set_mJobPool (delete j (mJobPool w)) w.

Definition with_state (i : nat) (s : ThreadState) (w : World) : World :=
  set_mThreadStates (<[i := s]> (mThreadStates w)) w.

(** The memory order of the decrements of [decRef] and [finish], and the
    fence that follows a decrement to zero. *)
Definition release_order (cfg : Config) : memory_order :=
  if thread_sanitizer cfg then memory_order_acq_rel else memory_order_release.

Definition acquire_fence (cfg : Config) : list Event :=
  if thread_sanitizer cfg then [] else [EvFence memory_order_acquire].

(** The events of [decRef] on job [j] whose reference count was [c]. *)
Definition decRef_events (cfg : Config) (j : nat) (c : Z) : list Event :=
  EvFetchSub (A_refCount j) (release_order cfg)
  :: (if (c =? 1)%Z then acquire_fence cfg ++ [EvDestroy j] else []).

(** The events [run] adds after the job is queued. *)
Definition wake_up (signal : bool) : list Event :=
  if signal then [EvLock; EvUnlock; EvNotifyOne] else [].

(** ** The bookkeeping of threads *)

(** [w'] has the scheduler identity, the number of thread states, the
    thread counts and the thread-local pointers of [w]. *)
Definition same_threads (w w' : World) : Prop :=
  this w' = this w /\
  length (mThreadStates w') = length (mThreadStates w) /\
  mThreadCount w' = mThreadCount w /\
  mAdoptedThreads w' = mAdoptedThreads w /\
  sThreadState w' = sThreadState w.

Definition frames {A} (m : M A) : Prop :=
  forall w a w', m w = Done a w' -> same_threads w w'.

Definition preserves {A} (P : World -> Prop) (m : M A) : Prop :=
  forall w a w', P w -> m w = Done a w' -> P w'.

(** The workers and the adopted threads fit in the thread states, whose
    number fits in 16 bits, and every thread-local pointer into this
    scheduler refers to a worker or to a slot that was adopted. *)
Definition Inv (w : World) : Prop :=
  (0 <= mThreadCount w)%Z /\ (0 <= mAdoptedThreads w)%Z /\
  (mThreadCount w + mAdoptedThreads w <= Z.of_nat (length (mThreadStates w)))%Z /\
  (Z.of_nat (length (mThreadStates w)) < 2 ^ 16)%Z /\
  forall tid r, sThreadState w !! tid = Some r -> ref_js r = this w ->
    (Z.of_nat (ref_index r) < mThreadCount w + mAdoptedThreads w)%Z.

Section Reachable.

Variable cfg : Config.
Variable default_random_engine : N -> N * N.
Variable invoke : JobFunc -> nat -> nat -> M unit.

(** The worlds a scheduler goes through, with the number of calls of
    [adopt] that ended in a panic. The scheduler is constructed, with
    counts that do not overflow size_t and while no thread-local pointer
    refers to it; the threads the constructor started enter [loop];
    threads call the member functions. A call that returns leads to the
    world it leaves. So does a call of [adopt] or [emancipate] that
    panics: the two are not [noexcept], the caller can catch the panic
    and go on, and [adopt] has by then added to [mAdoptedThreads]. A
    failed [assert] in one of the [noexcept] functions ends the
    program. *)
Inductive reachable : nat -> World -> Prop :=
| reach_ctor self tls hwThreads rd threadCount adoptable w :
    (0 <= threadCount)%Z -> (0 <= adoptable)%Z -> (32 + adoptable < 2 ^ 64)%Z ->
    (forall t r, tls !! t = Some r -> ref_js r <> self) ->
    JobSystem_ctor cfg self tls hwThreads rd threadCount adoptable = Done tt w ->
    reachable 0 w
| reach_loop n w tid i w' :
    reachable n w -> (Z.of_nat i < mThreadCount w)%Z ->
    loop_enter tid (mkTSRef (this w) i) w = Done tt w' -> reachable n w'
| reach_adopt n w tid w' :
    reachable n w -> adopt tid w = Done tt w' -> reachable n w'
| reach_emancipate n w tid w' :
    reachable n w -> emancipate tid w = Done tt w' -> reachable n w'
| reach_requestExit n w w' :
    reachable n w -> requestExit cfg w = Done tt w' -> reachable n w'
| reach_create n w parent_ func job w' :
    reachable n w -> create cfg parent_ func w = Done job w' -> reachable n w'
| reach_run n w tid job flags h w' :
    reachable n w -> run cfg tid job flags w = Done h w' -> reachable n w'
| reach_runAndRetain n w tid job flags h w' :
    reachable n w -> runAndRetain cfg tid job flags w = Done h w' -> reachable n w'
| reach_wait n w fuel tid job h w' :
    reachable n w ->
    wait cfg default_random_engine invoke fuel tid job w = Done h w' -> reachable n w'
| reach_execute n w tid state ran w' :
    reachable n w -> sThreadState w !! tid = Some state ->
    execute cfg default_random_engine invoke tid state w = Done ran w' -> reachable n w'
| reach_adopt_panics n w tid msg w' :
    reachable n w -> adopt tid w = Panic msg w' -> reachable (S n) w'
| reach_emancipate_panics n w tid msg w' :
    reachable n w -> emancipate tid w = Panic msg w' -> reachable n w'.

End Reachable.

(** ** Sample builds and worlds *)

Module Sample.

(** A debug build for a 64-bit target, a release build (NDEBUG) and a
    ThreadSanitizer build, with the constants of utils/JobSystem.h. *)
Definition debug_build : Config := mkConfig false false false true true 4096 1 64 32 32.
Definition release_build : Config := mkConfig false false true true true 4096 1 64 32 32.
Definition tsan_build : Config := mkConfig true false false true true 4096 1 64 32 32.
(** A build for a target without hyper-threading. *)
Definition arm64_build : Config := mkConfig false false false true false 4096 1 64 32 32.

(** A linear congruential engine. *)
Definition lcg (s : N) : N * N :=
  let s' := ((s * 1664525 + 1013904223) mod 2 ^ 32)%N in (s', s').

(** Job functions that do nothing. *)
Definition no_effect : JobFunc -> nat -> nat -> M unit := fun _ _ _ => ret tt.

Definition rd (i : nat) : N := N.of_nat (i + 1).

(** Scheduler 7 with two workers and one adoptable slot, before any
    thread entered it. *)
Definition idle : World :=
  mkWorld 7 ∅ (map (ctor_state rd 2) (seq 0 3)) 2 0 0 false None ∅ [].

(** The same scheduler when thread 1 runs worker 0 and the external
    thread 100 was adopted. *)
Definition started : World :=
  mkWorld 7 ∅ (map (ctor_state rd 2) (seq 0 3)) 2 1 0 false None
    (<[1 := mkTSRef 7 0]> (<[100 := mkTSRef 7 2]> ∅)) [].

(** [started] with a root job 0 and a child job 1 of it, with the given
    values of runningJobCount; nothing is queued. *)
Definition family (root_count child_count : Z) : World :=
  mkWorld 7
    (<[0 := mkJob None 0x7FFF root_count 1]> (<[1 := mkJob None 0 child_count 1]> ∅))
    (map (ctor_state rd 2) (seq 0 3)) 2 1 0 false None
    (<[1 := mkTSRef 7 0]> (<[100 := mkTSRef 7 2]> ∅)) [].

(** [family 2 1] when the root is queued on worker 0 and not yet
    executed. *)
Definition busy : World :=
  set_mActiveJobs 1 (with_state 0 (set_workQueue [0] (ctor_state rd 2 0)) (family 2 1)).

(** [family 2 1] when the caller also holds a reference to the root and
    exit has been requested. *)
Definition shutting_down : World :=
  set_mExitRequested true (with_job 0 (mkJob None 0x7FFF 2 2) (family 2 1)).

End Sample.

(** ** The thread hooks, the destructor and the worker loop *)

(** The loop of [setThreadAffinity]: [while (mask) { if (mask & 1)
    CPU_SET(bit, &set); bit++; mask >>= 1; }]. *)
Fixpoint setThreadAffinity_loop (fuel : nat) (mask : Z) (bit : nat) (set : gset nat)
    : option (gset nat) :=
  if (mask =? 0)%Z then Some set
  else
    match fuel with
    | O => None
    | S fuel' =>
        let set := if (Z.land mask 1 =? 0)%Z then set else {[bit]} ∪ set in
        setThreadAffinity_loop fuel' (Z.shiftr mask 1) (S bit) set
    end.

(** What [setThreadAffinity] asks of the OS. *)
Inductive AffinityCall :=
| no_call
| sched_setaffinity (set : gset nat).

(** [setThreadAffinity(uint32_t mask)]; [linux] is [defined(__linux__)].
    The argument is converted to the 32 bits of the parameter, which the
    loop shifts out in at most 32 passes. *)
Definition setThreadAffinity (linux : bool) (mask : Z) : option AffinityCall :=
  if linux then sched_setaffinity <$> setThreadAffinity_loop 32 (to_uint32 mask) 0 ∅
  else Some no_call.

(** [getJobSystem]: [state ? state->js : nullptr] on the thread-local
    pointer of the calling thread. *)
Definition getJobSystem (tid : nat) : M (option nat) := fun w =>
  match sThreadState w !! tid with
  | Some state => Done (Some (ref_js state)) w
  | None => Done None w
  end.

Definition set_thread (b : bool) (s : ThreadState) : ThreadState :=
  mkThreadState (workQueue s) (rndGen s) (mask s) b.

(** The loop of the destructor over the states from position [i] on: a
    joinable thread is joined, after which it is no longer joinable. The
    result lists the positions joined, in order. *)
Fixpoint dtor_loop (i : nat) (states : list ThreadState) : list nat * list ThreadState :=
  match states with
  | [] => ([], [])
  | state :: rest =>
      let (joined, rest') := dtor_loop (S i) rest in
      if thread state then (i :: joined, set_thread false state :: rest')
      else (joined, state :: rest')
  end.

(** [JobSystem::~JobSystem()], with the positions of the threads it
    joined. [join] returns when the thread has left [loop]; how long that
    takes is not part of the model. *)
Definition JobSystem_dtor (cfg : Config) : M (list nat) :=
  requestExit cfg ;;;
  (fun w =>
     let (joined, states) := dtor_loop 0 (mThreadStates w) in
     Done joined (set_mThreadStates states w)).

Definition mActiveJobs_load (mo : memory_order) : M Z := fun w =>
  Done (mActiveJobs w) (set_trace (trace w ++ [EvLoad A_mActiveJobs mo]) w).

(** How a run of [loop] ends for the thread: it returns, or it blocks in
    [mCondition.wait]. *)
Inductive LoopEnd := loop_exited | loop_blocked.

Section Loop.

Variable cfg : Config.
Variable default_random_engine : N -> N * N.
Variable invoke : JobFunc -> nat -> nat -> M unit.

(** [while (!exitRequested() && !mActiveJobs.load(relaxed))
    mCondition.wait(lock);] entered with the lock held. Either the
    condition is false and the thread goes on ([true]), the unique_lock
    releasing the lock at the end of its scope, or the thread blocks in
    [mCondition.wait], which releases the lock ([false]). *)
Definition loop_idle : M bool :=
  exit_ <- exitRequested ;;
  if negb exit_ then
    activeJobs <- mActiveJobs_load memory_order_relaxed ;;
    if (activeJobs =? 0)%Z then emit EvUnlock ;;; ret false
    else emit EvUnlock ;;; ret true
  else emit EvUnlock ;;; ret true.

(** The main loop of [loop], up to the point where the thread returns or
    blocks. With [woken] the thread comes back from [mCondition.wait],
    holding the lock again, and evaluates the condition of the inner loop;
    otherwise it starts a pass of the outer loop. *)
Fixpoint loop_from (fuel : nat) (woken : bool) (tid : nat) (threadState : TSRef)
    : M LoopEnd :=
  match fuel with
  | O => fun _ => OutOfFuel
  | S fuel' =>
      go <- (if woken then emit EvLock ;;; loop_idle
             else
               ran <- execute cfg default_random_engine invoke tid threadState ;;
               if negb ran then emit EvLock ;;; loop_idle else ret true) ;;
      if go then
        exit_ <- exitRequested ;;
        if negb exit_ then loop_from fuel' false tid threadState
        else ret loop_exited
      else ret loop_blocked
  end.

Definition loop (fuel : nat) (tid : nat) (threadState : TSRef) : M LoopEnd :=
  loop_enter tid threadState ;;;
  loop_from fuel false tid threadState.

End Loop.

(** ** More on the bookkeeping of threads *)

(** [w'] has the exit flag of [w]. *)
Definition keeps_exit {A} (m : M A) : Prop :=
  forall w a w', m w = Done a w' -> mExitRequested w' = mExitRequested w.

(** Two threads share a thread state only when it is a worker's. *)
Definition adopted_apart (w : World) : Prop :=
  forall t1 t2 r, t1 <> t2 ->
    sThreadState w !! t1 = Some r -> sThreadState w !! t2 = Some r ->
    ref_js r = this w -> (Z.of_nat (ref_index r) < mThreadCount w)%Z.

(** The bookkeeping of threads after [n] calls of [adopt] have panicked.
    Every call of [adopt] that takes a slot or finds none adds 1 to the
    16-bit [mAdoptedThreads]; the count has not wrapped while [n] and the
    number of thread states stay below 2^16 together. Until then the
    count is at most the number of states plus [n], every thread-local
    pointer into this scheduler lies below the workers and the count, and
    adopted threads do not share a state. *)
Definition Apart (n : nat) (w : World) : Prop :=
  (Z.of_nat n + Z.of_nat (length (mThreadStates w)) < 2 ^ 16)%Z ->
  (0 <= mThreadCount w)%Z /\
  (0 <= mAdoptedThreads w <= Z.of_nat (length (mThreadStates w)) + Z.of_nat n)%Z /\
  (forall tid r, sThreadState w !! tid = Some r -> ref_js r = this w ->
     (Z.of_nat (ref_index r) < mThreadCount w + mAdoptedThreads w)%Z) /\
  adopted_apart w.

(** ** Jobs queued and jobs counted *)

(** The number of jobs in the work queues. *)
Definition queued (states : list ThreadState) : nat :=
  sum_list (map (fun s => length (workQueue s)) states).

(** [mActiveJobs], a uint32_t, counts the queued jobs. *)
Definition Counted (w : World) : Prop :=
  mActiveJobs w = to_uint32 (Z.of_nat (queued (mThreadStates w))).

(** One job was taken from a queue and is not yet subtracted from
    [mActiveJobs]. *)
Definition Owed (w : World) : Prop :=
  mActiveJobs w = to_uint32 (Z.of_nat (queued (mThreadStates w)) + 1).

(** [m] leaves the thread states and [mActiveJobs] as they are. *)
Definition keeps_queues {A} (m : M A) : Prop :=
  forall w a w', m w = Done a w' ->
    mThreadStates w' = mThreadStates w /\ mActiveJobs w' = mActiveJobs w.

(** ** run in two parts *)

(** [run] is not one step for the other threads: once [put] has queued
    the job (line 364), a thread can steal and finish it while [run] is
    still on its way to the end of the scope of the [Pin]. [run_put] is
    [run] up to and including [put], with the value that
    [mActiveJobs.fetch_add] returned; [run_rest] is the rest: the signal,
    the end of the scope of the [Pin] and [job = nullptr]. *)
Definition run_put (cfg : Config) (tid : nat) (job : option nat) : M Z :=
  Pin_enter cfg job ;;;
  state <- getState cfg tid ;;
  activeJobs <- mActiveJobs_fetch_add memory_order_relaxed ;;
  j <- ptr job ;;
  put cfg state j ;;;
  ret activeJobs.

Definition run_rest (cfg : Config) (job : option nat) (flags activeJobs : Z)
    : M (option nat) :=
  when (Z.land flags (DONT_SIGNAL cfg) =? 0)%Z
    (when (negb (activeJobs =? 0)%Z)
       (emit EvLock ;;; emit EvUnlock ;;; emit EvNotifyOne)) ;;;
  Pin_exit cfg job ;;;
  ret None.

(** ** More sample worlds *)

Module Scenario.

(** Scheduler 7 with one worker and two adoptable slots. *)
Definition roomy : World :=
  mkWorld 7 ∅ (map (ctor_state Sample.rd 1) (seq 0 3)) 1 0 0 false None ∅ [].

(** [Sample.started] with a job that is its own parent. *)
Definition knot : World :=
  with_job 0 (mkJob None 0 1 3) Sample.started.

(** [Sample.started] with a job without function or parent, not queued. *)
Definition barrier : World :=
  with_job 0 (mkJob None 0x7FFF 1 1) Sample.started.

(** [barrier] when thread 2 runs worker 1. With [Sample.lcg] the first
    draw of worker 1 is 2 modulo 3, the slot of the adopted thread 100. *)
Definition crew : World :=
  set_sThreadState (<[2 := mkTSRef 7 1]> (sThreadState barrier)) barrier.

(** The engine minstd_rand0 of the C++ standard library, a choice of
    std::default_random_engine: x' = 16807 x mod (2^31 - 1), and x' is
    the value drawn. *)
Definition minstd_rand0 (s : N) : N * N :=
  let s' := (16807 * s mod 2147483647)%N in (s', s').

(** A std::random_device that returns 1: the first draw of
    [minstd_rand0] on each thread state is then 16807, which is 3
    modulo 4. *)
Definition ones (i : nat) : N := 1%N.

End Scenario.

(** * Properties *)

(** ** The monad *)

Lemma bind_Done {A B} (m : M A) (k : A -> M B) w b w' :
  bind m k w = Done b w' <-> exists a w1, m w = Done a w1 /\ k a w1 = Done b w'.
Proof.
  unfold bind. split.
  - destruct (m w) as [a w1| | | |] eqn:E; try discriminate. eauto.
  - intros (a & w1 & -> & H). exact H.
Qed.

Lemma to_refCount_small cfg z :
  (0 <= z < 2 ^ refCount_bits cfg)%Z -> to_refCount cfg z = z.
Proof. intros H. unfold to_refCount, wrap_unsigned. apply Z.mod_small. exact H. Qed.

Lemma to_runningJobCount_0 cfg : to_runningJobCount cfg 0 = 0%Z.
Proof.
  unfold to_runningJobCount, wrap_signed. rewrite Z.add_0_l.
  destruct (Z.le_gt_cases 1 (runningJobCount_bits cfg)) as [Hb|Hb].
  - rewrite Z.mod_small; [lia|]. split; [apply Z.pow_nonneg; lia|].
    apply Z.pow_lt_mono_r; lia.
  - assert (2 ^ (runningJobCount_bits cfg - 1) = 0)%Z as -> by (apply Z.pow_neg_r; lia).
    rewrite Zmod_0_l. reflexivity.
Qed.

Lemma events_since_app w w' l : trace w' = trace w ++ l -> events_since w w' = l.
Proof. unfold events_since. intros ->. apply drop_app_length. Qed.

(** ** requestExit *)

(** C7, as amended: requestExit stores the exit flag (relaxed) between
    taking and releasing the scheduler lock, and notifies all waiters of
    the condition variable after it has released the lock; the store is
    the only event under the lock. On ARMv7-A it then issues a dsb and
    signals the event; on other targets nothing follows. *)
Theorem requestExit_spec (cfg : Config) (w : World) :
  exists w',
    requestExit cfg w = Done tt w' /\
    mExitRequested w' = true /\
    events_since w w' =
      [EvLock; EvStore A_mExitRequested memory_order_relaxed; EvUnlock; EvNotifyAll]
      ++ (if ARM_ARCH_7A cfg then [EvDsb 0xA; EvSignalEvent] else []) /\
    under_lock false (events_since w w') = [EvStore A_mExitRequested memory_order_relaxed] /\
    mJobPool w' = mJobPool w /\ mThreadStates w' = mThreadStates w /\
    mAdoptedThreads w' = mAdoptedThreads w /\ mActiveJobs w' = mActiveJobs w /\
    sThreadState w' = sThreadState w.
Proof.
  unfold requestExit, UTILS_SIGNAL_EVENT, when, bind, emit, mExitRequested_store, ret.
  destruct (ARM_ARCH_7A cfg); simpl;
    (eexists; split; [reflexivity|]; simpl; split; [reflexivity|]);
    rewrite (events_since_app _ _ (_ :: _ :: _ :: _)) by
      (simpl; rewrite <- ?app_assoc; reflexivity); repeat split; reflexivity.
Qed.

(** C7, as stated, fails: no notification of the condition variable
    happens while requestExit holds the lock. *)
Lemma requestExit_signals_after_unlock :
  ~ (forall w', requestExit Sample.debug_build Sample.idle = Done tt w' ->
       exists e, e ∈ under_lock false (events_since Sample.idle w') /\ is_notify e = true).
Proof.
  intros H. destruct (H _ eq_refl) as (e & He & Hn).
  vm_compute in He. apply list_elem_of_In in He.
  destruct He as [<-|[]]. discriminate Hn.
Qed.

(** ** The constructor *)

Lemma ctor_states_spawned rd h n :
  (0 <= h)%Z ->
  length (filter (fun s => thread s = true) (map (ctor_state rd h) (seq 0 n)))
  = Nat.min n (Z.to_nat h).
Proof.
  intros Hh. induction n as [|n IH]; [reflexivity|].
  rewrite seq_S, map_app, filter_app, length_app, IH.
  cbn [map Nat.add]. rewrite filter_cons, filter_nil. cbn [thread ctor_state].
  destruct (Z.ltb_spec (Z.of_nat n) h); case_decide; try congruence;
    cbn [length]; lia.
Qed.

Lemma ctor_threadCount_range cfg hwThreads threadCount :
  (0 <= threadCount)%Z ->
  (0 <= ctor_threadCount cfg hwThreads threadCount <= 32)%Z.
Proof.
  intros H. unfold ctor_threadCount, to_size_t, wrap_unsigned.
  assert (0 <= (hwThreads / 2 - 1) mod 2 ^ 64)%Z by (apply Z.mod_pos_bound; lia).
  assert (0 <= (hwThreads - 1) mod 2 ^ 64)%Z by (apply Z.mod_pos_bound; lia).
  destruct (threadCount =? 0)%Z, (UTILS_HAS_HYPER_THREADING cfg), (UTILS_HAS_THREADING cfg); lia.
Qed.

(** C8, as amended: the constructor starts at most 32 threads, whatever
    its arguments; with thread_count = 0, on a build with threading and
    when the hardware concurrency is at least 1 (at least 2 when
    hyper-threading is detected), it starts min(32, hardware_concurrency
    - 1) threads, or min(32, hardware_concurrency / 2 - 1) with
    hyper-threading, the division rounding down. *)
Theorem ctor_worker_threads (cfg : Config) (self : nat) (tls : gmap nat TSRef)
    (hwThreads : Z) (rd : nat -> N) (threadCount adoptable : Z) (w : World) :
  (0 <= threadCount)%Z ->
  JobSystem_ctor cfg self tls hwThreads rd threadCount adoptable = Done tt w ->
  spawned w <= 32 /\
  (threadCount = 0%Z -> UTILS_HAS_THREADING cfg = true ->
   (0 <= adoptable)%Z -> (adoptable + 32 < 2 ^ 64)%Z ->
   ((if UTILS_HAS_HYPER_THREADING cfg then 2 else 1) <= hwThreads < 2 ^ 32)%Z ->
   Z.of_nat (spawned w) =
     Z.min 32 (if UTILS_HAS_HYPER_THREADING cfg then hwThreads / 2 - 1 else hwThreads - 1)).
Proof.
  intros Htc Hctor. unfold JobSystem_ctor in Hctor.
  pose proof (ctor_threadCount_range cfg hwThreads threadCount Htc) as Hr.
  destruct (_ <? _)%Z; [discriminate|]. injection Hctor as <-.
  unfold spawned; simpl.
  assert (Hu : to_uint16 (ctor_threadCount cfg hwThreads threadCount)
               = ctor_threadCount cfg hwThreads threadCount)
    by (unfold to_uint16, wrap_unsigned; apply Z.mod_small; lia).
  rewrite Hu, ctor_states_spawned by lia. split; [lia|].
  intros -> Hthr Had0 Had Hhw.
  assert (Hn : to_size_t (ctor_threadCount cfg hwThreads 0 + adoptable)
               = (ctor_threadCount cfg hwThreads 0 + adoptable)%Z)
    by (unfold to_size_t, wrap_unsigned; apply Z.mod_small; lia).
  rewrite Hn. unfold ctor_threadCount in *. rewrite Hthr in *. simpl in *.
  unfold to_size_t, wrap_unsigned in *.
  destruct (UTILS_HAS_HYPER_THREADING cfg).
  - assert (0 <= hwThreads / 2 - 1 < 2 ^ 32)%Z.
    { split; [|apply Z.lt_le_trans with (hwThreads / 2)%Z; [lia|]].
      - assert (1 <= hwThreads / 2)%Z by (apply Z.div_le_lower_bound; lia). lia.
      - apply Z.lt_le_incl, Z.div_lt_upper_bound; lia. }
    rewrite Z.mod_small in * by lia. lia.
  - rewrite Z.mod_small in * by lia. lia.
Qed.

(** An instance: 8 hardware threads with hyper-threading give 3 workers. *)
Lemma ctor_worker_threads_witness :
  exists w, JobSystem_ctor Sample.debug_build 7 ∅ 8 Sample.rd 0 1 = Done tt w /\
    spawned w <= 32 /\ Z.of_nat (spawned w) = 3%Z.
Proof.
  eexists. split; [reflexivity|].
  destruct (ctor_worker_threads Sample.debug_build 7 ∅ 8 Sample.rd 0 1 _ ltac:(lia) eq_refl)
    as [H1 H2].
  split; [exact H1|].
  apply (H2 eq_refl eq_refl); simpl; lia.
Defined.

(** C8, as stated, fails: with 64 hardware threads and no hyper-threading
    the constructor starts 32 threads, not 63. *)
Lemma ctor_starts_32_of_64 :
  ~ (forall w, JobSystem_ctor Sample.arm64_build 7 ∅ 64 Sample.rd 0 0 = Done tt w ->
       Z.of_nat (spawned w) = (64 - 1)%Z).
Proof.
  intros H. specialize (H _ eq_refl). vm_compute in H. discriminate H.
Qed.

(** ** adopt and emancipate *)

Lemma adopt_member tid w state :
  sThreadState w !! tid = Some state -> ref_js state = this w ->
  adopt tid w = Done tt w.
Proof.
  intros Hs Hjs. unfold adopt, ASSERT_PRECONDITION. rewrite Hs.
  rewrite bool_decide_true by done. reflexivity.
Qed.

Lemma adopt_foreign tid w state :
  sThreadState w !! tid = Some state -> ref_js state <> this w ->
  exists msg, adopt tid w = Panic msg w.
Proof.
  intros Hs Hjs. unfold adopt, ASSERT_PRECONDITION. rewrite Hs.
  rewrite bool_decide_false by done. eexists. reflexivity.
Qed.

Lemma adopt_slot tid w :
  sThreadState w !! tid = None ->
  (mThreadCount w + mAdoptedThreads w < Z.of_nat (length (mThreadStates w)))%Z ->
  adopt tid w =
    Done tt
      (set_sThreadState
         (<[tid := mkTSRef (this w) (Z.to_nat (mThreadCount w + mAdoptedThreads w))]>
            (sThreadState w))
         (log [EvSetThreadPriority DISPLAY]
            (log [EvFetchAdd A_mAdoptedThreads memory_order_relaxed]
               (set_mAdoptedThreads (to_uint16 (mAdoptedThreads w + 1)) w)))).
Proof.
  intros H Hidx. unfold adopt. rewrite H.
  unfold bind, mAdoptedThreads_fetch_add, ASSERT_POSTCONDITION, setThreadPriority,
    emit, mThreadStates_at, ret. cbn.
  destruct (Z.ltb_spec (mThreadCount w + mAdoptedThreads w)
              (Z.of_nat (length (mThreadStates w)))); [|lia].
  cbn. destruct (Z.leb_spec (Z.of_nat (length (mThreadStates w)))
                   (mThreadCount w + mAdoptedThreads w)); [lia|]. reflexivity.
Qed.

Lemma adopt_exhausted tid w :
  sThreadState w !! tid = None ->
  (Z.of_nat (length (mThreadStates w)) <= mThreadCount w + mAdoptedThreads w)%Z ->
  exists msg,
    adopt tid w =
      Panic msg (log [EvFetchAdd A_mAdoptedThreads memory_order_relaxed]
                   (set_mAdoptedThreads (to_uint16 (mAdoptedThreads w + 1)) w)).
Proof.
  intros H Hidx. unfold adopt. rewrite H.
  unfold bind, mAdoptedThreads_fetch_add, ASSERT_POSTCONDITION, panic. cbn.
  destruct (Z.ltb_spec (mThreadCount w + mAdoptedThreads w)
              (Z.of_nat (length (mThreadStates w)))); [lia|]. eexists. reflexivity.
Qed.



Lemma emancipate_spec (tid : nat) (w : World) :
  match sThreadState w !! tid with
  | Some r =>
      if bool_decide (ref_js r = this w)
      then emancipate tid w = Done tt (set_sThreadState (delete tid (sThreadState w)) w)
      else emancipate tid w = Panic "this thread is not adopted by us" w
  | None => emancipate tid w = Panic "this thread is not an adopted thread" w
  end.
Proof.
  unfold emancipate, bind, ASSERT_PRECONDITION.
  destruct (sThreadState w !! tid) as [r|] eqn:E.
  - rewrite (bool_decide_true (is_Some (Some r))) by eauto. cbn.
    destruct (bool_decide (ref_js r = this w)); reflexivity.
  - rewrite (bool_decide_false (is_Some None)) by (intros [? ?]; discriminate).
    reflexivity.
Qed.

(** C6 at a worker thread: thread 1 runs worker 0 of the scheduler (a
    thread the constructor started, not an adopted one); emancipate does
    not panic and clears its thread-local pointer. *)
Lemma emancipate_accepts_worker :
  sThreadState Sample.started !! 1 = Some (mkTSRef 7 0) /\
  (mThreadStates Sample.started !! 0 ≫= (fun s => Some (thread s))) = Some true /\
  exists w', emancipate 1 Sample.started = Done tt w' /\
    sThreadState w' !! 1 = None /\
    mAdoptedThreads w' = mAdoptedThreads Sample.started.
Proof.
  split; [reflexivity|]. split; [reflexivity|].
  eexists. split; [reflexivity|]. split; reflexivity.
Qed.

(** ** Reference counts *)

Ltac world_simpl :=
  unfold log, with_job, without_job, with_state;
  cbn [this mJobPool mThreadStates mThreadCount mAdoptedThreads mActiveJobs
       mExitRequested mMasterJob sThreadState trace
       set_this set_mJobPool set_mThreadStates set_mAdoptedThreads set_mActiveJobs
       set_mExitRequested set_sThreadState set_trace].

Ltac world_eq :=
  world_simpl; repeat (f_equal; []); rewrite <- ?app_assoc; try reflexivity.

Lemma incRef_eq cfg j jb w :
  mJobPool w !! j = Some jb ->
  incRef cfg (Some j) w =
    Done tt (with_job j (set_refCount (to_refCount cfg (refCount jb + 1)) jb)
               (log [EvFetchAdd (A_refCount j) memory_order_relaxed] w)).
Proof.
  intros H. unfold incRef, ptr, refCount_fetch_add, bind, ret, load_job. rewrite H.
  reflexivity.
Qed.

Lemma incRef_inv cfg job w w' :
  incRef cfg job w = Done tt w' -> exists j jb, job = Some j /\ mJobPool w !! j = Some jb.
Proof.
  unfold incRef, ptr, refCount_fetch_add, bind, ret, load_job, undefined.
  destruct job as [j|]; [|discriminate].
  destruct (mJobPool w !! j) as [jb|] eqn:E; [|discriminate]. eauto.
Qed.

Lemma decRef_eq cfg j jb w :
  mJobPool w !! j = Some jb ->
  decRef cfg (Some j) w =
    let w1 := with_job j (set_refCount (to_refCount cfg (refCount jb - 1)) jb)
                (log [EvFetchSub (A_refCount j) (release_order cfg)] w) in
    if NDEBUG cfg || (0 <? refCount jb)%Z then
      if (refCount jb =? 1)%Z
      then Done tt (without_job j (log (acquire_fence cfg ++ [EvDestroy j]) w1))
      else Done tt w1
    else Panic "assert" w1.
Proof.
  intros H.
  unfold decRef, ptr, refCount_fetch_sub, assert, when, destroy, emit, bind, ret,
    load_job, store_job, panic, release_order, acquire_fence.
  rewrite H. cbn.
  destruct (NDEBUG cfg || (0 <? refCount jb)%Z); [|reflexivity]. cbn.
  destruct (refCount jb =? 1)%Z; [|reflexivity].
  destruct (thread_sanitizer cfg); cbn; f_equal; world_eq.
Qed.

Lemma decRef_inv cfg job w w' :
  decRef cfg job w = Done tt w' ->
  exists j jb, job = Some j /\ mJobPool w !! j = Some jb /\
    trace w' = trace w ++ decRef_events cfg j (refCount jb) /\
    mJobPool w' =
      (if (refCount jb =? 1)%Z then delete j (mJobPool w)
       else <[j := set_refCount (to_refCount cfg (refCount jb - 1)) jb]> (mJobPool w)) /\
    this w' = this w /\ mThreadStates w' = mThreadStates w /\
    mThreadCount w' = mThreadCount w /\ mAdoptedThreads w' = mAdoptedThreads w /\
    mActiveJobs w' = mActiveJobs w /\ mExitRequested w' = mExitRequested w /\
    mMasterJob w' = mMasterJob w /\ sThreadState w' = sThreadState w.
Proof.
  destruct job as [j|]; [|discriminate].
  destruct (mJobPool w !! j) as [jb|] eqn:E;
    [|unfold decRef, ptr, refCount_fetch_sub, bind, ret, load_job; rewrite E; discriminate].
  rewrite (decRef_eq _ _ _ _ E). cbn zeta.
  destruct (NDEBUG cfg || _); [|discriminate].
  exists j, jb. split; [reflexivity|]. split; [exact E|].
  unfold decRef_events.
  destruct (refCount jb =? 1)%Z; injection H as <-.
  - split.
    + cbn. rewrite <- app_assoc. reflexivity.
    + cbn. rewrite delete_insert_eq. repeat split; reflexivity.
  - split; [reflexivity|]. repeat split; reflexivity.
Qed.

(** ** run and runAndRetain *)

Tactic Notation "bind_inv" hyp(H) "as" ident(a) ident(w1) ident(H1) :=
  apply bind_Done in H; destruct H as (a & w1 & H1 & H).

Lemma getState_inv cfg tid w r w' :
  getState cfg tid w = Done r w' -> w' = w /\ sThreadState w !! tid = Some r.
Proof.
  unfold getState, bind, assert, ret, undefined, panic.
  destruct (sThreadState w !! tid) as [r0|] eqn:E.
  - rewrite bool_decide_true by eauto. rewrite orb_true_r. intros [= <- <-]. done.
  - destruct (NDEBUG cfg || _); discriminate.
Qed.

Lemma getState_eq cfg tid w r :
  sThreadState w !! tid = Some r -> getState cfg tid w = Done r w.
Proof.
  intros E. unfold getState, bind, assert, ret. rewrite E.
  rewrite bool_decide_true by eauto. rewrite orb_true_r. reflexivity.
Qed.

Lemma load_state_inv r w s w' :
  load_state r w = Done s w' ->
  w' = w /\ ref_js r = this w /\ mThreadStates w !! ref_index r = Some s.
Proof.
  unfold load_state. case_bool_decide; [|discriminate].
  destruct (mThreadStates w !! ref_index r) eqn:E; [|discriminate].
  intros [= <- <-]. done.
Qed.

Lemma load_state_eq r w s :
  ref_js r = this w -> mThreadStates w !! ref_index r = Some s ->
  load_state r w = Done s w.
Proof.
  intros H1 H2. unfold load_state. rewrite bool_decide_true by done. rewrite H2.
  reflexivity.
Qed.

Lemma put_inv cfg r j w w' :
  put cfg r j w = Done tt w' ->
  exists s, ref_js r = this w /\ mThreadStates w !! ref_index r = Some s /\
    (Z.of_nat (length (workQueue s)) < MAX_JOB_COUNT cfg)%Z /\
    w' = with_state (ref_index r) (set_workQueue (workQueue s ++ [j]) s)
           (log [EvPut (ref_index r) j] w).
Proof.
  unfold put. intros H. bind_inv H as s w1 H0.
  apply load_state_inv in H0 as (-> & Hjs & Hs).
  destruct (Z.leb_spec (MAX_JOB_COUNT cfg) (Z.of_nat (length (workQueue s))));
    [discriminate|].
  exists s. repeat split; try assumption.
  cbv [bind emit store_state] in H. injection H as <-. reflexivity.
Qed.

Lemma wake_up_eq (b1 b2 : bool) w :
  when b1 (when b2 (emit EvLock ;;; emit EvUnlock ;;; emit EvNotifyOne)) w
  = Done tt (log (wake_up (b1 && b2)) w).
Proof.
  destruct w; destruct b1, b2; cbv -[app];
    rewrite ?app_nil_r, <- ?app_assoc; reflexivity.
Qed.

Lemma run_inv cfg tid job flags w h w' :
  run cfg tid job flags w = Done h w' ->
  exists j jb state s,
    h = None /\
    job = Some j /\ mJobPool w !! j = Some jb /\
    sThreadState w !! tid = Some state /\ ref_js state = this w /\
    mThreadStates w !! ref_index state = Some s /\
    let signal := (Z.land flags (DONT_SIGNAL cfg) =? 0)%Z && negb (mActiveJobs w =? 0)%Z in
    let c := to_refCount cfg (refCount jb + 1) in
    trace w' = trace w ++
      [EvFetchAdd (A_refCount j) memory_order_relaxed;
       EvFetchAdd A_mActiveJobs memory_order_relaxed;
       EvPut (ref_index state) j]
      ++ wake_up signal ++ decRef_events cfg j c /\
    mActiveJobs w' = to_uint32 (mActiveJobs w + 1) /\
    mThreadStates w' =
      <[ref_index state := set_workQueue (workQueue s ++ [j]) s]> (mThreadStates w) /\
    mJobPool w' =
      (if (c =? 1)%Z then delete j (mJobPool w)
       else <[j := set_refCount (to_refCount cfg (c - 1)) jb]> (mJobPool w)) /\
    this w' = this w /\ mThreadCount w' = mThreadCount w /\
    mAdoptedThreads w' = mAdoptedThreads w /\ mExitRequested w' = mExitRequested w /\
    mMasterJob w' = mMasterJob w /\ sThreadState w' = sThreadState w.
Proof.
  intros H. unfold run, Pin_enter, Pin_exit in H.
  bind_inv H as u1 w1 H1. destruct u1.
  destruct (incRef_inv _ _ _ _ H1) as (j & jb & -> & Hj).
  rewrite (incRef_eq _ _ _ _ Hj) in H1. injection H1 as <-.
  bind_inv H as state w2 H2. apply getState_inv in H2 as (-> & Hst). cbn in Hst.
  bind_inv H as active w3 H3. cbv [mActiveJobs_fetch_add] in H3. injection H3 as <- <-.
  bind_inv H as j' w4 H4. cbv [ptr ret] in H4. injection H4 as <- <-.
  bind_inv H as u5 w5 H5. destruct u5.
  apply put_inv in H5 as (s & Hjs & Hs & Hcap & ->).
  cbn in Hjs, Hs.
  bind_inv H as u6 w6 H6. rewrite wake_up_eq in H6. injection H6 as <- <-.
  cbn [mActiveJobs log] in H.
  bind_inv H as u7 w7 H7. destruct u7. injection H as <- <-.
  destruct (decRef_inv _ _ _ _ H7) as
    (j' & jb' & [= <-] & Hj' & Htr & Hpool & Hthis & Hts & Htc & Had & Hact & Hex & Hm & Htls).
  cbn in Hj'. rewrite lookup_insert_eq in Hj'. injection Hj' as <-.
  exists j, jb, state, s. repeat (split; [assumption || reflexivity|]).
  cbn zeta. split.
  { rewrite Htr. cbn. rewrite <- !app_assoc. reflexivity. }
  split; [rewrite Hact; reflexivity|].
  split; [rewrite Hts; reflexivity|].
  split.
  { rewrite Hpool. cbn. destruct (_ =? 1)%Z.
    - apply delete_insert_eq.
    - apply insert_insert_eq. }
  rewrite Hthis, Htc, Had, Hex, Hm, Htls. repeat split; reflexivity.
Qed.

(** C3: a call of run that returns has added 1 to active_jobs (relaxed)
    and after that pushed the job on the queue of the caller's thread
    state; then, exactly when DONT_SIGNAL is not among the flags and
    active_jobs was not zero before the increment, it has locked and
    unlocked the scheduler lock with nothing in between and notified one
    waiter of the condition variable. No other notification is issued and
    nothing is done under the lock. *)
Theorem run_spec (cfg : Config) (tid : nat) (job : option nat) (flags : Z)
    (w : World) (h : option nat) (w' : World) :
  run cfg tid job flags w = Done h w' ->
  exists j jb state s,
    job = Some j /\ mJobPool w !! j = Some jb /\
    sThreadState w !! tid = Some state /\ ref_js state = this w /\
    mThreadStates w !! ref_index state = Some s /\
    let signal := (Z.land flags (DONT_SIGNAL cfg) =? 0)%Z && negb (mActiveJobs w =? 0)%Z in
    events_since w w' =
      [EvFetchAdd (A_refCount j) memory_order_relaxed;
       EvFetchAdd A_mActiveJobs memory_order_relaxed;
       EvPut (ref_index state) j]
      ++ wake_up signal ++ decRef_events cfg j (to_refCount cfg (refCount jb + 1)) /\
    mActiveJobs w' = to_uint32 (mActiveJobs w + 1) /\
    mThreadStates w' =
      <[ref_index state := set_workQueue (workQueue s ++ [j]) s]> (mThreadStates w) /\
    List.filter is_notify (events_since w w') = (if signal then [EvNotifyOne] else []) /\
    under_lock false (events_since w w') = [].
Proof.
  intros H.
  destruct (run_inv _ _ _ _ _ _ _ H) as
    (j & jb & state & s & _ & Hj & Hjb & Hst & Hjs & Hs & Htr & Hact & Hts & _).
  exists j, jb, state, s. repeat (split; [assumption|]).
  cbn zeta in *. set (signal := (_ && _)) in *.
  apply events_since_app in Htr.
  split; [exact Htr|]. split; [exact Hact|]. split; [exact Hts|].
  rewrite Htr. unfold wake_up, decRef_events, acquire_fence.
  destruct signal, (_ =? 1)%Z, (thread_sanitizer cfg); split; reflexivity.
Qed.

Lemma bind_eq {A B} (m : M A) (k : A -> M B) w a w1 :
  m w = Done a w1 -> bind m k w = k a w1.
Proof. unfold bind. intros ->. reflexivity. Qed.

Lemma put_eq cfg r j w s :
  ref_js r = this w -> mThreadStates w !! ref_index r = Some s ->
  (Z.of_nat (length (workQueue s)) < MAX_JOB_COUNT cfg)%Z ->
  put cfg r j w =
    Done tt (with_state (ref_index r) (set_workQueue (workQueue s ++ [j]) s)
               (log [EvPut (ref_index r) j] w)).
Proof.
  intros H1 H2 H3. unfold put. rewrite (bind_eq _ _ _ _ _ (load_state_eq _ _ _ H1 H2)).
  destruct (Z.leb_spec (MAX_JOB_COUNT cfg) (Z.of_nat (length (workQueue s)))); [lia|].
  reflexivity.
Qed.

(** run returns when the job is live and its reference count is not
    about to wrap, the caller's thread-local pointer refers to a state of
    this scheduler and the queue of that state is not full. *)
Lemma run_returns cfg tid j jb state s flags w :
  mJobPool w !! j = Some jb ->
  (0 <= refCount jb < 2 ^ refCount_bits cfg - 1)%Z ->
  sThreadState w !! tid = Some state -> ref_js state = this w ->
  mThreadStates w !! ref_index state = Some s ->
  (Z.of_nat (length (workQueue s)) < MAX_JOB_COUNT cfg)%Z ->
  exists w', run cfg tid (Some j) flags w = Done None w'.
Proof.
  intros Hj Hrc Hst Hjs Hs Hcap. unfold run, Pin_enter, Pin_exit.
  rewrite (bind_eq _ _ _ _ _ (incRef_eq _ _ _ _ Hj)).
  erewrite bind_eq by (apply getState_eq; exact Hst).
  erewrite bind_eq by reflexivity.
  erewrite bind_eq by reflexivity.
  erewrite bind_eq by (apply put_eq; [exact Hjs|exact Hs|exact Hcap]).
  erewrite bind_eq by apply wake_up_eq.
  unfold bind at 1. erewrite decRef_eq by (cbn; apply lookup_insert_eq).
  cbn zeta. cbn [refCount set_refCount].
  assert (Hu : to_refCount cfg (refCount jb + 1) = (refCount jb + 1)%Z)
    by (apply to_refCount_small; lia).
  rewrite Hu. destruct (Z.ltb_spec 0 (refCount jb + 1)); [|lia]. rewrite orb_true_r.
  destruct (refCount jb + 1 =? 1)%Z; eexists; reflexivity.
Qed.

(** An instance: the adopted thread 100 runs job 1 while another job is
    queued, and one waiter is notified. *)
Lemma run_spec_witness :
  exists w', run Sample.debug_build 100 (Some 1) 0 Sample.busy = Done None w' /\
    List.filter is_notify (events_since Sample.busy w') = [EvNotifyOne] /\
    mActiveJobs w' = 2%Z.
Proof.
  eexists. split; [vm_compute; reflexivity|].
  match goal with
  | |- _ (events_since _ ?w') = _ /\ _ =>
      destruct (run_spec Sample.debug_build 100 (Some 1) 0 Sample.busy None w'
                  ltac:(vm_compute; reflexivity))
        as (j & jb & state & s & _ & _ & _ & _ & _ & _ & Hact & _ & Hn & _)
  end.
  split; [exact Hn|exact Hact].
Defined.

(** C10: a call of run that returns leaves the null pointer in the
    caller's job pointer, whatever the flags; a call of runAndRetain that
    returns gives back the pointer it was passed, which is not null, and
    has first added 1 to the reference count of that job and then run it.
    When the count is not about to wrap, the job is still live on return
    and its reference count is one more than before. *)
Theorem run_nulls_runAndRetain_keeps (cfg : Config) (tid : nat) (job : option nat)
    (flags : Z) (w : World) (h : option nat) (w' : World) :
  (run cfg tid job flags w = Done h w' -> h = None) /\
  (runAndRetain cfg tid job flags w = Done h w' ->
   h = job /\
   exists j jb w1,
     job = Some j /\ mJobPool w !! j = Some jb /\
     incRef cfg job w = Done tt w1 /\
     mJobPool w1 !! j = Some (set_refCount (to_refCount cfg (refCount jb + 1)) jb) /\
     events_since w w1 = [EvFetchAdd (A_refCount j) memory_order_relaxed] /\
     run cfg tid job flags w1 = Done None w' /\
     ((0 <= refCount jb < 2 ^ refCount_bits cfg - 2)%Z ->
      mJobPool w' !! j = Some (set_refCount (refCount jb + 1) jb))).
Proof.
  split.
  - intros H. destruct (run_inv _ _ _ _ _ _ _ H) as (? & ? & ? & ? & -> & _). reflexivity.
  - intros H. unfold runAndRetain in H.
    bind_inv H as u1 w1 H1. destruct u1.
    bind_inv H as h1 w2 H2. injection H as <- <-.
    split; [reflexivity|].
    destruct (incRef_inv _ _ _ _ H1) as (j & jb & -> & Hj).
    pose proof H1 as H1'. rewrite (incRef_eq _ _ _ _ Hj) in H1'. injection H1' as <-.
    destruct (run_inv _ _ _ _ _ _ _ H2) as
      (j' & jb' & ? & ? & -> & [= <-] & Hj' & _ & _ & _ & _ & _ & _ & Hpool & _).
    cbn in Hj'. rewrite lookup_insert_eq in Hj'. injection Hj' as <-.
    exists j, jb. eexists. repeat (split; [eassumption || reflexivity|]).
    split; [cbn; apply lookup_insert_eq|].
    split; [apply events_since_app; reflexivity|].
    split; [exact H2|].
    intros Hrc. rewrite Hpool. cbn.
    assert (Hu1 : to_refCount cfg (refCount jb + 1) = (refCount jb + 1)%Z)
      by (apply to_refCount_small; lia).
    rewrite Hu1.
    assert (Hu2 : to_refCount cfg (refCount jb + 1 + 1) = (refCount jb + 1 + 1)%Z)
      by (apply to_refCount_small; lia).
    rewrite Hu2. destruct (Z.eqb_spec (refCount jb + 1 + 1) 1); [lia|].
    rewrite lookup_insert_eq. f_equal. unfold set_refCount. cbn. f_equal.
    replace (refCount jb + 1 + 1 - 1)%Z with (refCount jb + 1)%Z by lia. exact Hu1.
Qed.

(** An instance: runAndRetain of job 1 by the adopted thread 100. *)
Lemma run_nulls_runAndRetain_keeps_witness :
  exists w', runAndRetain Sample.debug_build 100 (Some 1) 0 (Sample.family 2 1)
             = Done (Some 1) w' /\
    (exists w1, run Sample.debug_build 100 (Some 1) 0 w1 = Done None w') /\
    refCount <$> mJobPool w' !! 1 = Some 2%Z.
Proof.
  eexists. split; [vm_compute; reflexivity|].
  match goal with
  | |- (exists w1, _ = Done None ?w') /\ _ =>
      destruct (run_nulls_runAndRetain_keeps Sample.debug_build 100 (Some 1) 0
                  (Sample.family 2 1) (Some 1) w') as [_ H]
  end.
  destruct (H ltac:(vm_compute; reflexivity))
    as (_ & j & jb & w1 & Hj & Hjb & _ & _ & _ & Hrun & Hrc).
  split; [exists w1; exact Hrun|].
  vm_compute. reflexivity.
Defined.

(** ** create *)

Lemma free_slot_Some cfg pool j :
  free_slot cfg pool = Some j ->
  pool !! j = None /\ (Z.of_nat j < MAX_JOB_COUNT cfg)%Z.
Proof.
  unfold free_slot. intros H. apply fmap_Some in H as ([i x] & Hf & ->).
  apply list_find_Some in Hf as (Hl & Hp & _). cbn.
  apply lookup_seq in Hl as [-> Hlt]. split; [exact Hp|]. lia.
Qed.

Lemma free_slot_None cfg pool :
  free_slot cfg pool = None <-> exhausted cfg pool.
Proof.
  unfold free_slot, exhausted. rewrite fmap_None, list_find_None, Forall_forall.
  split.
  - intros H i Hi. destruct (pool !! i) eqn:E; [eauto|].
    exfalso. apply (H i); [|exact E]. apply elem_of_seq. lia.
  - intros H i Hi Hn. apply elem_of_seq in Hi.
    destruct (H i) as [x Hx]; [lia|]. congruence.
Qed.

Lemma allocateJob_eq cfg w :
  allocateJob cfg w =
    match free_slot cfg (mJobPool w) with
    | Some j => Done (Some j) (with_job j default_Job w)
    | None => Done None w
    end.
Proof. reflexivity. Qed.

Lemma create_exhausted cfg parent_ func w :
  free_slot cfg (mJobPool w) = None -> create cfg parent_ func w = Done None w.
Proof.
  intros H. unfold create, bind. rewrite allocateJob_eq, H. reflexivity.
Qed.

Lemma create_orphan cfg parent_ func w j :
  effective_parent parent_ w = None ->
  free_slot cfg (mJobPool w) = Some j ->
  create cfg parent_ func w = Done (Some j) (with_job j (mkJob func 0x7FFF 1 1) w).
Proof.
  intros He Hf. unfold create. fold (effective_parent parent_ w). rewrite He.
  unfold bind. rewrite allocateJob_eq, Hf.
  unfold ret, load_job, store_job, with_job. cbn. rewrite lookup_insert_eq. cbn.
  rewrite insert_insert_eq. reflexivity.
Qed.

Lemma create_child cfg parent_ func w j p pj :
  effective_parent parent_ w = Some p ->
  free_slot cfg (mJobPool w) = Some j ->
  mJobPool w !! p = Some pj ->
  let w1 := with_job p (set_runningJobCount (to_runningJobCount cfg (runningJobCount pj + 1)) pj)
              (log [EvFetchAdd (A_runningJobCount p) memory_order_relaxed]
                 (with_job j default_Job w)) in
  create cfg parent_ func w =
    if NDEBUG cfg || (0 <? runningJobCount pj)%Z then
      if NDEBUG cfg || (Z.of_nat p <? MAX_JOB_COUNT cfg)%Z
      then Done (Some j) (with_job j (mkJob func (to_uint16 (Z.of_nat p)) 1 1) w1)
      else Panic "assert" w1
    else Panic "assert" w1.
Proof.
  intros He Hf Hp w1. unfold create. fold (effective_parent parent_ w). rewrite He.
  destruct (free_slot_Some _ _ _ Hf) as [Hj _].
  assert (Hne : j <> p) by congruence.
  unfold bind at 1. rewrite allocateJob_eq, Hf.
  unfold runningJobCount_fetch_add, bind, load_job, emit, store_job, assert, ret, panic.
  cbn. rewrite lookup_insert_ne, Hp by exact Hne. cbn.
  destruct (NDEBUG cfg || (0 <? runningJobCount pj)%Z); [|reflexivity].
  destruct (NDEBUG cfg || (Z.of_nat p <? MAX_JOB_COUNT cfg)%Z); [|reflexivity].
  cbn [mJobPool set_mJobPool].
  rewrite lookup_insert_ne, lookup_insert_eq by congruence. reflexivity.
Qed.


Lemma create_child_inv cfg parent_ func w j w' p :
  create cfg parent_ func w = Done (Some j) w' ->
  effective_parent parent_ w = Some p ->
  free_slot cfg (mJobPool w) = Some j /\
  is_Some (<[j := default_Job]> (mJobPool w) !! p) /\
  exists jb, mJobPool w' !! j = Some jb /\ parent jb = to_uint16 (Z.of_nat p).
Proof.
  intros H He. unfold create in H. fold (effective_parent parent_ w) in H.
  rewrite He in H. bind_inv H as job w1 H1. rewrite allocateJob_eq in H1.
  destruct (free_slot cfg (mJobPool w)) as [j'|] eqn:Hf;
    injection H1 as <- <-; [|discriminate].
  bind_inv H as index w2 H2. bind_inv H as jb w3 H3.
  bind_inv H as u w4 H4. injection H as -> <-.
  bind_inv H2 as c w5 H5. bind_inv H2 as u6 w6 H6. bind_inv H2 as u7 w7 H7.
  injection H2 as <- <-.
  unfold runningJobCount_fetch_add in H5. bind_inv H5 as pj w8 H8.
  unfold load_job in H8. cbn in H8.
  destruct (<[j:=default_Job]> (mJobPool w) !! p) as [pj'|] eqn:Hp; [|discriminate].
  split; [reflexivity|]. split; [eauto|].
  cbv [store_job] in H4. injection H4 as <- <-. cbn [mJobPool set_mJobPool].
  rewrite lookup_insert_eq. eexists. split; reflexivity.
Qed.

(** C4, as amended: create takes the master job as parent when it is
    passed null. It yields null, and changes nothing, exactly when the
    arena has no free slot. With a free slot and an effective parent that
    is live, it adds 1 to the parent's runningJobCount with a relaxed
    fetch-add; when assertions are compiled in (NDEBUG not defined) and
    the count was not positive before, it panics; when the count was
    positive it returns the new job, which holds the parent's arena
    index. With no effective parent the new job holds 0x7FFF. When
    MAX_JOB_COUNT is at most 0x7FFF, a job comes out of create with parent
    0x7FFF only when it was passed null and no master job is set. *)
Theorem create_spec (cfg : Config) (parent_ : option nat) (func : option JobFunc)
    (w : World) :
  (effective_parent None w = mMasterJob w /\
   forall p, effective_parent (Some p) w = Some p) /\
  (exhausted cfg (mJobPool w) -> create cfg parent_ func w = Done None w) /\
  (forall w', create cfg parent_ func w = Done None w' -> exhausted cfg (mJobPool w)) /\
  (forall j, free_slot cfg (mJobPool w) = Some j ->
     effective_parent parent_ w = None ->
     create cfg parent_ func w = Done (Some j) (with_job j (mkJob func 0x7FFF 1 1) w)) /\
  (forall j p pj,
     free_slot cfg (mJobPool w) = Some j ->
     effective_parent parent_ w = Some p ->
     mJobPool w !! p = Some pj ->
     let w1 := with_job p (set_runningJobCount (to_runningJobCount cfg (runningJobCount pj + 1)) pj)
                 (log [EvFetchAdd (A_runningJobCount p) memory_order_relaxed]
                    (with_job j default_Job w)) in
     (NDEBUG cfg = false -> (runningJobCount pj <= 0)%Z ->
      create cfg parent_ func w = Panic "assert" w1) /\
     ((0 < runningJobCount pj)%Z -> (Z.of_nat p < MAX_JOB_COUNT cfg)%Z ->
      create cfg parent_ func w =
        Done (Some j) (with_job j (mkJob func (to_uint16 (Z.of_nat p)) 1 1) w1)) /\
     ((Z.of_nat p < 2 ^ 16)%Z -> to_uint16 (Z.of_nat p) = Z.of_nat p)) /\
  (forall j w' jb,
     (MAX_JOB_COUNT cfg <= 0x7FFF)%Z -> arena_ok cfg w ->
     create cfg parent_ func w = Done (Some j) w' ->
     mJobPool w' !! j = Some jb -> parent jb = 0x7FFF%Z ->
     parent_ = None /\ mMasterJob w = None).
Proof.
  split; [split; reflexivity|].
  split; [intros H; apply create_exhausted, free_slot_None, H|].
  split.
  { intros w' H. apply free_slot_None.
    destruct (free_slot cfg (mJobPool w)) as [j|] eqn:Hf; [exfalso|reflexivity].
    unfold create in H. bind_inv H as job w1 H1. rewrite allocateJob_eq, Hf in H1.
    injection H1 as <- <-.
    bind_inv H as i w2 H2. bind_inv H as jb w3 H3. bind_inv H as u w4 H4.
    discriminate H. }
  split; [intros j Hf He; apply create_orphan; assumption|].
  split.
  { intros j p pj Hf He Hp w1. pose proof (create_child cfg _ func _ _ _ _ He Hf Hp) as E.
    cbn zeta in E. fold w1 in E. repeat split.
    - intros Hn Hc. rewrite E, Hn. cbn.
      destruct (Z.ltb_spec 0 (runningJobCount pj)); [lia|reflexivity].
    - intros Hc Hm. rewrite E.
      destruct (Z.ltb_spec 0 (runningJobCount pj)); [|lia].
      destruct (Z.ltb_spec (Z.of_nat p) (MAX_JOB_COUNT cfg)); [|lia].
      rewrite !orb_true_r. reflexivity.
    - intros Hp16. unfold to_uint16, wrap_unsigned. apply Z.mod_small. lia. }
  intros j w' jb Hmax Harena H Hjb Hparent.
  destruct (effective_parent parent_ w) as [p|] eqn:He.
  - exfalso. destruct (create_child_inv _ _ _ _ _ _ _ H He) as (Hf & Hlive & jb' & Hjb' & Hpar).
    rewrite Hjb in Hjb'. injection Hjb' as <-.
    assert (Z.of_nat p < MAX_JOB_COUNT cfg)%Z as Hlt.
    { destruct (decide (j = p)) as [->|Hne].
      - apply (free_slot_Some _ _ _ Hf).
      - rewrite lookup_insert_ne in Hlive by exact Hne. apply Harena, Hlive. }
    rewrite Hpar in Hparent. unfold to_uint16, wrap_unsigned in Hparent.
    rewrite Z.mod_small in Hparent by lia. lia.
  - unfold effective_parent in He. destruct parent_; [discriminate|]. done.
Qed.

(** Instances: a child of a running root, and of a terminated one in a
    debug build. *)
Lemma create_spec_witness :
  (exists w', create Sample.debug_build (Some 0) None (Sample.family 2 1) = Done (Some 2) w' /\
     parent <$> mJobPool w' !! 2 = Some 0%Z /\
     runningJobCount <$> mJobPool w' !! 0 = Some 3%Z) /\
  (exists w', create Sample.debug_build (Some 0) None (Sample.family 0 1) = Panic "assert" w').
Proof.
  split.
  - destruct (create_spec Sample.debug_build (Some 0) None (Sample.family 2 1))
      as (_ & _ & _ & _ & Hchild & _).
    destruct (Hchild 2 0 (mkJob None 0x7FFF 2 1)
                ltac:(vm_compute; reflexivity) eq_refl eq_refl) as (_ & Hok & _).
    eexists. split; [apply Hok; [reflexivity|reflexivity]|].
    split; vm_compute; reflexivity.
  - destruct (create_spec Sample.debug_build (Some 0) None (Sample.family 0 1))
      as (_ & _ & _ & _ & Hchild & _).
    destruct (Hchild 2 0 (mkJob None 0x7FFF 0 1)
                ltac:(vm_compute; reflexivity) eq_refl eq_refl) as (Hpanic & _).
    eexists. apply Hpanic; [reflexivity|discriminate].
Defined.

(** C4, as stated, fails: in a release build (NDEBUG) create on a parent
    whose runningJobCount is 0 does not panic; it makes the count 1 and
    returns the child. *)
Lemma create_release_build_no_panic :
  ~ (forall pj, mJobPool (Sample.family 0 1) !! 0 = Some pj ->
       (runningJobCount pj <= 0)%Z ->
       exists msg w',
         create Sample.release_build (Some 0) None (Sample.family 0 1) = Panic msg w').
Proof.
  intros H. destruct (H _ eq_refl) as (msg & w' & E); [discriminate|].
  vm_compute in E. discriminate E.
Qed.

(** ** finish *)

Lemma finish_loop_step cfg fuel j jb w :
  mJobPool w !! j = Some jb ->
  let c := runningJobCount jb in
  let w1 := with_job j (set_runningJobCount (to_runningJobCount cfg (c - 1)) jb)
              (log [EvFetchSub (A_runningJobCount j) (release_order cfg)] w) in
  finish_loop cfg (S fuel) j w =
    if NDEBUG cfg || (0 <? c)%Z then
      if (c =? 1)%Z then
        (decRef cfg (Some j) ;;;
         match parent_of jb with
         | Some p => finish_loop cfg fuel p
         | None => ret tt
         end) (log (acquire_fence cfg) w1)
      else Done tt w1
    else Panic "assert" w1.
Proof.
  intros Hj c w1. cbn [finish_loop].
  unfold runningJobCount_fetch_sub, load_job, emit, store_job, assert, panic, ret.
  unfold bind at 1 2 3 4 5. rewrite Hj. cbn [runningJobCount].
  fold c. fold (release_order cfg).
  destruct (NDEBUG cfg || (0 <? c)%Z); [|reflexivity].
  destruct (c =? 1)%Z; [|reflexivity].
  unfold when, acquire_fence, emit, bind at 1.
  destruct (thread_sanitizer cfg); cbn [negb].
  - unfold bind at 1, ret. cbn [mJobPool set_mJobPool set_trace].
    rewrite lookup_insert_eq. unfold parent_of. cbn [parent set_runningJobCount].
    replace (log [] w1) with
      (set_mJobPool (<[j:=set_runningJobCount (to_runningJobCount cfg (c - 1)) jb]> (mJobPool w))
         (set_trace (trace w ++ [EvFetchSub (A_runningJobCount j) (release_order cfg)]) w)).
    + reflexivity.
    + unfold w1, log, with_job, set_trace, set_mJobPool. cbn. rewrite app_nil_r.
      reflexivity.
  - unfold bind at 1. cbn [mJobPool set_mJobPool set_trace].
    rewrite lookup_insert_eq. unfold parent_of. cbn [parent set_runningJobCount].
    reflexivity.
Qed.

Lemma when_ARM_eq cfg w :
  when (ARM_ARCH_7A cfg) (emit (EvDsb 0xA) ;;; UTILS_SIGNAL_EVENT) w
  = Done tt (log (if ARM_ARCH_7A cfg then [EvDsb 0xA; EvSignalEvent] else []) w).
Proof.
  destruct w, (ARM_ARCH_7A cfg); cbv -[app]; rewrite ?app_nil_r, <- ?app_assoc;
    reflexivity.
Qed.

(** finish on a job that keeps a positive count: the count goes down by
    one, the pin takes and gives back one reference, nothing else
    changes. *)
Lemma finish_stops cfg j jb w :
  mJobPool w !! j = Some jb ->
  (1 < runningJobCount jb)%Z ->
  (1 <= refCount jb < 2 ^ refCount_bits cfg - 1)%Z ->
  finish cfg (Some j) w =
    Done tt
      (with_job j (set_runningJobCount (to_runningJobCount cfg (runningJobCount jb - 1)) jb)
         (log ([EvFetchAdd (A_refCount j) memory_order_relaxed;
                EvFetchSub (A_runningJobCount j) (release_order cfg)]
               ++ (if ARM_ARCH_7A cfg then [EvDsb 0xA; EvSignalEvent] else [])
               ++ [EvFetchSub (A_refCount j) (release_order cfg)]) w)).
Proof.
  intros Hj Hc Hr. unfold finish, Pin_enter, Pin_exit.
  rewrite (bind_eq _ _ _ _ _ (incRef_eq _ _ _ _ Hj)).
  erewrite bind_eq by reflexivity.
  erewrite bind_eq.
  2:{ erewrite finish_loop_step by (cbn; apply lookup_insert_eq).
      cbn [runningJobCount set_refCount].
      destruct (Z.ltb_spec 0 (runningJobCount jb)); [|lia]. rewrite orb_true_r.
      destruct (Z.eqb_spec (runningJobCount jb) 1); [lia|]. reflexivity. }
  erewrite bind_eq by apply when_ARM_eq.
  erewrite decRef_eq by (cbn; apply lookup_insert_eq). cbn zeta.
  cbn [refCount set_refCount set_runningJobCount].
  rewrite (to_refCount_small cfg (refCount jb + 1)) by lia.
  destruct (Z.ltb_spec 0 (refCount jb + 1)); [|lia]. rewrite orb_true_r.
  destruct (Z.eqb_spec (refCount jb + 1) 1); [lia|].
  f_equal. destruct jb as [f p c r]. cbn in *.
  replace (r + 1 - 1)%Z with r by lia. rewrite (to_refCount_small cfg r) by lia.
  destruct (ARM_ARCH_7A cfg); world_simpl;
    rewrite !insert_insert_eq, ?app_nil_r, <- ?app_assoc; reflexivity.
Qed.

(** C1, as amended: each pass of the loop of finish on a live job j
    subtracts 1 from j's runningJobCount with an atomic fetch-sub whose
    order is release (acq_rel in a ThreadSanitizer build). When assertions
    are compiled in and the count was not positive before, it panics. When
    the decrement brought the count to zero it issues an acquire fence
    (none in a ThreadSanitizer build), reads j's parent (0x7FFF: none),
    releases one reference to j with decRef, which destroys j when that
    was the last reference, and makes the same pass on the parent, or
    ends when there is none. When the count stays positive the loop ends
    there and no other job is touched; finish as a whole then leaves j
    with one count less and its reference count as it was. *)
Theorem finish_spec (cfg : Config) (fuel : nat) (j : nat) (jb : Job) (w : World) :
  mJobPool w !! j = Some jb ->
  let c := runningJobCount jb in
  let w1 := with_job j (set_runningJobCount (to_runningJobCount cfg (c - 1)) jb)
              (log [EvFetchSub (A_runningJobCount j) (release_order cfg)] w) in
  let w2 := log (acquire_fence cfg) w1 in
  (release_order cfg =
     (if thread_sanitizer cfg then memory_order_acq_rel else memory_order_release) /\
   acquire_fence cfg =
     (if thread_sanitizer cfg then [] else [EvFence memory_order_acquire])) /\
  (NDEBUG cfg = false -> (c <= 0)%Z ->
   finish_loop cfg (S fuel) j w = Panic "assert" w1) /\
  (c = 1%Z ->
   mJobPool w2 !! j = Some (set_runningJobCount 0 jb) /\
   (forall w3, decRef cfg (Some j) w2 = Done tt w3 ->
      finish_loop cfg (S fuel) j w =
        match parent_of jb with
        | Some p => finish_loop cfg fuel p w3
        | None => Done tt w3
        end) /\
   (refCount jb = 1%Z ->
    exists w3, decRef cfg (Some j) w2 = Done tt w3 /\ mJobPool w3 !! j = None) /\
   ((1 < refCount jb)%Z ->
    exists w3, decRef cfg (Some j) w2 = Done tt w3 /\
      mJobPool w3 !! j =
        Some (set_refCount (to_refCount cfg (refCount jb - 1)) (set_runningJobCount 0 jb)))) /\
  ((1 < c)%Z ->
   finish_loop cfg (S fuel) j w = Done tt w1 /\
   (forall k, k <> j -> mJobPool w1 !! k = mJobPool w !! k) /\
   ((1 <= refCount jb < 2 ^ refCount_bits cfg - 1)%Z ->
    exists w', finish cfg (Some j) w = Done tt w' /\
      mJobPool w' = <[j := set_runningJobCount (to_runningJobCount cfg (c - 1)) jb]> (mJobPool w))).
Proof.
  intros Hj c w1 w2. pose proof (finish_loop_step cfg fuel j jb w Hj) as E.
  cbn zeta in E. fold c in E. fold w1 in E. fold w2 in E.
  split; [split; reflexivity|]. split; [|split].
  - intros Hn Hc. rewrite E, Hn.
    destruct (Z.ltb_spec 0 c); [lia|reflexivity].
  - intros Hc.
    assert (Hj2 : mJobPool w2 !! j = Some (set_runningJobCount 0 jb)).
    { unfold w2, w1. world_simpl. rewrite lookup_insert_eq, Hc.
      change (1 - 1)%Z with 0%Z. rewrite to_runningJobCount_0. reflexivity. }
    split; [exact Hj2|]. split; [|split].
    + intros w3 Hd. rewrite E, Hc. cbn [Z.ltb Z.compare Z.eqb Pos.eqb].
      rewrite orb_true_r. unfold bind at 1. rewrite Hd.
      destruct (parent_of jb); reflexivity.
    + intros Hr. rewrite (decRef_eq _ _ _ _ Hj2). cbn zeta.
      cbn [refCount set_runningJobCount]. rewrite Hr. cbn [Z.ltb Z.compare Z.eqb Pos.eqb].
      rewrite orb_true_r. eexists. split; [reflexivity|].
      world_simpl. apply lookup_delete_eq.
    + intros Hr. rewrite (decRef_eq _ _ _ _ Hj2). cbn zeta.
      cbn [refCount set_runningJobCount].
      destruct (Z.ltb_spec 0 (refCount jb)); [|lia]. rewrite orb_true_r.
      destruct (Z.eqb_spec (refCount jb) 1); [lia|].
      eexists. split; [reflexivity|]. world_simpl. apply lookup_insert_eq.
  - intros Hc. split; [|split].
    + rewrite E. destruct (Z.ltb_spec 0 c); [|lia]. rewrite orb_true_r.
      destruct (Z.eqb_spec c 1); [lia|]. reflexivity.
    + intros k Hk. unfold w1. world_simpl. apply lookup_insert_ne. congruence.
    + intros Hr. eexists. split; [apply (finish_stops _ _ _ _ Hj Hc Hr)|]. reflexivity.
Qed.

(** Instances: a root whose count is already 0, and a root that still has
    a child. *)
Lemma finish_spec_witness :
  (exists w', finish_loop Sample.debug_build 1 0 (Sample.family 0 1) = Panic "assert" w') /\
  (exists w', finish Sample.debug_build (Some 0) (Sample.family 2 1) = Done tt w' /\
     runningJobCount <$> mJobPool w' !! 0 = Some 1%Z).
Proof.
  split.
  - destruct (finish_spec Sample.debug_build 0 0 (mkJob None 0x7FFF 0 1)
                (Sample.family 0 1) ltac:(vm_compute; reflexivity)) as (_ & H & _).
    eexists. apply H; [reflexivity|discriminate].
  - destruct (finish_spec Sample.debug_build 0 0 (mkJob None 0x7FFF 2 1)
                (Sample.family 2 1) ltac:(vm_compute; reflexivity)) as (_ & _ & _ & H).
    destruct (H eq_refl) as (_ & _ & H').
    destruct H' as (w' & Hf & Hp); [split; [discriminate|reflexivity]|].
    exists w'. split; [exact Hf|]. rewrite Hp. vm_compute. reflexivity.
Defined.

(** The whole cascade: when the child is the last work of the root,
    finish on the child completes and destroys both. *)
Example finish_cascade :
  exists w', finish Sample.debug_build (Some 1) (Sample.family 1 1) = Done tt w' /\
    mJobPool w' = ∅ /\
    events_since (Sample.family 1 1) w' =
      [EvFetchAdd (A_refCount 1) memory_order_relaxed;
       EvFetchSub (A_runningJobCount 1) memory_order_release;
       EvFence memory_order_acquire;
       EvFetchSub (A_refCount 1) memory_order_release;
       EvFetchSub (A_runningJobCount 0) memory_order_release;
       EvFence memory_order_acquire;
       EvFetchSub (A_refCount 0) memory_order_release;
       EvFence memory_order_acquire;
       EvDestroy 0;
       EvFetchSub (A_refCount 1) memory_order_release;
       EvFence memory_order_acquire;
       EvDestroy 1].
Proof.
  eexists. split; [vm_compute; reflexivity|]. split; vm_compute; reflexivity.
Qed.

(** C1, as stated, fails: in a ThreadSanitizer build finish takes the
    count of job 1 to zero, goes on to its parent, and issues no acquire
    fence. *)
Lemma finish_tsan_build_no_fence :
  ~ (forall w', finish Sample.tsan_build (Some 1) (Sample.family 2 1) = Done tt w' ->
       EvFence memory_order_acquire ∈ events_since (Sample.family 2 1) w').
Proof.
  intros H.
  destruct (finish Sample.tsan_build (Some 1) (Sample.family 2 1)) as [[] w'| | | |] eqn:E;
    try (vm_compute in E; discriminate E).
  specialize (H w' eq_refl). vm_compute in E. injection E as <-. vm_compute in H.
  repeat (apply elem_of_cons in H as [H|H]; [discriminate H|]).
  apply elem_of_nil in H. exact H.
Qed.

(** ** wait *)

Lemma do_while_inv fuel body cond w w' :
  do_while fuel body cond w = Done tt w' -> do_while_run body cond w w'.
Proof.
  revert w. induction fuel as [|fuel IH]; intros w H; [discriminate|].
  cbn [do_while] in H. bind_inv H as u w1 H1. destruct u.
  bind_inv H as again w2 H2. destruct again.
  - eapply dw_again; eauto.
  - injection H as <-. eapply dw_last; eauto.
Qed.

Lemma do_while_run_last body cond w w' :
  do_while_run body cond w w' ->
  exists w0 w1, body w0 = Done tt w1 /\ cond w1 = Done false w'.
Proof. induction 1; eauto. Qed.

Lemma hasJobCompleted_inv job w b w' :
  hasJobCompleted job w = Done b w' ->
  exists j jb, job = Some j /\ mJobPool w !! j = Some jb /\
    b = (runningJobCount jb <=? 0)%Z /\
    w' = log [EvLoad (A_runningJobCount j) memory_order_relaxed] w.
Proof.
  unfold hasJobCompleted, ptr, runningJobCount_load, load_job, bind, emit, ret, undefined.
  destruct job as [j|]; [|discriminate].
  destruct (mJobPool w !! j) as [jb|] eqn:E; [|discriminate].
  intros [= <- <-]. eauto 10.
Qed.

Lemma wait_condition_inv job w b w' :
  wait_condition job w = Done b w' ->
  exists j jb, job = Some j /\ mJobPool w !! j = Some jb /\
    b = negb (runningJobCount jb <=? 0)%Z && negb (mExitRequested w) /\
    mJobPool w' = mJobPool w /\ mExitRequested w' = mExitRequested w /\
    this w' = this w /\ mThreadStates w' = mThreadStates w /\
    mThreadCount w' = mThreadCount w /\ mAdoptedThreads w' = mAdoptedThreads w /\
    sThreadState w' = sThreadState w.
Proof.
  unfold wait_condition. intros H. bind_inv H as c w1 H1.
  apply hasJobCompleted_inv in H1 as (j & jb & -> & Hj & -> & ->).
  exists j, jb. split; [reflexivity|]. split; [exact Hj|].
  destruct (runningJobCount jb <=? 0)%Z; cbn [negb andb] in *.
  - injection H as <- <-. repeat split; reflexivity.
  - cbv [exitRequested mExitRequested_load bind ret] in H. injection H as <- <-.
    repeat split; reflexivity.
Qed.

Lemma wait_condition_exit j jb w :
  mJobPool w !! j = Some jb -> mExitRequested w = true ->
  exists w', wait_condition (Some j) w = Done false w' /\
    mJobPool w' = mJobPool w.
Proof.
  intros Hj He.
  unfold wait_condition, hasJobCompleted, ptr, runningJobCount_load, load_job,
    exitRequested, mExitRequested_load, emit, bind, ret.
  rewrite Hj. destruct (runningJobCount jb <=? 0)%Z; cbn.
  - eexists. split; reflexivity.
  - rewrite He. eexists. split; reflexivity.
Qed.



(** ** What the member functions leave alone *)

Lemma same_threads_refl w : same_threads w w.
Proof. repeat split. Qed.

Lemma same_threads_trans w1 w2 w3 :
  same_threads w1 w2 -> same_threads w2 w3 -> same_threads w1 w3.
Proof.
  intros (A1 & A2 & A3 & A4 & A5) (B1 & B2 & B3 & B4 & B5).
  repeat split; congruence.
Qed.

Lemma frames_ret {A} (a : A) : frames (ret a).
Proof. intros w a' w' [= <- <-]. apply same_threads_refl. Qed.

Lemma frames_bind {A B} (m : M A) (k : A -> M B) :
  frames m -> (forall a, frames (k a)) -> frames (bind m k).
Proof.
  intros Hm Hk w b w' H. bind_inv H as a w1 H1.
  eapply same_threads_trans; [eapply Hm|eapply Hk]; eassumption.
Qed.

Lemma frames_apply {A} (m : M A) w a w' :
  frames m -> m w = Done a w' -> same_threads w w'.
Proof. intros H E. exact (H w a w' E). Qed.

Lemma frames_undefined {A} : frames (@undefined A).
Proof. intros w a w' H. discriminate H. Qed.

Lemma frames_panic {A} msg : frames (@panic A msg).
Proof. intros w a w' H. discriminate H. Qed.

Lemma frames_OutOfFuel {A} : frames (fun _ : World => @OutOfFuel A).
Proof. intros w a w' H. discriminate H. Qed.

Lemma frames_emit e : frames (emit e).
Proof. intros w a w' [= <- <-]. repeat split. Qed.

Lemma frames_load_job j : frames (load_job j).
Proof.
  intros w a w'. unfold load_job. destruct (mJobPool w !! j); [|discriminate].
  intros [= <- <-]. apply same_threads_refl.
Qed.

Lemma frames_store_job j jb : frames (store_job j jb).
Proof. intros w a w' [= <- <-]. repeat split. Qed.

Lemma frames_load_state r : frames (load_state r).
Proof.
  intros w a w' H. apply load_state_inv in H as (-> & _). apply same_threads_refl.
Qed.

Lemma frames_store_state r s : frames (store_state r s).
Proof.
  intros w a w' [= <- <-]. repeat split. cbn. apply length_insert.
Qed.

Lemma frames_mThreadStates_at i : frames (mThreadStates_at i).
Proof.
  intros w a w'. unfold mThreadStates_at. destruct (_ <=? _)%Z; [discriminate|].
  intros [= <- <-]. apply same_threads_refl.
Qed.

Lemma frames_mActiveJobs_fetch_add mo : frames (mActiveJobs_fetch_add mo).
Proof. intros w a w' [= <- <-]. repeat split. Qed.

Lemma frames_mActiveJobs_fetch_sub mo : frames (mActiveJobs_fetch_sub mo).
Proof. intros w a w' [= <- <-]. repeat split. Qed.

Lemma frames_mAdoptedThreads_load mo : frames (mAdoptedThreads_load mo).
Proof. intros w a w' [= <- <-]. repeat split. Qed.

Lemma frames_mExitRequested_store b mo : frames (mExitRequested_store b mo).
Proof. intros w a w' [= <- <-]. repeat split. Qed.

Lemma frames_mExitRequested_load mo : frames (mExitRequested_load mo).
Proof. intros w a w' [= <- <-]. repeat split. Qed.

Lemma frames_allocateJob cfg : frames (allocateJob cfg).
Proof.
  intros w a w'. rewrite allocateJob_eq. destruct (free_slot cfg (mJobPool w));
    intros [= <- <-]; repeat split.
Qed.

Lemma frames_destroy j : frames (destroy j).
Proof. intros w a w' [= <- <-]. repeat split. Qed.

Lemma frames_assert cfg c : frames (assert cfg c).
Proof.
  unfold assert. destruct (NDEBUG cfg || c); [apply frames_ret|apply frames_panic].
Qed.

Lemma frames_ptr p : frames (ptr p).
Proof. destruct p; [apply frames_ret|apply frames_undefined]. Qed.

Create HintDb frames.

#[local] Hint Resolve frames_ret frames_undefined frames_panic frames_OutOfFuel
  frames_emit frames_load_job frames_store_job frames_load_state frames_store_state
  frames_mThreadStates_at frames_mActiveJobs_fetch_add frames_mActiveJobs_fetch_sub
  frames_mAdoptedThreads_load frames_mExitRequested_store frames_mExitRequested_load
  frames_allocateJob frames_destroy frames_assert frames_ptr : frames.

(** Splits a computation into its steps and closes those the hint
    database knows. *)
Ltac frames_tac :=
  repeat first
    [ solve [auto with frames]
    | match goal with
      | |- frames (bind _ _) => apply frames_bind; [|intros ?]
      | |- frames (match ?x with _ => _ end) => destruct x
      | |- frames (when ?b _) => destruct b; cbn [when]
      | |- frames (let _ := _ in _) => cbv zeta
      end ].

(** For a function that first reads members of the world it runs in. *)
Ltac frames_in_world :=
  let w := fresh "w" in
  let H := fresh "H" in
  intros w ? ? H; cbv beta in H; eapply frames_apply; [|exact H]; frames_tac.

Lemma frames_incRef cfg job : frames (incRef cfg job).
Proof. unfold incRef, refCount_fetch_add. frames_tac. Qed.

Lemma frames_decRef cfg job : frames (decRef cfg job).
Proof. unfold decRef, refCount_fetch_sub. frames_tac. Qed.

#[local] Hint Resolve frames_incRef frames_decRef : frames.

Lemma frames_requestExit cfg : frames (requestExit cfg).
Proof. unfold requestExit, UTILS_SIGNAL_EVENT. frames_tac. Qed.

Lemma frames_exitRequested : frames exitRequested.
Proof. unfold exitRequested. frames_tac. Qed.

Lemma frames_hasJobCompleted job : frames (hasJobCompleted job).
Proof. unfold hasJobCompleted, runningJobCount_load. frames_tac. Qed.

Lemma frames_getState cfg tid : frames (getState cfg tid).
Proof. unfold getState. frames_in_world. Qed.

Lemma frames_getStateToStealFrom cfg rng state :
  frames (getStateToStealFrom cfg rng state).
Proof. unfold getStateToStealFrom. frames_in_world. Qed.

Lemma frames_put cfg r j : frames (put cfg r j).
Proof. unfold put. frames_tac. Qed.

Lemma frames_pop r : frames (pop r).
Proof. unfold pop. frames_tac. Qed.

Lemma frames_steal r : frames (steal r).
Proof. unfold steal. frames_tac. Qed.

Lemma frames_finish_loop cfg fuel j : frames (finish_loop cfg fuel j).
Proof.
  revert j. induction fuel as [|fuel IH]; intros j; cbn [finish_loop];
    [auto with frames|].
  unfold runningJobCount_fetch_sub. frames_tac.
Qed.

#[local] Hint Resolve frames_requestExit frames_exitRequested frames_hasJobCompleted
  frames_getState frames_getStateToStealFrom frames_put frames_pop frames_steal
  frames_finish_loop : frames.

Lemma frames_finish cfg job : frames (finish cfg job).
Proof. unfold finish, Pin_enter, Pin_exit, UTILS_SIGNAL_EVENT. frames_in_world. Qed.

Lemma frames_create cfg parent_ func : frames (create cfg parent_ func).
Proof. unfold create, runningJobCount_fetch_add. frames_in_world. Qed.

Lemma frames_run cfg tid job flags : frames (run cfg tid job flags).
Proof. unfold run, Pin_enter, Pin_exit. frames_tac. Qed.

#[local] Hint Resolve frames_finish frames_create frames_run : frames.

Lemma frames_runAndRetain cfg tid job flags : frames (runAndRetain cfg tid job flags).
Proof. unfold runAndRetain. frames_tac. Qed.

(** ** The invariant of the thread bookkeeping *)

Lemma same_threads_Inv w w' : same_threads w w' -> Inv w -> Inv w'.
Proof.
  intros (E1 & E2 & E3 & E4 & E5) (I1 & I2 & I3 & I4 & I5).
  unfold Inv. rewrite E1, E2, E3, E4, E5. repeat split; assumption.
Qed.

Lemma frames_preserves_Inv {A} (m : M A) : frames m -> preserves Inv m.
Proof. intros H w a w' HI E. eapply same_threads_Inv; [eapply H, E|exact HI]. Qed.

Lemma preserves_bind {A B} P (m : M A) (k : A -> M B) :
  preserves P m -> (forall a, preserves P (k a)) -> preserves P (bind m k).
Proof.
  intros Hm Hk w b w' HP H. bind_inv H as a w1 H1.
  eapply Hk; [eapply Hm; eassumption|eassumption].
Qed.

Lemma emancipate_panics_inv tid w msg w' :
  emancipate tid w = Panic msg w' -> w' = w.
Proof.
  intros H. pose proof (emancipate_spec tid w) as E.
  destruct (sThreadState w !! tid) as [r|].
  - destruct (bool_decide (ref_js r = this w)); rewrite E in H; [discriminate H|].
    injection H as _ <-. reflexivity.
  - rewrite E in H. injection H as _ <-. reflexivity.
Qed.

(** A call of adopt that panics has changed nothing (the thread belongs
    to another scheduler), or it found no slot and has added 1 to the
    count of adopted threads. *)
Lemma adopt_panics_inv tid w msg w' :
  adopt tid w = Panic msg w' ->
  w' = w \/
  (sThreadState w !! tid = None /\
   (Z.of_nat (length (mThreadStates w)) <= mThreadCount w + mAdoptedThreads w)%Z /\
   w' = log [EvFetchAdd A_mAdoptedThreads memory_order_relaxed]
          (set_mAdoptedThreads (to_uint16 (mAdoptedThreads w + 1)) w)).
Proof.
  intros H. destruct (sThreadState w !! tid) as [state|] eqn:Hst.
  - destruct (decide (ref_js state = this w)) as [Hjs|Hjs].
    + rewrite (adopt_member _ _ _ Hst Hjs) in H. discriminate H.
    + destruct (adopt_foreign _ _ _ Hst Hjs) as [msg' E]. rewrite E in H.
      injection H as _ <-. left. reflexivity.
  - destruct (Z.lt_ge_cases (mThreadCount w + mAdoptedThreads w)
                (Z.of_nat (length (mThreadStates w)))) as [Hlt|Hge].
    + rewrite (adopt_slot _ _ Hst Hlt) in H. discriminate H.
    + destruct (adopt_exhausted _ _ Hst Hge) as [msg' E]. rewrite E in H.
      injection H as _ <-. right. split; [reflexivity|]. split; [lia|reflexivity].
Qed.

Section Invariant.

Variable cfg : Config.
Variable default_random_engine : N -> N * N.
Variable invoke : JobFunc -> nat -> nat -> M unit.

(** Job functions act on the scheduler through its member functions. *)
Hypothesis invoke_Inv : forall f tid j, preserves Inv (invoke f tid j).

Hypothesis ULONG_BITS_16 : (ULONG_BITS cfg < 2 ^ 16)%Z.

Lemma execute_Inv tid state :
  preserves Inv (execute cfg default_random_engine invoke tid state).
Proof.
  unfold execute.
  apply preserves_bind; [apply frames_preserves_Inv; auto with frames|intros job].
  apply preserves_bind.
  { destruct job; apply frames_preserves_Inv; frames_tac. }
  intros [j|]; [|apply frames_preserves_Inv; auto with frames].
  apply preserves_bind; [apply frames_preserves_Inv; auto with frames|intros a].
  apply preserves_bind; [apply frames_preserves_Inv; auto with frames|intros _].
  apply preserves_bind; [apply frames_preserves_Inv; auto with frames|intros jb].
  apply preserves_bind.
  { destruct (function jb); [|apply frames_preserves_Inv; auto with frames].
    apply preserves_bind; [apply frames_preserves_Inv; auto with frames|intros _].
    apply invoke_Inv. }
  intros _. apply frames_preserves_Inv. frames_tac.
Qed.

Lemma do_while_Inv fuel body cond :
  preserves Inv body -> preserves Inv cond -> preserves Inv (do_while fuel body cond).
Proof.
  intros Hb Hc. induction fuel as [|fuel IH]; cbn [do_while].
  - intros w a w' _ H. discriminate H.
  - apply preserves_bind; [exact Hb|intros _].
    apply preserves_bind; [exact Hc|intros again].
    destruct again; [exact IH|apply frames_preserves_Inv, frames_ret].
Qed.

Lemma wait_Inv fuel tid job :
  preserves Inv (wait cfg default_random_engine invoke fuel tid job).
Proof.
  unfold wait.
  apply preserves_bind; [apply frames_preserves_Inv; auto with frames|intros _].
  apply preserves_bind; [apply frames_preserves_Inv; auto with frames|intros state].
  apply preserves_bind.
  { apply do_while_Inv.
    - unfold wait_body. apply preserves_bind; [apply execute_Inv|intros ran].
      apply frames_preserves_Inv. unfold UTILS_WAIT_FOR_EVENT. frames_tac.
    - apply frames_preserves_Inv. unfold wait_condition. frames_tac. }
  intros _. apply frames_preserves_Inv. frames_tac.
Qed.

Lemma adopt_Inv tid : preserves Inv (adopt tid).
Proof.
  intros w a w' HI H. destruct HI as (I1 & I2 & I3 & I4 & I5).
  destruct (sThreadState w !! tid) as [state|] eqn:Hst.
  - destruct (decide (ref_js state = this w)) as [Hjs|Hjs].
    + rewrite (adopt_member _ _ _ Hst Hjs) in H. injection H as <- <-.
      repeat split; assumption.
    + destruct (adopt_foreign _ _ _ Hst Hjs) as [msg E]. rewrite E in H. discriminate H.
  - destruct (Z.lt_ge_cases (mThreadCount w + mAdoptedThreads w)
                (Z.of_nat (length (mThreadStates w)))) as [Hlt|Hge].
    + rewrite (adopt_slot _ _ Hst Hlt) in H. injection H as <- <-.
      assert (Hu : to_uint16 (mAdoptedThreads w + 1) = (mAdoptedThreads w + 1)%Z)
        by (unfold to_uint16, wrap_unsigned; apply Z.mod_small; lia).
      unfold Inv. cbn. rewrite Hu.
      repeat split; try lia.
      intros t r Hr Hjs. destruct (decide (t = tid)) as [->|Hne].
      * rewrite lookup_insert_eq in Hr. injection Hr as <-. cbn. lia.
      * rewrite lookup_insert_ne in Hr by congruence.
        specialize (I5 _ _ Hr Hjs). lia.
    + destruct (adopt_exhausted _ _ Hst Hge) as [msg E]. rewrite E in H. discriminate H.
Qed.

Lemma emancipate_Inv tid : preserves Inv (emancipate tid).
Proof.
  intros w a w' HI H. destruct HI as (I1 & I2 & I3 & I4 & I5).
  pose proof (emancipate_spec tid w) as E.
  destruct (sThreadState w !! tid) as [r|]; [|rewrite E in H; discriminate H].
  destruct (bool_decide (ref_js r = this w)); rewrite E in H; [|discriminate H].
  injection H as <- <-. repeat split; try assumption.
  intros t r' Hr Hjs. cbn in Hr. apply lookup_delete_Some in Hr as [_ Hr]. eauto.
Qed.

Lemma loop_enter_Inv tid i w w' :
  Inv w -> (Z.of_nat i < mThreadCount w)%Z ->
  loop_enter tid (mkTSRef (this w) i) w = Done tt w' -> Inv w'.
Proof.
  intros (I1 & I2 & I3 & I4 & I5) Hi [= <-]. repeat split; try assumption.
  intros t r Hr Hjs. cbn in Hr, Hjs |- *.
  destruct (decide (t = tid)) as [->|Hne].
  - rewrite lookup_insert_eq in Hr. injection Hr as <-. cbn. lia.
  - rewrite lookup_insert_ne in Hr by congruence. eauto.
Qed.

Lemma ctor_Inv self tls hwThreads rd threadCount adoptable w :
  (0 <= threadCount)%Z -> (0 <= adoptable)%Z -> (32 + adoptable < 2 ^ 64)%Z ->
  (forall t r, tls !! t = Some r -> ref_js r <> self) ->
  JobSystem_ctor cfg self tls hwThreads rd threadCount adoptable = Done tt w ->
  Inv w.
Proof.
  intros Htc Had Hov Htls H. unfold JobSystem_ctor in H.
  pose proof (ctor_threadCount_range cfg hwThreads threadCount Htc) as Hr.
  set (tc := ctor_threadCount cfg hwThreads threadCount) in *.
  assert (Hn : to_size_t (tc + adoptable) = (tc + adoptable)%Z)
    by (unfold to_size_t, wrap_unsigned; apply Z.mod_small; lia).
  assert (Hu : to_uint16 tc = tc) by (unfold to_uint16, wrap_unsigned; apply Z.mod_small; lia).
  rewrite Hn, Hu in H.
  destruct (Z.ltb_spec (ULONG_BITS cfg) (tc + adoptable)); [discriminate|].
  injection H as <-. unfold Inv. cbn.
  rewrite length_map, length_seq, Z2Nat.id by lia.
  repeat split; try lia.
  intros t r Hr' Hjs. exfalso. exact (Htls _ _ Hr' Hjs).
Qed.

(** The invariant holds as long as no call of adopt has panicked. *)
Lemma reachable_Inv w :
  reachable cfg default_random_engine invoke 0 w -> Inv w.
Proof.
  intros H. remember 0 as n eqn:En. induction H; try discriminate En;
    try specialize (IHreachable En).
  - eapply ctor_Inv; cycle 4; [eassumption|assumption..].
  - eapply loop_enter_Inv; cycle 2; [eassumption|assumption..].
  - eapply adopt_Inv; eassumption.
  - eapply emancipate_Inv; eassumption.
  - eapply (frames_preserves_Inv _ (frames_requestExit cfg)); eassumption.
  - eapply (frames_preserves_Inv _ (frames_create cfg _ _)); eassumption.
  - eapply (frames_preserves_Inv _ (frames_run cfg _ _ _)); eassumption.
  - eapply (frames_preserves_Inv _ (frames_runAndRetain cfg _ _ _)); eassumption.
  - eapply wait_Inv; eassumption.
  - eapply execute_Inv; eassumption.
  - match goal with
    | Hp : emancipate _ _ = Panic _ _ |- _ => apply emancipate_panics_inv in Hp as ->
    end.
    exact IHreachable.
Qed.

End Invariant.

(** ** The victim of a steal *)

Lemma pop_returns r s w :
  ref_js r = this w -> mThreadStates w !! ref_index r = Some s ->
  exists job w1 s1,
    pop r w = Done job w1 /\ same_threads w w1 /\
    mThreadStates w1 !! ref_index r = Some s1 /\ rndGen s1 = rndGen s.
Proof.
  intros Hjs Hs. unfold pop. rewrite (bind_eq _ _ _ _ _ (load_state_eq _ _ _ Hjs Hs)).
  erewrite bind_eq by reflexivity.
  destruct (last (workQueue s)) as [j|].
  - erewrite bind_eq by reflexivity.
    eexists _, _, (set_workQueue (removelast (workQueue s)) s). split; [reflexivity|].
    split; [repeat split; cbn; apply length_insert|].
    split; [|reflexivity]. cbn. apply list_lookup_insert_eq.
    apply lookup_lt_Some in Hs. exact Hs.
  - eexists _, _, s. split; [reflexivity|].
    split; [repeat split|]. split; [exact Hs|reflexivity].
Qed.

Lemma getStateToStealFrom_eq cfg rng r s w :
  ref_js r = this w -> mThreadStates w !! ref_index r = Some s ->
  let d := (mThreadCount w + mAdoptedThreads w)%Z in
  let index := to_uint16 (Z.of_N (fst (rng (rndGen s))) mod d) in
  d <> 0%Z -> (index < Z.of_nat (length (mThreadStates w)))%Z ->
  getStateToStealFrom cfg rng r w =
    Done (mkTSRef (this w) (Z.to_nat index))
      (with_state (ref_index r) (set_rndGen (snd (rng (rndGen s))) s)
         (log [EvLoad A_mAdoptedThreads memory_order_relaxed] w)).
Proof.
  intros Hjs Hs d index Hd Hi. unfold getStateToStealFrom.
  erewrite bind_eq by reflexivity.
  erewrite bind_eq by (apply load_state_eq; [exact Hjs|exact Hs]).
  destruct (rng (rndGen s)) as [x g] eqn:Ex. cbn [fst snd] in *.
  erewrite bind_eq by reflexivity. fold d.
  destruct (Z.eqb_spec d 0); [contradiction|]. fold index.
  unfold assert. destruct (Z.ltb_spec index (Z.of_nat (length (mThreadStates w)))); [|lia].
  rewrite orb_true_r. erewrite bind_eq by reflexivity.
  unfold mThreadStates_at. cbn [mThreadStates set_mThreadStates set_trace this].
  rewrite length_insert.
  destruct (Z.leb_spec (Z.of_nat (length (mThreadStates w))) index); [lia|].
  reflexivity.
Qed.

(** While no call of adopt has panicked: in every such world the
    scheduler reaches, for a thread whose thread-local pointer refers to
    a state of this scheduler, execute's pop on that state returns, and
    in the world after it the divisor worker_count + adopted_count of the
    victim selection is at least 1 (a worker's slot lies below
    worker_count, an adopted thread's slot below worker_count +
    adopted_count), the index rng() modulo the divisor survives the
    conversion to 16 bits and is less than the number of thread states,
    and getStateToStealFrom returns the state at that index. *)
Lemma victim_in_bounds (cfg : Config) (default_random_engine : N -> N * N)
    (invoke : JobFunc -> nat -> nat -> M unit) (w : World) (tid : nat) (state : TSRef) :
  (ULONG_BITS cfg < 2 ^ 16)%Z ->
  (forall f t j, preserves Inv (invoke f t j)) ->
  reachable cfg default_random_engine invoke 0 w ->
  sThreadState w !! tid = Some state -> ref_js state = this w ->
  exists job w1 s1,
    pop state w = Done job w1 /\
    mThreadStates w1 !! ref_index state = Some s1 /\
    let d := (mThreadCount w1 + mAdoptedThreads w1)%Z in
    let index := (Z.of_N (fst (default_random_engine (rndGen s1))) mod d)%Z in
    (1 <= d)%Z /\
    ((Z.of_nat (ref_index state) < mThreadCount w1)%Z -> (1 <= mThreadCount w1)%Z) /\
    ((mThreadCount w1 <= Z.of_nat (ref_index state))%Z -> (1 <= mAdoptedThreads w1)%Z) /\
    to_uint16 index = index /\
    (0 <= index < Z.of_nat (length (mThreadStates w1)))%Z /\
    exists w2,
      getStateToStealFrom cfg default_random_engine state w1
      = Done (mkTSRef (this w1) (Z.to_nat index)) w2 /\
      is_Some (mThreadStates w2 !! Z.to_nat index).
Proof.
  intros Hbits Hinvoke Hreach Hst Hjs.
  pose proof (reachable_Inv cfg default_random_engine invoke Hinvoke Hbits w Hreach) as HI.
  assert (Hidx : (Z.of_nat (ref_index state) < mThreadCount w + mAdoptedThreads w)%Z)
    by (destruct HI as (_ & _ & _ & _ & I5); exact (I5 _ _ Hst Hjs)).
  assert (exists s, mThreadStates w !! ref_index state = Some s) as [s Hs].
  { apply lookup_lt_is_Some. destruct HI as (_ & _ & I3 & _). lia. }
  destruct (pop_returns _ _ _ Hjs Hs) as (job & w1 & s1 & Hpop & Hsame & Hs1 & _).
  pose proof (same_threads_Inv _ _ Hsame HI) as (I1 & I2 & I3 & I4 & _).
  destruct Hsame as (E1 & E2 & E3 & E4 & E5).
  exists job, w1, s1. split; [exact Hpop|]. split; [exact Hs1|]. cbn zeta.
  set (d := (mThreadCount w1 + mAdoptedThreads w1)%Z).
  set (index := (Z.of_N (fst (default_random_engine (rndGen s1))) mod d)%Z).
  assert (Hd : (1 <= d)%Z) by (unfold d; rewrite E3, E4; lia).
  assert (Hi : (0 <= index < d)%Z) by (apply Z.mod_pos_bound; lia).
  assert (Hu : to_uint16 index = index)
    by (unfold to_uint16, wrap_unsigned; apply Z.mod_small; unfold d in *; lia).
  split; [exact Hd|]. split; [lia|]. split; [unfold d in *; rewrite E3, E4; lia|].
  split; [exact Hu|]. split; [unfold d in *; lia|].
  rewrite <- E1 in Hjs.
  pose proof (getStateToStealFrom_eq cfg default_random_engine state s1 w1 Hjs Hs1) as E.
  cbn zeta in E. fold d in E. fold index in E. rewrite Hu in E.
  eexists. split; [apply E; unfold d in *; lia|].
  apply lookup_lt_is_Some. cbn. rewrite length_insert. unfold d in *. lia.
Qed.

(** An instance: a scheduler built for 4 hardware threads with one
    adoptable slot, after thread 100 was adopted. *)
Lemma victim_in_bounds_witness :
  exists w job w1 victim w2,
    reachable Sample.debug_build Sample.lcg Sample.no_effect 0 w /\
    sThreadState w !! 100 = Some (mkTSRef 7 1) /\
    pop (mkTSRef 7 1) w = Done job w1 /\
    getStateToStealFrom Sample.debug_build Sample.lcg (mkTSRef 7 1) w1 = Done victim w2 /\
    is_Some (mThreadStates w2 !! ref_index victim).
Proof.
  let t := eval vm_compute in
    (match JobSystem_ctor Sample.debug_build 7 ∅ 4 Sample.rd 0 1 with
     | Done _ w0 => w0
     | _ => Sample.idle
     end) in pose (w0 := t).
  assert (Ec : JobSystem_ctor Sample.debug_build 7 ∅ 4 Sample.rd 0 1 = Done tt w0)
    by (vm_compute; reflexivity).
  let t := eval vm_compute in
    (match adopt 100 w0 with Done _ w => w | _ => Sample.idle end) in pose (w := t).
  assert (Ea : adopt 100 w0 = Done tt w) by (vm_compute; reflexivity).
  assert (Hreach : reachable Sample.debug_build Sample.lcg Sample.no_effect 0 w).
  { eapply reach_adopt; [|exact Ea].
    eapply reach_ctor; [| | | |exact Ec]; vm_compute; congruence. }
  assert (Hinv : forall f t j, preserves Inv (Sample.no_effect f t j)).
  { intros f t j w' a w'' HI [= _ <-]. exact HI. }
  destruct (victim_in_bounds Sample.debug_build Sample.lcg Sample.no_effect w 100
              (mkTSRef 7 1) ltac:(vm_compute; reflexivity) Hinv Hreach
              ltac:(vm_compute; reflexivity) eq_refl)
    as (job & w1 & s1 & Hpop & _ & _ & _ & _ & _ & _ & w2 & Hg & Hsome).
  exists w, job, w1. eexists. exists w2. split; [exact Hreach|].
  split; [vm_compute; reflexivity|]. split; [exact Hpop|]. split; [exact Hg|exact Hsome].
Defined.

Lemma pop_empty r s w :
  ref_js r = this w -> mThreadStates w !! ref_index r = Some s ->
  workQueue s = [] ->
  pop r w = Done None (log [EvPop (ref_index r)] w).
Proof.
  intros Hjs Hs Hq. unfold pop. rewrite (bind_eq _ _ _ _ _ (load_state_eq _ _ _ Hjs Hs)).
  erewrite bind_eq by reflexivity. rewrite Hq. reflexivity.
Qed.

Lemma getStateToStealFrom_out cfg rng r s w :
  ref_js r = this w -> mThreadStates w !! ref_index r = Some s ->
  let d := (mThreadCount w + mAdoptedThreads w)%Z in
  let index := to_uint16 (Z.of_N (fst (rng (rndGen s))) mod d) in
  d <> 0%Z -> (Z.of_nat (length (mThreadStates w)) <= index)%Z ->
  getStateToStealFrom cfg rng r w =
    if NDEBUG cfg then Undefined
    else Panic "assert"
           (with_state (ref_index r) (set_rndGen (snd (rng (rndGen s))) s)
              (log [EvLoad A_mAdoptedThreads memory_order_relaxed] w)).
Proof.
  intros Hjs Hs d index Hd Hi. unfold getStateToStealFrom.
  erewrite bind_eq by reflexivity.
  erewrite bind_eq by (apply load_state_eq; [exact Hjs|exact Hs]).
  destruct (rng (rndGen s)) as [x g] eqn:Ex. cbn [fst snd] in *.
  erewrite bind_eq by reflexivity. fold d.
  destruct (Z.eqb_spec d 0); [contradiction|]. fold index.
  unfold assert. destruct (Z.ltb_spec index (Z.of_nat (length (mThreadStates w)))); [lia|].
  rewrite orb_false_r. destruct (NDEBUG cfg).
  - erewrite bind_eq by reflexivity.
    unfold mThreadStates_at. cbn [mThreadStates set_mThreadStates set_trace this].
    rewrite length_insert.
    destruct (Z.leb_spec (Z.of_nat (length (mThreadStates w))) index); [|lia].
    reflexivity.
  - reflexivity.
Qed.

Lemma execute_out cfg rng invoke tid state s w :
  ref_js state = this w -> mThreadStates w !! ref_index state = Some s ->
  workQueue s = [] ->
  let d := (mThreadCount w + mAdoptedThreads w)%Z in
  let index := to_uint16 (Z.of_N (fst (rng (rndGen s))) mod d) in
  d <> 0%Z -> (Z.of_nat (length (mThreadStates w)) <= index)%Z ->
  execute cfg rng invoke tid state w =
    if NDEBUG cfg then Undefined
    else Panic "assert"
           (with_state (ref_index state) (set_rndGen (snd (rng (rndGen s))) s)
              (log [EvPop (ref_index state);
                    EvLoad A_mAdoptedThreads memory_order_relaxed] w)).
Proof.
  intros Hjs Hs Hq d index Hd Hi. unfold execute.
  rewrite (bind_eq _ _ _ _ _ (pop_empty _ _ _ Hjs Hs Hq)).
  unfold bind at 2. unfold bind at 1.
  rewrite (getStateToStealFrom_out cfg rng state s (log [EvPop (ref_index state)] w) Hjs Hs
             Hd Hi).
  destruct (NDEBUG cfg); [reflexivity|]. f_equal. world_eq.
Qed.

(** C9: the victim selection leaves the thread states after a call of
    adopt has panicked. A scheduler is built for 6 hardware threads with
    one adoptable slot (2 workers, 3 thread states); thread 100 is
    adopted; the adoption of thread 200 finds no slot and panics, having
    added 1 to the count of adopted threads, which is now 2; the worker
    thread 1 enters loop. In this world, which the member functions
    reach, thread 1 holds thread state 0, and its call of execute pops
    nothing and computes rng() modulo 2 + 2 = 4: the divisor is at least
    1, but with an engine whose first draw on state 0 is 3 modulo 4 the
    index is 3 and there are 3 thread states. The assert of
    getStateToStealFrom fails in a debug build; in a release build the
    index is used on the thread states out of bounds, which is undefined
    behaviour. *)
Theorem victim_out_of_bounds (default_random_engine : N -> N * N) (rd : nat -> N) :
  (Z.of_N (fst (default_random_engine (rd 0%nat))) mod 4 = 3)%Z ->
  exists w0 w1 w2 w,
    JobSystem_ctor Sample.debug_build 7 ∅ 6 rd 0 1 = Done tt w0 /\
    JobSystem_ctor Sample.release_build 7 ∅ 6 rd 0 1 = Done tt w0 /\
    adopt 100 w0 = Done tt w1 /\
    adopt 200 w1 = Panic "Too many calls to adopt(). No more adoptable threads!" w2 /\
    loop_enter 1 (mkTSRef 7 0) w2 = Done tt w /\
    reachable Sample.debug_build default_random_engine Sample.no_effect 1 w /\
    reachable Sample.release_build default_random_engine Sample.no_effect 1 w /\
    sThreadState w !! 1 = Some (mkTSRef 7 0) /\ this w = 7 /\
    length (mThreadStates w) = 3 /\
    mThreadCount w = 2%Z /\ mAdoptedThreads w = 2%Z /\
    (exists w3 s,
       pop (mkTSRef 7 0) w = Done None w3 /\
       mThreadStates w3 !! 0 = Some s /\
       (1 <= mThreadCount w3 + mAdoptedThreads w3)%Z /\
       (to_uint16 (Z.of_N (fst (default_random_engine (rndGen s)))
                   mod (mThreadCount w3 + mAdoptedThreads w3)) = 3)%Z /\
       length (mThreadStates w3) = 3 /\
       (exists w4, getStateToStealFrom Sample.debug_build default_random_engine
                     (mkTSRef 7 0) w3 = Panic "assert" w4) /\
       getStateToStealFrom Sample.release_build default_random_engine (mkTSRef 7 0) w3
       = Undefined) /\
    (exists w', execute Sample.debug_build default_random_engine Sample.no_effect 1
                  (mkTSRef 7 0) w = Panic "assert" w') /\
    execute Sample.release_build default_random_engine Sample.no_effect 1 (mkTSRef 7 0) w
    = Undefined.
Proof.
  intros Hdraw.
  let t := eval vm_compute in
    (match JobSystem_ctor Sample.debug_build 7 ∅ 6 rd 0 1 with
     | Done _ w0 => w0
     | _ => Sample.idle
     end) in pose (w0 := t).
  assert (Ec : JobSystem_ctor Sample.debug_build 7 ∅ 6 rd 0 1 = Done tt w0)
    by (vm_compute; reflexivity).
  assert (Ec' : JobSystem_ctor Sample.release_build 7 ∅ 6 rd 0 1 = Done tt w0)
    by (vm_compute; reflexivity).
  let t := eval vm_compute in
    (match adopt 100 w0 with Done _ w => w | _ => Sample.idle end) in pose (w1 := t).
  assert (Ea : adopt 100 w0 = Done tt w1) by (vm_compute; reflexivity).
  let t := eval vm_compute in
    (match adopt 200 w1 with Panic _ w => w | _ => Sample.idle end) in pose (w2 := t).
  assert (Ep : adopt 200 w1
               = Panic "Too many calls to adopt(). No more adoptable threads!" w2)
    by (vm_compute; reflexivity).
  let t := eval vm_compute in
    (match loop_enter 1 (mkTSRef 7 0) w2 with Done _ w => w | _ => Sample.idle end)
    in pose (w := t).
  assert (El : loop_enter 1 (mkTSRef 7 0) w2 = Done tt w) by (vm_compute; reflexivity).
  assert (Hreach : forall cfg,
            JobSystem_ctor cfg 7 ∅ 6 rd 0 1 = Done tt w0 ->
            reachable cfg default_random_engine Sample.no_effect 1 w).
  { intros cfg E.
    eapply (reach_loop _ _ _ _ w2 1 0); [|vm_compute; reflexivity|exact El].
    eapply reach_adopt_panics; [|exact Ep]. eapply reach_adopt; [|exact Ea].
    eapply reach_ctor; [| | | |exact E]; vm_compute; congruence. }
  set (s := ctor_state rd 2 0).
  assert (Hs : mThreadStates w !! 0 = Some s) by reflexivity.
  assert (Hi : to_uint16 (Z.of_N (fst (default_random_engine (rndGen s))) mod 4) = 3%Z)
    by (cbn [s rndGen ctor_state]; rewrite Hdraw; reflexivity).
  exists w0, w1, w2, w.
  split; [exact Ec|]. split; [exact Ec'|]. split; [exact Ea|]. split; [exact Ep|].
  split; [exact El|]. split; [exact (Hreach _ Ec)|]. split; [exact (Hreach _ Ec')|].
  split; [vm_compute; reflexivity|]. split; [reflexivity|]. split; [reflexivity|].
  split; [reflexivity|]. split; [reflexivity|]. split.
  { exists (log [EvPop 0] w), s.
    split; [exact (pop_empty (mkTSRef 7 0) s w eq_refl Hs eq_refl)|].
    split; [exact Hs|]. split; [cbn; lia|]. split; [exact Hi|]. split; [reflexivity|].
    split.
    - eexists.
      apply (getStateToStealFrom_out Sample.debug_build default_random_engine (mkTSRef 7 0)
               s (log [EvPop 0] w) eq_refl Hs); [cbn; lia|].
      change (mThreadCount (log [EvPop 0] w) + mAdoptedThreads (log [EvPop 0] w))%Z
        with 4%Z.
      rewrite Hi. cbn. lia.
    - apply (getStateToStealFrom_out Sample.release_build default_random_engine
               (mkTSRef 7 0) s (log [EvPop 0] w) eq_refl Hs); [cbn; lia|].
      change (mThreadCount (log [EvPop 0] w) + mAdoptedThreads (log [EvPop 0] w))%Z
        with 4%Z.
      rewrite Hi. cbn. lia. }
  split.
  - eexists.
    apply (execute_out Sample.debug_build default_random_engine Sample.no_effect 1
             (mkTSRef 7 0) s w eq_refl Hs eq_refl); [cbn; lia|].
    change (mThreadCount w + mAdoptedThreads w)%Z with 4%Z. rewrite Hi. cbn. lia.
  - apply (execute_out Sample.release_build default_random_engine Sample.no_effect 1
             (mkTSRef 7 0) s w eq_refl Hs eq_refl); [cbn; lia|].
    change (mThreadCount w + mAdoptedThreads w)%Z with 4%Z. rewrite Hi. cbn. lia.
Qed.

(** An instance: the engine minstd_rand0 seeded with 1 draws 16807. *)
Lemma victim_out_of_bounds_witness :
  exists w,
    reachable Sample.release_build Scenario.minstd_rand0 Sample.no_effect 1 w /\
    sThreadState w !! 1 = Some (mkTSRef 7 0) /\
    execute Sample.release_build Scenario.minstd_rand0 Sample.no_effect 1 (mkTSRef 7 0) w
    = Undefined.
Proof.
  destruct (victim_out_of_bounds Scenario.minstd_rand0 Scenario.ones
              ltac:(vm_compute; reflexivity))
    as (w0 & w1 & w2 & w & _ & _ & _ & _ & _ & _ & Hreach & Hst & _ & _ & _ & _ & _ & _ & He).
  exists w. split; [exact Hreach|]. split; [exact Hst|exact He].
Defined.

(** ** The loop of finish ends *)

Lemma at_one_le_size pool : at_one pool <= size pool.
Proof. apply map_subseteq_size, map_filter_subseteq. Qed.

Lemma at_one_delete j pool : at_one (delete j pool) <= at_one pool.
Proof.
  unfold at_one. rewrite map_filter_delete, map_size_delete.
  destruct (filter _ pool !! j); cbn; lia.
Qed.

Lemma at_one_insert_other j jb pool :
  runningJobCount jb <> 1%Z -> at_one (<[j := jb]> pool) <= at_one pool.
Proof.
  intros H. unfold at_one. rewrite map_filter_insert_False by exact H.
  apply at_one_delete.
Qed.

Lemma at_one_leave j jb jb' pool :
  pool !! j = Some jb -> runningJobCount jb = 1%Z -> runningJobCount jb' <> 1%Z ->
  S (at_one (<[j := jb']> pool)) = at_one pool.
Proof.
  intros Hj H1 H'. unfold at_one. rewrite map_filter_insert_False by exact H'.
  rewrite map_filter_delete.
  assert (Hf : filter (fun kv : nat * Job => runningJobCount (snd kv) = 1%Z) pool !! j
               = Some jb) by (apply map_lookup_filter_Some; split; assumption).
  rewrite map_size_delete, Hf. cbn.
  assert (size (filter (fun kv : nat * Job => runningJobCount (snd kv) = 1%Z) pool) <> 0).
  { apply map_size_ne_0_lookup. eauto. }
  lia.
Qed.

Lemma bind_not_OutOfFuel {A B} (m : M A) (k : A -> M B) w :
  m w <> OutOfFuel ->
  (forall a w1, m w = Done a w1 -> k a w1 <> OutOfFuel) ->
  bind m k w <> OutOfFuel.
Proof.
  intros Hm Hk. unfold bind. destruct (m w) eqn:E; try discriminate; [|contradiction].
  apply Hk. reflexivity.
Qed.

Lemma decRef_not_OutOfFuel cfg job w : decRef cfg job w <> OutOfFuel.
Proof.
  destruct job as [j|]; [|discriminate].
  destruct (mJobPool w !! j) as [jb|] eqn:E.
  - rewrite (decRef_eq _ _ _ _ E). cbn zeta.
    destruct (NDEBUG cfg || _); [|discriminate]. destruct (_ =? 1)%Z; discriminate.
  - unfold decRef, ptr, refCount_fetch_sub, load_job, bind, ret. rewrite E. discriminate.
Qed.

Lemma finish_loop_terminates cfg fuel j w :
  at_one (mJobPool w) < fuel -> finish_loop cfg fuel j w <> OutOfFuel.
Proof.
  revert j w. induction fuel as [|fuel IH]; intros j w Hfuel; [lia|].
  destruct (mJobPool w !! j) as [jb|] eqn:Hj.
  2:{ cbn [finish_loop]. unfold runningJobCount_fetch_sub, load_job, bind.
      rewrite Hj. discriminate. }
  rewrite (finish_loop_step _ _ _ _ _ Hj). cbn zeta.
  destruct (NDEBUG cfg || _); [|discriminate].
  destruct (Z.eqb_spec (runningJobCount jb) 1) as [H1|]; [|discriminate].
  apply bind_not_OutOfFuel; [apply decRef_not_OutOfFuel|].
  intros [] w3 Hd. destruct (parent_of jb) as [p|]; [|discriminate].
  apply IH.
  destruct (decRef_inv _ _ _ _ Hd) as (j' & jb' & [= <-] & Hj' & _ & Hpool & _).
  revert Hj' Hpool. world_simpl. rewrite lookup_insert_eq. intros [= <-] Hpool.
  assert (Hleave : S (at_one (<[j := set_runningJobCount (to_runningJobCount cfg (runningJobCount jb - 1)) jb]>
                                 (mJobPool w))) = at_one (mJobPool w)).
  { apply (at_one_leave _ jb); [exact Hj|exact H1|]. cbn. rewrite H1.
    change (1 - 1)%Z with 0%Z. rewrite to_runningJobCount_0. discriminate. }
  assert (at_one (mJobPool w3)
          <= at_one (<[j := set_runningJobCount (to_runningJobCount cfg (runningJobCount jb - 1)) jb]>
                       (mJobPool w))).
  { rewrite Hpool. destruct (_ =? 1)%Z.
    - apply at_one_delete.
    - apply at_one_insert_other. cbn. rewrite H1.
      change (1 - 1)%Z with 0%Z. rewrite to_runningJobCount_0. discriminate. }
  lia.
Qed.

Lemma finish_terminates cfg job w : finish cfg job w <> OutOfFuel.
Proof.
  unfold finish, Pin_enter, Pin_exit.
  apply bind_not_OutOfFuel.
  { destruct job as [j|]; [|discriminate].
    destruct (mJobPool w !! j) as [jb|] eqn:E.
    - rewrite (incRef_eq _ _ _ _ E). discriminate.
    - unfold incRef, ptr, refCount_fetch_add, load_job, bind, ret. rewrite E. discriminate. }
  intros [] w1 H1. destruct (incRef_inv _ _ _ _ H1) as (j & jb & -> & Hj).
  rewrite (incRef_eq _ _ _ _ Hj) in H1. injection H1 as <-.
  apply bind_not_OutOfFuel; [discriminate|]. intros j' w2 [= <- <-].
  apply bind_not_OutOfFuel.
  { apply finish_loop_terminates. world_simpl.
    pose proof (at_one_le_size (<[j:=set_refCount (to_refCount cfg (refCount jb + 1)) jb]>
                                  (mJobPool w))) as Hle.
    rewrite map_size_insert_Some in Hle by eauto. lia. }
  intros [] w3 _. apply bind_not_OutOfFuel.
  { rewrite when_ARM_eq. discriminate. }
  intros [] w4 _. apply decRef_not_OutOfFuel.
Qed.

(** ** setThreadAffinity *)

Lemma land_1_testbit mask : (Z.land mask 1 =? 0)%Z = negb (Z.testbit mask 0).
Proof.
  change 1%Z with (Z.ones 1). rewrite Z.land_ones by lia.
  change (2 ^ 1)%Z with 2%Z. rewrite <- Z.bit0_mod.
  destruct (Z.testbit mask 0); reflexivity.
Qed.

Lemma setThreadAffinity_loop_bits fuel mask bit set :
  (0 <= mask < 2 ^ Z.of_nat fuel)%Z ->
  exists set',
    setThreadAffinity_loop fuel mask bit set = Some set' /\
    forall i, i ∈ set' <->
      i ∈ set \/ (bit <= i /\ Z.testbit mask (Z.of_nat (i - bit)) = true).
Proof.
  revert mask bit set. induction fuel as [|fuel IH]; intros mask bit set Hm.
  - assert (mask = 0%Z) as -> by (change (2 ^ Z.of_nat 0)%Z with 1%Z in Hm; lia).
    exists set. split; [reflexivity|]. intros i. rewrite Z.bits_0.
    split; [tauto|]. intros [?|[_ ?]]; [assumption|discriminate].
  - cbn [setThreadAffinity_loop]. destruct (Z.eqb_spec mask 0) as [->|Hne].
    + exists set. split; [reflexivity|]. intros i. rewrite Z.bits_0.
      split; [tauto|]. intros [?|[_ ?]]; [assumption|discriminate].
    + destruct (IH (Z.shiftr mask 1) (S bit)
                  (if (Z.land mask 1 =? 0)%Z then set else {[bit]} ∪ set)) as (set' & E & Hset).
      { rewrite Z.shiftr_div_pow2 by lia. split; [apply Z.div_pos; lia|].
        apply Z.div_lt_upper_bound; [lia|].
        rewrite <- Z.pow_succ_r by lia. rewrite <- Nat2Z.inj_succ. lia. }
      exists set'. split; [exact E|]. intros i. rewrite Hset, land_1_testbit.
      assert (Hshift : forall k, S bit <= k ->
                Z.testbit (Z.shiftr mask 1) (Z.of_nat (k - S bit))
                = Z.testbit mask (Z.of_nat (k - bit))).
      { intros k Hk. rewrite Z.shiftr_spec by lia. f_equal. lia. }
      destruct (decide (i = bit)) as [->|Hi].
      * rewrite Nat.sub_diag. change (Z.of_nat 0) with 0%Z.
        destruct (Z.testbit mask 0); cbn [negb].
        -- split; intros _; [right; split; [lia|reflexivity]|].
           left. apply elem_of_union. left. apply elem_of_singleton. reflexivity.
        -- split; [intros [?|[? _]]; [tauto|lia]|intros [?|[_ ?]]; [tauto|discriminate]].
      * split.
        -- intros [Hin|[Hle Hb]].
           ++ left. destruct (negb _); [exact Hin|].
              apply elem_of_union in Hin as [Hin|Hin]; [|exact Hin].
              apply elem_of_singleton in Hin. contradiction.
           ++ right. split; [lia|]. rewrite <- Hshift by lia. exact Hb.
        -- intros [Hin|[Hle Hb]].
           ++ left. destruct (negb _); [exact Hin|]. apply elem_of_union. right. exact Hin.
           ++ right. split; [lia|]. rewrite Hshift by lia. exact Hb.
Qed.

(** X1: on Linux setThreadAffinity hands the OS a CPU set that holds CPU
    i exactly when i is below 32 and bit i of the mask is set; the loop
    over the mask ends for every mask. On other platforms it makes no
    call. *)
Theorem setThreadAffinity_bits (mask : Z) :
  (exists set,
     setThreadAffinity true mask = Some (sched_setaffinity set) /\
     forall i, i ∈ set <-> i < 32 /\ Z.testbit mask (Z.of_nat i) = true) /\
  setThreadAffinity false mask = Some no_call.
Proof.
  split; [|reflexivity]. unfold setThreadAffinity.
  destruct (setThreadAffinity_loop_bits 32 (to_uint32 mask) 0 ∅) as (set & E & Hset).
  { unfold to_uint32, wrap_unsigned. apply Z.mod_pos_bound. lia. }
  exists set. rewrite E. split; [reflexivity|]. intros i. rewrite Hset.
  rewrite Nat.sub_0_r. unfold to_uint32, wrap_unsigned.
  rewrite Z.testbit_mod_pow2 by lia.
  destruct (Z.ltb_spec (Z.of_nat i) 32); cbn [andb].
  - split.
    + intros [Hin|[_ ?]]; [apply elem_of_empty in Hin; contradiction|].
      split; [lia|assumption].
    + intros [_ ?]. right. split; [lia|assumption].
  - split.
    + intros [Hin|[_ ?]]; [apply elem_of_empty in Hin; contradiction|discriminate].
    + intros [? _]. lia.
Qed.

(** ** The loop of finish ends within its bound *)

Lemma finish_loop_measure cfg j jb w w3 :
  mJobPool w !! j = Some jb -> runningJobCount jb = 1%Z ->
  decRef cfg (Some j)
    (log (acquire_fence cfg)
       (with_job j (set_runningJobCount (to_runningJobCount cfg (runningJobCount jb - 1)) jb)
          (log [EvFetchSub (A_runningJobCount j) (release_order cfg)] w))) = Done tt w3 ->
  S (at_one (mJobPool w3)) <= at_one (mJobPool w).
Proof.
  intros Hj H1 Hd.
  destruct (decRef_inv _ _ _ _ Hd) as (j' & jb' & [= <-] & Hj' & _ & Hpool & _).
  revert Hj' Hpool. world_simpl. rewrite lookup_insert_eq. intros [= <-] Hpool.
  assert (H0 : runningJobCount
                 (set_runningJobCount (to_runningJobCount cfg (runningJobCount jb - 1)) jb)
               <> 1%Z).
  { cbn. rewrite H1. change (1 - 1)%Z with 0%Z. rewrite to_runningJobCount_0. discriminate. }
  pose proof (at_one_leave j jb _ (mJobPool w) Hj H1 H0) as Hleave.
  rewrite Hpool. destruct (_ =? 1)%Z.
  - pose proof (at_one_delete j
                  (<[j := set_runningJobCount (to_runningJobCount cfg (runningJobCount jb - 1)) jb]>
                     (mJobPool w))). lia.
  - rewrite insert_insert_eq.
    pose proof (at_one_leave j jb
                  (set_refCount
                     (to_refCount cfg
                        (refCount (set_runningJobCount
                                     (to_runningJobCount cfg (runningJobCount jb - 1)) jb) - 1))
                     (set_runningJobCount (to_runningJobCount cfg (runningJobCount jb - 1)) jb))
                  (mJobPool w) Hj H1 H0) as Hleave'.
    lia.
Qed.

Lemma finish_loop_fuel cfg fuel1 fuel2 j w :
  at_one (mJobPool w) < fuel1 -> at_one (mJobPool w) < fuel2 ->
  finish_loop cfg fuel1 j w = finish_loop cfg fuel2 j w.
Proof.
  revert fuel2 j w. induction fuel1 as [|fuel1 IH]; intros fuel2 j w H1 H2; [lia|].
  destruct fuel2 as [|fuel2]; [lia|].
  destruct (mJobPool w !! j) as [jb|] eqn:Hj.
  2:{ cbn [finish_loop]. unfold runningJobCount_fetch_sub, load_job, bind.
      rewrite Hj. reflexivity. }
  rewrite !(finish_loop_step _ _ _ _ _ Hj). cbn zeta.
  destruct (NDEBUG cfg || _); [|reflexivity].
  destruct (Z.eqb_spec (runningJobCount jb) 1) as [Hc|]; [|reflexivity].
  unfold bind at 1 2.
  destruct (decRef cfg (Some j) _) as [[] w3| | | |] eqn:Hd; try reflexivity.
  destruct (parent_of jb) as [p|]; [|reflexivity].
  pose proof (finish_loop_measure _ _ _ _ _ Hj Hc Hd). apply IH; lia.
Qed.

(** X2: the loop of finish ends after at most one pass more than there
    are live jobs whose runningJobCount is 1, whatever the parent links
    are (a job may even be its own ancestor): from that bound on, more
    passes allowed change nothing, and the bound finish itself uses is
    enough. *)
Theorem finish_loop_bounded (cfg : Config) (fuel : nat) (j : nat) (w : World) :
  at_one (mJobPool w) < fuel ->
  finish_loop cfg fuel j w = finish_loop cfg (S (at_one (mJobPool w))) j w /\
  finish_loop cfg fuel j w <> OutOfFuel /\
  finish cfg (Some j) w <> OutOfFuel.
Proof.
  intros H. split; [apply finish_loop_fuel; lia|].
  split; [apply finish_loop_terminates, H|apply finish_terminates].
Qed.

(** An instance: a job that is its own parent; in a release build the
    second pass finds the count at 0 and ends the loop. *)
Lemma finish_loop_bounded_witness :
  finish_loop Sample.release_build 9 0 Scenario.knot
  = finish_loop Sample.release_build 2 0 Scenario.knot /\
  (exists w', finish_loop Sample.release_build 9 0 Scenario.knot = Done tt w' /\
     runningJobCount <$> mJobPool w' !! 0 = Some (-1)%Z).
Proof.
  destruct (finish_loop_bounded Sample.release_build 9 0 Scenario.knot) as (H & _).
  { vm_compute. lia. }
  split; [exact H|]. eexists. split; vm_compute; reflexivity.
Defined.

(** ** Reference counts in balance *)

Lemma to_runningJobCount_small cfg z :
  (- 2 ^ (runningJobCount_bits cfg - 1) <= z < 2 ^ (runningJobCount_bits cfg - 1))%Z ->
  to_runningJobCount cfg z = z.
Proof.
  intros H. unfold to_runningJobCount, wrap_signed.
  destruct (Z.le_gt_cases 1 (runningJobCount_bits cfg)) as [Hb|Hb].
  - assert (E : (2 ^ runningJobCount_bits cfg = 2 * 2 ^ (runningJobCount_bits cfg - 1))%Z).
    { rewrite <- Z.pow_succ_r by lia. f_equal. lia. }
    rewrite Z.mod_small by lia. lia.
  - assert (2 ^ (runningJobCount_bits cfg - 1) = 0)%Z as E by (apply Z.pow_neg_r; lia).
    rewrite E in H. lia.
Qed.

Lemma set_refCount_same jb : set_refCount (refCount jb) jb = jb.
Proof. destruct jb. reflexivity. Qed.

Lemma set_runningJobCount_same jb : set_runningJobCount (runningJobCount jb) jb = jb.
Proof. destruct jb. reflexivity. Qed.

Lemma World_ext (w1 w2 : World) :
  this w1 = this w2 -> mJobPool w1 = mJobPool w2 ->
  mThreadStates w1 = mThreadStates w2 -> mThreadCount w1 = mThreadCount w2 ->
  mAdoptedThreads w1 = mAdoptedThreads w2 -> mActiveJobs w1 = mActiveJobs w2 ->
  mExitRequested w1 = mExitRequested w2 -> mMasterJob w1 = mMasterJob w2 ->
  sThreadState w1 = sThreadState w2 -> trace w1 = trace w2 ->
  w1 = w2.
Proof. destruct w1, w2. cbn. intros. congruence. Qed.

(** Reduces an equation between worlds to equations between the members
    that are not the same term on both sides. *)
Ltac world_ext :=
  apply World_ext; world_simpl;
  try match goal with |- ?a = ?b => constr_eq a b; reflexivity end.

(** X3: a reference taken with incRef and given back with decRef leaves
    the job and the rest of the scheduler as they were: when the count is
    at least 1 and not at its maximum, the two calls return, the count is
    one higher in between, nothing is destroyed and only the two atomic
    operations are added to the trace. *)
Theorem incRef_decRef_round_trip (cfg : Config) (j : nat) (jb : Job) (w : World) :
  mJobPool w !! j = Some jb ->
  (1 <= refCount jb < 2 ^ refCount_bits cfg - 1)%Z ->
  exists w1,
    incRef cfg (Some j) w = Done tt w1 /\
    mJobPool w1 !! j = Some (set_refCount (refCount jb + 1) jb) /\
    decRef cfg (Some j) w1 =
      Done tt (log [EvFetchAdd (A_refCount j) memory_order_relaxed;
                    EvFetchSub (A_refCount j) (release_order cfg)] w).
Proof.
  intros Hj Hr. rewrite (incRef_eq _ _ _ _ Hj). eexists. split; [reflexivity|].
  rewrite (to_refCount_small cfg (refCount jb + 1)) by lia.
  split; [world_simpl; apply lookup_insert_eq|].
  erewrite decRef_eq by (world_simpl; apply lookup_insert_eq). cbn zeta.
  cbn [refCount set_refCount].
  destruct (Z.ltb_spec 0 (refCount jb + 1)); [|lia]. rewrite orb_true_r.
  destruct (Z.eqb_spec (refCount jb + 1) 1); [lia|].
  replace (refCount jb + 1 - 1)%Z with (refCount jb) by lia.
  rewrite (to_refCount_small cfg (refCount jb)) by lia.
  f_equal. world_ext.
  - rewrite insert_insert_eq. destruct jb. apply insert_id, Hj.
  - rewrite <- app_assoc. reflexivity.
Qed.

(** An instance: the root of [Sample.family 2 1]. *)
Lemma incRef_decRef_round_trip_witness :
  exists w1 w2,
    incRef Sample.debug_build (Some 0) (Sample.family 2 1) = Done tt w1 /\
    decRef Sample.debug_build (Some 0) w1 = Done tt w2 /\
    mJobPool w2 = mJobPool (Sample.family 2 1).
Proof.
  destruct (incRef_decRef_round_trip Sample.debug_build 0 (mkJob None 0x7FFF 2 1)
              (Sample.family 2 1) eq_refl ltac:(vm_compute; split; congruence))
    as (w1 & H1 & _ & H2).
  exists w1. eexists. split; [exact H1|]. split; [exact H2|]. reflexivity.
Defined.

(** ** finish on the last unit of work of a job *)

Lemma finish_loop_last cfg fuel j jb w :
  mJobPool w !! j = Some jb ->
  runningJobCount jb = 1%Z -> parent_of jb = None ->
  (2 <= refCount jb < 2 ^ refCount_bits cfg)%Z ->
  finish_loop cfg (S fuel) j w =
    Done tt
      (with_job j (set_refCount (refCount jb - 1) (set_runningJobCount 0 jb))
         (log ([EvFetchSub (A_runningJobCount j) (release_order cfg)]
               ++ acquire_fence cfg
               ++ [EvFetchSub (A_refCount j) (release_order cfg)]) w)).
Proof.
  intros Hj Hc Hp Hr. rewrite (finish_loop_step _ _ _ _ _ Hj). cbn zeta.
  rewrite Hc, Hp. cbn [Z.ltb Z.compare Z.eqb Pos.eqb]. rewrite orb_true_r.
  change (1 - 1)%Z with 0%Z. rewrite to_runningJobCount_0.
  unfold bind at 1. erewrite decRef_eq by (world_simpl; apply lookup_insert_eq).
  cbn zeta. cbn [refCount set_runningJobCount].
  destruct (Z.ltb_spec 0 (refCount jb)); [|lia]. rewrite orb_true_r.
  destruct (Z.eqb_spec (refCount jb) 1); [lia|].
  rewrite (to_refCount_small cfg (refCount jb - 1)) by lia.
  unfold ret. f_equal. world_ext.
  - apply insert_insert_eq.
  - rewrite <- !app_assoc. reflexivity.
Qed.

Lemma finish_loop_last_child cfg fuel j jb p pj w :
  mJobPool w !! j = Some jb ->
  runningJobCount jb = 1%Z -> parent_of jb = Some p ->
  (2 <= refCount jb < 2 ^ refCount_bits cfg)%Z ->
  p <> j -> mJobPool w !! p = Some pj -> (1 < runningJobCount pj)%Z ->
  finish_loop cfg (S (S fuel)) j w =
    Done tt
      (with_job p (set_runningJobCount (to_runningJobCount cfg (runningJobCount pj - 1)) pj)
         (with_job j (set_refCount (refCount jb - 1) (set_runningJobCount 0 jb))
            (log ([EvFetchSub (A_runningJobCount j) (release_order cfg)]
                  ++ acquire_fence cfg
                  ++ [EvFetchSub (A_refCount j) (release_order cfg);
                      EvFetchSub (A_runningJobCount p) (release_order cfg)]) w))).
Proof.
  intros Hj Hc Hp Hr Hne Hpj Hcp. rewrite (finish_loop_step _ _ _ _ _ Hj). cbn zeta.
  rewrite Hc, Hp. cbn [Z.ltb Z.compare Z.eqb Pos.eqb]. rewrite orb_true_r.
  change (1 - 1)%Z with 0%Z. rewrite to_runningJobCount_0.
  unfold bind at 1. erewrite decRef_eq by (world_simpl; apply lookup_insert_eq).
  cbn zeta. cbn [refCount set_runningJobCount].
  destruct (Z.ltb_spec 0 (refCount jb)); [|lia]. rewrite orb_true_r.
  destruct (Z.eqb_spec (refCount jb) 1); [lia|].
  rewrite (to_refCount_small cfg (refCount jb - 1)) by lia.
  erewrite finish_loop_step
    by (world_simpl; rewrite !lookup_insert_ne by congruence; exact Hpj).
  cbn zeta.
  destruct (Z.ltb_spec 0 (runningJobCount pj)); [|lia]. rewrite orb_true_r.
  destruct (Z.eqb_spec (runningJobCount pj) 1); [lia|].
  f_equal. world_ext.
  - rewrite insert_insert_eq. reflexivity.
  - rewrite <- !app_assoc. reflexivity.
Qed.

(** Proves an equation between job pools that differ at [j] and [p] at
    most, by comparing them key by key. *)
Ltac pool_eq j p :=
  let k := fresh "k" in
  apply map_eq; intros k;
  destruct (decide (k = j)) as [->|?]; [|destruct (decide (k = p)) as [->|?]];
  repeat first
    [ rewrite lookup_insert_eq
    | rewrite lookup_delete_eq
    | rewrite lookup_insert_ne by congruence
    | rewrite lookup_delete_ne by congruence ];
  try reflexivity.

Ltac trace_eq :=
  rewrite <- ?app_assoc; cbn [app]; rewrite <- ?app_assoc; reflexivity.

Lemma finish_last cfg j jb w :
  mJobPool w !! j = Some jb ->
  runningJobCount jb = 1%Z -> parent_of jb = None ->
  (1 <= refCount jb < 2 ^ refCount_bits cfg - 1)%Z ->
  finish cfg (Some j) w =
    Done tt
      ((if (refCount jb =? 1)%Z then without_job j
        else with_job j (set_refCount (refCount jb - 1) (set_runningJobCount 0 jb)))
         (log ([EvFetchAdd (A_refCount j) memory_order_relaxed;
                EvFetchSub (A_runningJobCount j) (release_order cfg)]
               ++ acquire_fence cfg
               ++ [EvFetchSub (A_refCount j) (release_order cfg)]
               ++ (if ARM_ARCH_7A cfg then [EvDsb 0xA; EvSignalEvent] else [])
               ++ decRef_events cfg j (refCount jb)) w)).
Proof.
  intros Hj Hc Hp Hr. unfold finish, Pin_enter, Pin_exit.
  rewrite (bind_eq _ _ _ _ _ (incRef_eq _ _ _ _ Hj)).
  erewrite bind_eq by reflexivity.
  rewrite (to_refCount_small cfg (refCount jb + 1)) by lia.
  erewrite bind_eq.
  2:{ apply (finish_loop_last cfg _ j (set_refCount (refCount jb + 1) jb));
        [world_simpl; apply lookup_insert_eq|exact Hc|exact Hp|cbn; lia]. }
  erewrite bind_eq by apply when_ARM_eq.
  erewrite decRef_eq by (world_simpl; apply lookup_insert_eq). cbn zeta.
  cbn [refCount set_refCount set_runningJobCount runningJobCount function parent].
  replace (refCount jb + 1 - 1)%Z with (refCount jb) by lia.
  destruct (Z.ltb_spec 0 (refCount jb)); [|lia]. rewrite orb_true_r.
  unfold decRef_events.
  destruct (Z.eqb_spec (refCount jb) 1) as [E1|E1]; f_equal; world_ext.
  - rewrite !delete_insert_eq. reflexivity.
  - trace_eq.
  - rewrite !insert_insert_eq. rewrite (to_refCount_small cfg (refCount jb - 1)) by lia.
    reflexivity.
  - trace_eq.
Qed.

Lemma finish_last_child cfg j jb p pj w :
  mJobPool w !! j = Some jb ->
  runningJobCount jb = 1%Z -> parent_of jb = Some p ->
  (1 <= refCount jb < 2 ^ refCount_bits cfg - 1)%Z ->
  p <> j -> mJobPool w !! p = Some pj -> (1 < runningJobCount pj)%Z ->
  finish cfg (Some j) w =
    Done tt
      ((if (refCount jb =? 1)%Z then without_job j
        else with_job j (set_refCount (refCount jb - 1) (set_runningJobCount 0 jb)))
         (with_job p (set_runningJobCount (to_runningJobCount cfg (runningJobCount pj - 1)) pj)
            (log ([EvFetchAdd (A_refCount j) memory_order_relaxed;
                   EvFetchSub (A_runningJobCount j) (release_order cfg)]
                  ++ acquire_fence cfg
                  ++ [EvFetchSub (A_refCount j) (release_order cfg);
                      EvFetchSub (A_runningJobCount p) (release_order cfg)]
                  ++ (if ARM_ARCH_7A cfg then [EvDsb 0xA; EvSignalEvent] else [])
                  ++ decRef_events cfg j (refCount jb)) w))).
Proof.
  intros Hj Hc Hp Hr Hne Hpj Hcp. unfold finish, Pin_enter, Pin_exit.
  rewrite (bind_eq _ _ _ _ _ (incRef_eq _ _ _ _ Hj)).
  erewrite bind_eq by reflexivity.
  rewrite (to_refCount_small cfg (refCount jb + 1)) by lia.
  assert (exists n, size (mJobPool w) = S n) as [n Hn].
  { destruct (size (mJobPool w)) eqn:E; [|eauto].
    apply map_size_empty_iff in E. rewrite E in Hj. discriminate Hj. }
  rewrite Hn.
  erewrite bind_eq.
  2:{ apply (finish_loop_last_child cfg _ j (set_refCount (refCount jb + 1) jb) p pj);
        [world_simpl; apply lookup_insert_eq|exact Hc|exact Hp|cbn; lia|exact Hne
        |world_simpl; rewrite lookup_insert_ne by congruence; exact Hpj|exact Hcp]. }
  erewrite bind_eq by apply when_ARM_eq.
  erewrite decRef_eq
    by (world_simpl; rewrite lookup_insert_ne by congruence; apply lookup_insert_eq).
  cbn zeta.
  cbn [refCount set_refCount set_runningJobCount runningJobCount function parent].
  replace (refCount jb + 1 - 1)%Z with (refCount jb) by lia.
  destruct (Z.ltb_spec 0 (refCount jb)); [|lia]. rewrite orb_true_r.
  unfold decRef_events.
  destruct (Z.eqb_spec (refCount jb) 1) as [E1|E1]; f_equal; world_ext.
  - pool_eq j p.
  - trace_eq.
  - rewrite (to_refCount_small cfg (refCount jb - 1)) by lia. pool_eq j p.
  - trace_eq.
Qed.

(** X4: finish on a live job whose runningJobCount is 1 and whose
    reference count is in range completes it. The count becomes 0; the
    job is destroyed exactly when the reference that finish releases was
    the only one, otherwise it stays with one reference less. A job
    without parent leaves all other jobs as they were; with a live parent
    (another job) that has more than one unit of work left, the parent's
    count goes down by exactly one and the cascade stops there. *)
Theorem finish_completes (cfg : Config) (j : nat) (jb : Job) (w : World) :
  mJobPool w !! j = Some jb ->
  runningJobCount jb = 1%Z ->
  (1 <= refCount jb < 2 ^ refCount_bits cfg - 1)%Z ->
  let settle (pool : gmap nat Job) :=
    if (refCount jb =? 1)%Z then delete j pool
    else <[j := set_refCount (refCount jb - 1) (set_runningJobCount 0 jb)]> pool in
  (parent_of jb = None ->
   exists w', finish cfg (Some j) w = Done tt w' /\
     mJobPool w' = settle (mJobPool w) /\
     (EvDestroy j ∈ events_since w w' <-> refCount jb = 1%Z)) /\
  (forall p pj,
     parent_of jb = Some p -> p <> j -> mJobPool w !! p = Some pj ->
     (1 < runningJobCount pj)%Z ->
     exists w', finish cfg (Some j) w = Done tt w' /\
       mJobPool w' =
         settle (<[p := set_runningJobCount (to_runningJobCount cfg (runningJobCount pj - 1)) pj]>
                   (mJobPool w))).
Proof.
  intros Hj Hc Hr settle. split.
  - intros Hp. rewrite (finish_last _ _ _ _ Hj Hc Hp Hr). unfold settle, decRef_events.
    destruct (Z.eqb_spec (refCount jb) 1) as [E|E];
      (eexists; split; [reflexivity|]; split; [reflexivity|]);
      erewrite events_since_app by (world_simpl; reflexivity).
    + split; [intros _; exact E|intros _]. unfold acquire_fence.
      destruct (thread_sanitizer cfg), (ARM_ARCH_7A cfg); cbn;
        repeat first [apply list_elem_of_here|apply list_elem_of_further].
    + split; [|intros; contradiction]. intros Hin. exfalso. unfold acquire_fence in Hin.
      destruct (thread_sanitizer cfg), (ARM_ARCH_7A cfg); cbn in Hin;
        repeat (apply elem_of_cons in Hin as [Hin|Hin]; [discriminate Hin|]);
        apply elem_of_nil in Hin; exact Hin.
  - intros p pj Hp Hne Hpj Hcp.
    rewrite (finish_last_child _ _ _ _ _ _ Hj Hc Hp Hr Hne Hpj Hcp).
    eexists. split; [reflexivity|]. unfold settle.
    destruct (refCount jb =? 1)%Z; reflexivity.
Qed.

(** An instance: the child of [Sample.family 2 1], which is destroyed,
    while the root keeps one unit of work. *)
Lemma finish_completes_witness :
  exists w', finish Sample.debug_build (Some 1) (Sample.family 2 1) = Done tt w' /\
    mJobPool w' !! 1 = None /\
    runningJobCount <$> mJobPool w' !! 0 = Some 1%Z.
Proof.
  destruct (finish_completes Sample.debug_build 1 (mkJob None 0 1 1) (Sample.family 2 1)
              eq_refl eq_refl ltac:(vm_compute; split; congruence)) as (_ & H).
  destruct (H 0 (mkJob None 0x7FFF 2 1) eq_refl ltac:(congruence) eq_refl eq_refl)
    as (w' & Hf & Hpool).
  exists w'. split; [exact Hf|]. rewrite Hpool. split; vm_compute; reflexivity.
Defined.

(** X5: creating a child and finishing it is a round trip for the job
    pool: create adds 1 to the parent's runningJobCount, finish on the
    child takes it back and destroys the child, and the pool is again
    what it was before create. *)
Theorem create_finish_round_trip (cfg : Config) (parent_ : option nat)
    (func : option JobFunc) (w : World) (j p : nat) (pj : Job) :
  effective_parent parent_ w = Some p ->
  free_slot cfg (mJobPool w) = Some j ->
  mJobPool w !! p = Some pj ->
  (0 < runningJobCount pj < 2 ^ (runningJobCount_bits cfg - 1) - 1)%Z ->
  (Z.of_nat p < MAX_JOB_COUNT cfg <= 0x7FFF)%Z ->
  (2 < 2 ^ refCount_bits cfg)%Z ->
  exists w1 w2 events,
    create cfg parent_ func w = Done (Some j) w1 /\
    runningJobCount <$> mJobPool w1 !! p = Some (runningJobCount pj + 1)%Z /\
    finish cfg (Some j) w1 = Done tt w2 /\
    w2 = log events w.
Proof.
  intros He Hf Hp Hc Hmax Hbits.
  destruct (free_slot_Some _ _ _ Hf) as [Hj _].
  assert (Hne : p <> j) by congruence.
  pose proof (create_child cfg _ func _ _ _ _ He Hf Hp) as E. cbn zeta in E.
  destruct (Z.ltb_spec 0 (runningJobCount pj)); [|lia].
  destruct (Z.ltb_spec (Z.of_nat p) (MAX_JOB_COUNT cfg)); [|lia].
  rewrite !orb_true_r in E.
  assert (Hup : to_runningJobCount cfg (runningJobCount pj + 1) = (runningJobCount pj + 1)%Z).
  { apply to_runningJobCount_small.
    assert (0 <= 2 ^ (runningJobCount_bits cfg - 1))%Z by (apply Z.pow_nonneg; lia). lia. }
  assert (Hdown : to_runningJobCount cfg (runningJobCount pj + 1 - 1) = runningJobCount pj).
  { replace (runningJobCount pj + 1 - 1)%Z with (runningJobCount pj) by lia.
    apply to_runningJobCount_small.
    assert (0 <= 2 ^ (runningJobCount_bits cfg - 1))%Z by (apply Z.pow_nonneg; lia). lia. }
  assert (Hidx : to_uint16 (Z.of_nat p) = Z.of_nat p)
    by (unfold to_uint16, wrap_unsigned; apply Z.mod_small; lia).
  rewrite Hup, Hidx in E.
  eexists _, _, _. split; [exact E|].
  split.
  { world_simpl. rewrite lookup_insert_ne, lookup_insert_eq by congruence. reflexivity. }
  erewrite (finish_last_child cfg j (mkJob func (Z.of_nat p) 1 1) p
              (set_runningJobCount (runningJobCount pj + 1) pj)).
  - split; [reflexivity|]. cbn [refCount runningJobCount set_runningJobCount Z.eqb Pos.eqb].
    rewrite Hdown. world_ext.
    + pool_eq j p; [symmetry; exact Hj|]. rewrite Hp. destruct pj. reflexivity.
    + trace_eq.
  - world_simpl. apply lookup_insert_eq.
  - reflexivity.
  - unfold parent_of. cbn [parent].
    destruct (Z.eqb_spec (Z.of_nat p) 0x7FFF); [lia|]. rewrite Nat2Z.id. reflexivity.
  - cbn [refCount]. lia.
  - exact Hne.
  - world_simpl. rewrite lookup_insert_ne, lookup_insert_eq by congruence. reflexivity.
  - cbn [runningJobCount set_runningJobCount]. lia.
Qed.

(** An instance: a second child of the root of [Sample.family 2 1]. *)
Lemma create_finish_round_trip_witness :
  exists w1 w2,
    create Sample.debug_build (Some 0) None (Sample.family 2 1) = Done (Some 2) w1 /\
    finish Sample.debug_build (Some 2) w1 = Done tt w2 /\
    mJobPool w2 = mJobPool (Sample.family 2 1).
Proof.
  destruct (create_finish_round_trip Sample.debug_build (Some 0) None (Sample.family 2 1)
              2 0 (mkJob None 0x7FFF 2 1) eq_refl ltac:(vm_compute; reflexivity) eq_refl
              ltac:(vm_compute; split; congruence) ltac:(vm_compute; split; congruence)
              ltac:(vm_compute; congruence))
    as (w1 & w2 & events & Hc & _ & Hf & ->).
  exists w1. eexists. split; [exact Hc|]. split; [exact Hf|]. reflexivity.
Defined.

(** ** run, execute and wait on one thread *)

Lemma to_uint32_small z : (0 <= z < 2 ^ 32)%Z -> to_uint32 z = z.
Proof. intros H. unfold to_uint32, wrap_unsigned. apply Z.mod_small. exact H. Qed.

Lemma run_eq cfg tid j jb state s flags w :
  mJobPool w !! j = Some jb ->
  (1 <= refCount jb < 2 ^ refCount_bits cfg - 1)%Z ->
  sThreadState w !! tid = Some state -> ref_js state = this w ->
  mThreadStates w !! ref_index state = Some s ->
  (Z.of_nat (length (workQueue s)) < MAX_JOB_COUNT cfg)%Z ->
  run cfg tid (Some j) flags w =
    Done None
      (with_state (ref_index state) (set_workQueue (workQueue s ++ [j]) s)
         (set_mActiveJobs (to_uint32 (mActiveJobs w + 1))
            (log ([EvFetchAdd (A_refCount j) memory_order_relaxed;
                   EvFetchAdd A_mActiveJobs memory_order_relaxed;
                   EvPut (ref_index state) j]
                  ++ wake_up ((Z.land flags (DONT_SIGNAL cfg) =? 0)%Z
                              && negb (mActiveJobs w =? 0)%Z)
                  ++ [EvFetchSub (A_refCount j) (release_order cfg)]) w))).
Proof.
  intros Hj Hrc Hst Hjs Hs Hcap. unfold run, Pin_enter, Pin_exit.
  rewrite (bind_eq _ _ _ _ _ (incRef_eq _ _ _ _ Hj)).
  erewrite bind_eq by (apply getState_eq; exact Hst).
  erewrite bind_eq by reflexivity.
  erewrite bind_eq by reflexivity.
  erewrite bind_eq by (apply put_eq; [exact Hjs|exact Hs|exact Hcap]).
  erewrite bind_eq by apply wake_up_eq.
  unfold bind at 1. erewrite decRef_eq by (cbn; apply lookup_insert_eq).
  cbn zeta. cbn [refCount set_refCount].
  rewrite (to_refCount_small cfg (refCount jb + 1)) by lia.
  destruct (Z.ltb_spec 0 (refCount jb + 1)); [|lia]. rewrite orb_true_r.
  destruct (Z.eqb_spec (refCount jb + 1) 1); [lia|].
  replace (refCount jb + 1 - 1)%Z with (refCount jb) by lia.
  rewrite (to_refCount_small cfg (refCount jb)) by lia.
  unfold ret. f_equal. world_ext.
  - rewrite insert_insert_eq. destruct jb. apply insert_id, Hj.
  - trace_eq.
Qed.

Lemma pop_eq r s q j w :
  ref_js r = this w -> mThreadStates w !! ref_index r = Some s ->
  workQueue s = q ++ [j] ->
  pop r w = Done (Some j)
              (with_state (ref_index r) (set_workQueue q s) (log [EvPop (ref_index r)] w)).
Proof.
  intros Hjs Hs Hq. unfold pop. rewrite (bind_eq _ _ _ _ _ (load_state_eq _ _ _ Hjs Hs)).
  erewrite bind_eq by reflexivity.
  rewrite Hq, last_snoc, removelast_last. reflexivity.
Qed.

Lemma steal_empty r s w :
  ref_js r = this w -> mThreadStates w !! ref_index r = Some s ->
  workQueue s = [] ->
  steal r w = Done None (log [EvSteal (ref_index r)] w).
Proof.
  intros Hjs Hs Hq. unfold steal. rewrite (bind_eq _ _ _ _ _ (load_state_eq _ _ _ Hjs Hs)).
  erewrite bind_eq by reflexivity. rewrite Hq. reflexivity.
Qed.

Lemma execute_idle_eq cfg rng invoke tid state w :
  Inv w ->
  sThreadState w !! tid = Some state -> ref_js state = this w ->
  (forall i s, mThreadStates w !! i = Some s -> workQueue s = []) ->
  exists s events,
    mThreadStates w !! ref_index state = Some s /\
    execute cfg rng invoke tid state w =
      Done false (with_state (ref_index state) (set_rndGen (snd (rng (rndGen s))) s)
                    (log events w)) /\
    EvPop (ref_index state) ∈ events /\
    (EvSteal (ref_index state) ∉ events) /\
    (forall f j, EvCall f j ∉ events) /\
    EvWaitForEvent ∉ events.
Proof.
  intros (I1 & I2 & I3 & I4 & I5) Hst Hjs Hempty.
  pose proof (I5 _ _ Hst Hjs) as Hidx.
  assert (exists s, mThreadStates w !! ref_index state = Some s) as [s Hs]
    by (apply lookup_lt_is_Some; lia).
  pose proof (Hempty _ _ Hs) as Hq.
  exists s. unfold execute. rewrite (bind_eq _ _ _ _ _ (pop_empty _ _ _ Hjs Hs Hq)).
  set (d := (mThreadCount w + mAdoptedThreads w)%Z).
  set (index := (Z.of_N (fst (rng (rndGen s))) mod d)%Z).
  assert (Hd : (1 <= d)%Z) by (unfold d; lia).
  assert (Hi : (0 <= index < d)%Z) by (apply Z.mod_pos_bound; lia).
  assert (Hu : to_uint16 index = index)
    by (unfold to_uint16, wrap_unsigned; apply Z.mod_small; unfold d in *; lia).
  assert (E : getStateToStealFrom cfg rng state (log [EvPop (ref_index state)] w)
              = Done (mkTSRef (this w) (Z.to_nat index))
                  (with_state (ref_index state) (set_rndGen (snd (rng (rndGen s))) s)
                     (log [EvLoad A_mAdoptedThreads memory_order_relaxed]
                        (log [EvPop (ref_index state)] w)))).
  { pose proof (getStateToStealFrom_eq cfg rng state s
                  (log [EvPop (ref_index state)] w) Hjs Hs) as E.
    cbn zeta in E.
    change (mThreadCount (log [EvPop (ref_index state)] w)) with (mThreadCount w) in E.
    change (mAdoptedThreads (log [EvPop (ref_index state)] w)) with (mAdoptedThreads w) in E.
    change (this (log [EvPop (ref_index state)] w)) with (this w) in E.
    change (mThreadStates (log [EvPop (ref_index state)] w)) with (mThreadStates w) in E.
    fold d in E. fold index in E. rewrite Hu in E. apply E; unfold d in *; lia. }
  unfold bind at 2. unfold bind at 1. rewrite E.
  destruct (decide (mkTSRef (this w) (Z.to_nat index) <> state)) as [Hv|Hv].
  - rewrite bool_decide_true by exact Hv.
    assert (Hvi : Z.to_nat index <> ref_index state).
    { intros Heq. apply Hv. destruct state as [js i]. cbn in *. congruence. }
    assert (exists s', mThreadStates w !! Z.to_nat index = Some s') as [s' Hs']
      by (apply lookup_lt_is_Some; unfold d in *; lia).
    erewrite (steal_empty (mkTSRef (this w) (Z.to_nat index)) s');
      [|reflexivity
       |world_simpl; cbn [ref_index]; rewrite list_lookup_insert_ne by congruence; exact Hs'
       |exact (Hempty _ _ Hs')].
    exists [EvPop (ref_index state); EvLoad A_mAdoptedThreads memory_order_relaxed;
            EvSteal (Z.to_nat index)].
    split; [exact Hs|]. split.
    { cbn [ref_index]. apply (f_equal (Done false)). world_ext. trace_eq. }
    split; [apply list_elem_of_here|]. split; [|split].
    + intros Hin. repeat (apply elem_of_cons in Hin as [Hin|Hin]; [congruence|]).
      apply elem_of_nil in Hin. exact Hin.
    + intros f j Hin. repeat (apply elem_of_cons in Hin as [Hin|Hin]; [discriminate Hin|]).
      apply elem_of_nil in Hin. exact Hin.
    + intros Hin. repeat (apply elem_of_cons in Hin as [Hin|Hin]; [discriminate Hin|]).
      apply elem_of_nil in Hin. exact Hin.
  - rewrite bool_decide_false by exact Hv.
    exists [EvPop (ref_index state); EvLoad A_mAdoptedThreads memory_order_relaxed].
    split; [exact Hs|]. split.
    { apply (f_equal (Done false)). world_ext. trace_eq. }
    split; [apply list_elem_of_here|]. split; [|split].
    + intros Hin. repeat (apply elem_of_cons in Hin as [Hin|Hin]; [discriminate Hin|]).
      apply elem_of_nil in Hin. exact Hin.
    + intros f j Hin. repeat (apply elem_of_cons in Hin as [Hin|Hin]; [discriminate Hin|]).
      apply elem_of_nil in Hin. exact Hin.
    + intros Hin. repeat (apply elem_of_cons in Hin as [Hin|Hin]; [discriminate Hin|]).
      apply elem_of_nil in Hin. exact Hin.
Qed.


Lemma Inv_started : Inv Sample.started.
Proof.
  unfold Inv. cbn. repeat split; try lia.
  intros tid r Hr Hjs.
  apply lookup_insert_Some in Hr as [[<- <-]|[_ Hr]]; [cbn; lia|].
  apply lookup_insert_Some in Hr as [[<- <-]|[_ Hr]]; [cbn; lia|].
  rewrite lookup_empty in Hr. discriminate Hr.
Qed.

Lemma started_queues_empty i s :
  mThreadStates Sample.started !! i = Some s -> workQueue s = [].
Proof.
  destruct i as [|[|[|i]]]; cbn; intros H; try discriminate H;
    injection H as <-; reflexivity.
Qed.


Lemma execute_own cfg rng invoke tid state s q j jb w :
  ref_js state = this w -> mThreadStates w !! ref_index state = Some s ->
  workQueue s = q ++ [j] ->
  mJobPool w !! j = Some jb ->
  function jb = None -> runningJobCount jb = 1%Z -> parent_of jb = None ->
  (1 <= refCount jb < 2 ^ refCount_bits cfg - 1)%Z ->
  (1 <= mActiveJobs w < 2 ^ 32)%Z ->
  execute cfg rng invoke tid state w =
    Done true
      ((if (refCount jb =? 1)%Z then without_job j
        else with_job j (set_refCount (refCount jb - 1) (set_runningJobCount 0 jb)))
         (with_state (ref_index state) (set_workQueue q s)
            (set_mActiveJobs (mActiveJobs w - 1)
               (log ([EvPop (ref_index state);
                      EvFetchSub A_mActiveJobs memory_order_relaxed;
                      EvFetchAdd (A_refCount j) memory_order_relaxed;
                      EvFetchSub (A_runningJobCount j) (release_order cfg)]
                     ++ acquire_fence cfg
                     ++ [EvFetchSub (A_refCount j) (release_order cfg)]
                     ++ (if ARM_ARCH_7A cfg then [EvDsb 0xA; EvSignalEvent] else [])
                     ++ decRef_events cfg j (refCount jb)) w)))).
Proof.
  intros Hjs Hs Hq Hj Hf Hc Hp Hr Ha. unfold execute.
  rewrite (bind_eq _ _ _ _ _ (pop_eq _ _ _ _ _ Hjs Hs Hq)).
  erewrite bind_eq by reflexivity. cbv iota.
  erewrite bind_eq by reflexivity.
  world_simpl. unfold assert.
  destruct (Z.eqb_spec (mActiveJobs w) 0); [lia|]. cbn [negb]. rewrite orb_true_r.
  erewrite bind_eq by reflexivity.
  erewrite bind_eq by (unfold load_job; cbn [mJobPool set_mJobPool set_trace set_mActiveJobs
                                             set_mThreadStates]; rewrite Hj; reflexivity).
  rewrite Hf. erewrite bind_eq by reflexivity.
  erewrite bind_eq.
  2:{ apply (finish_last cfg j jb); [exact Hj|exact Hc|exact Hp|exact Hr]. }
  unfold ret. f_equal. rewrite (to_uint32_small (mActiveJobs w - 1)) by lia.
  destruct (refCount jb =? 1)%Z; world_ext; trace_eq.
Qed.

Lemma wait_condition_done j jb w :
  mJobPool w !! j = Some jb -> (runningJobCount jb <= 0)%Z ->
  wait_condition (Some j) w
  = Done false (log [EvLoad (A_runningJobCount j) memory_order_relaxed] w).
Proof.
  intros Hj Hc.
  unfold wait_condition, hasJobCompleted, ptr, runningJobCount_load, load_job, emit, bind, ret.
  rewrite Hj. destruct (Z.leb_spec (runningJobCount jb) 0); [reflexivity|lia].
Qed.

Lemma steal_eq r s j q w :
  ref_js r = this w -> mThreadStates w !! ref_index r = Some s ->
  workQueue s = j :: q ->
  steal r w = Done (Some j)
                (with_state (ref_index r) (set_workQueue q s) (log [EvSteal (ref_index r)] w)).
Proof.
  intros Hjs Hs Hq. unfold steal. rewrite (bind_eq _ _ _ _ _ (load_state_eq _ _ _ Hjs Hs)).
  erewrite bind_eq by reflexivity. rewrite Hq. reflexivity.
Qed.

Lemma execute_steals cfg rng invoke tid state s victim sv q j jb w :
  ref_js state = this w -> mThreadStates w !! ref_index state = Some s ->
  workQueue s = [] ->
  to_uint16 (Z.of_N (fst (rng (rndGen s))) mod (mThreadCount w + mAdoptedThreads w))
  = Z.of_nat victim ->
  (mThreadCount w + mAdoptedThreads w <> 0)%Z ->
  victim <> ref_index state ->
  mThreadStates w !! victim = Some sv -> workQueue sv = j :: q ->
  mJobPool w !! j = Some jb ->
  function jb = None -> runningJobCount jb = 1%Z -> parent_of jb = None ->
  (1 <= refCount jb < 2 ^ refCount_bits cfg - 1)%Z ->
  (1 <= mActiveJobs w < 2 ^ 32)%Z ->
  execute cfg rng invoke tid state w =
    Done true
      ((if (refCount jb =? 1)%Z then without_job j
        else with_job j (set_refCount (refCount jb - 1) (set_runningJobCount 0 jb)))
         (with_state victim (set_workQueue q sv)
            (with_state (ref_index state) (set_rndGen (snd (rng (rndGen s))) s)
               (set_mActiveJobs (mActiveJobs w - 1)
                  (log ([EvPop (ref_index state);
                         EvLoad A_mAdoptedThreads memory_order_relaxed;
                         EvSteal victim;
                         EvFetchSub A_mActiveJobs memory_order_relaxed;
                         EvFetchAdd (A_refCount j) memory_order_relaxed;
                         EvFetchSub (A_runningJobCount j) (release_order cfg)]
                        ++ acquire_fence cfg
                        ++ [EvFetchSub (A_refCount j) (release_order cfg)]
                        ++ (if ARM_ARCH_7A cfg then [EvDsb 0xA; EvSignalEvent] else [])
                        ++ decRef_events cfg j (refCount jb)) w))))).
Proof.
  intros Hjs Hs Hq Hdraw Hd Hv Hsv Hqv Hj Hf Hc Hp Hr Ha. unfold execute.
  rewrite (bind_eq _ _ _ _ _ (pop_empty _ _ _ Hjs Hs Hq)).
  assert (E : getStateToStealFrom cfg rng state (log [EvPop (ref_index state)] w)
              = Done (mkTSRef (this w) victim)
                  (with_state (ref_index state) (set_rndGen (snd (rng (rndGen s))) s)
                     (log [EvLoad A_mAdoptedThreads memory_order_relaxed]
                        (log [EvPop (ref_index state)] w)))).
  { pose proof (getStateToStealFrom_eq cfg rng state s
                  (log [EvPop (ref_index state)] w) Hjs Hs) as E.
    cbn zeta in E.
    change (mThreadCount (log [EvPop (ref_index state)] w)) with (mThreadCount w) in E.
    change (mAdoptedThreads (log [EvPop (ref_index state)] w)) with (mAdoptedThreads w) in E.
    change (this (log [EvPop (ref_index state)] w)) with (this w) in E.
    change (mThreadStates (log [EvPop (ref_index state)] w)) with (mThreadStates w) in E.
    rewrite Hdraw, Nat2Z.id in E. apply E; [exact Hd|].
    apply Nat2Z.inj_lt. eapply lookup_lt_Some, Hsv. }
  erewrite bind_eq.
  2:{ erewrite bind_eq by exact E.
      rewrite bool_decide_true by (destruct state; cbn in *; congruence).
      apply (steal_eq (mkTSRef (this w) victim) sv j q);
        [reflexivity
        |world_simpl; cbn [ref_index]; rewrite list_lookup_insert_ne by congruence; exact Hsv
        |exact Hqv]. }
  cbv iota. erewrite bind_eq by reflexivity.
  world_simpl. unfold assert.
  destruct (Z.eqb_spec (mActiveJobs w) 0); [lia|]. cbn [negb]. rewrite orb_true_r.
  erewrite bind_eq by reflexivity.
  erewrite bind_eq by (unfold load_job; cbn [mJobPool set_mJobPool set_trace set_mActiveJobs
                                             set_mThreadStates]; rewrite Hj; reflexivity).
  rewrite Hf. erewrite bind_eq by reflexivity.
  erewrite bind_eq.
  2:{ apply (finish_last cfg j jb); [exact Hj|exact Hc|exact Hp|exact Hr]. }
  unfold ret. f_equal. rewrite (to_uint32_small (mActiveJobs w - 1)) by lia.
  cbn [ref_index].
  destruct (refCount jb =? 1)%Z; world_ext; trace_eq.
Qed.

Lemma run_parts cfg tid job flags w :
  run cfg tid job flags w
  = (activeJobs <- run_put cfg tid job ;; run_rest cfg job flags activeJobs) w.
Proof.
  unfold run, run_put, run_rest, bind, ret.
  destruct (Pin_enter cfg job w) as [u w1| | | |]; try reflexivity.
  destruct (getState cfg tid w1) as [state w2| | | |]; try reflexivity.
  destruct (mActiveJobs_fetch_add memory_order_relaxed w2) as [a w3| | | |]; try reflexivity.
  destruct (ptr job w3) as [j w4| | | |]; try reflexivity.
  destruct (put cfg state j w4) as [u' w5| | | |]; reflexivity.
Qed.

Lemma run_put_eq cfg tid j jb state s w :
  mJobPool w !! j = Some jb ->
  (1 <= refCount jb < 2 ^ refCount_bits cfg - 1)%Z ->
  sThreadState w !! tid = Some state -> ref_js state = this w ->
  mThreadStates w !! ref_index state = Some s ->
  (Z.of_nat (length (workQueue s)) < MAX_JOB_COUNT cfg)%Z ->
  run_put cfg tid (Some j) w =
    Done (mActiveJobs w)
      (with_state (ref_index state) (set_workQueue (workQueue s ++ [j]) s)
         (set_mActiveJobs (to_uint32 (mActiveJobs w + 1))
            (with_job j (set_refCount (refCount jb + 1) jb)
               (log [EvFetchAdd (A_refCount j) memory_order_relaxed;
                     EvFetchAdd A_mActiveJobs memory_order_relaxed;
                     EvPut (ref_index state) j] w)))).
Proof.
  intros Hj Hrc Hst Hjs Hs Hcap. unfold run_put, Pin_enter.
  rewrite (bind_eq _ _ _ _ _ (incRef_eq _ _ _ _ Hj)).
  erewrite bind_eq by (apply getState_eq; exact Hst).
  erewrite bind_eq by reflexivity.
  erewrite bind_eq by reflexivity.
  erewrite bind_eq by (apply put_eq; [exact Hjs|exact Hs|exact Hcap]).
  rewrite (to_refCount_small cfg (refCount jb + 1)) by lia.
  unfold ret. f_equal. world_ext. trace_eq.
Qed.

Lemma run_rest_eq cfg j jb flags a w :
  mJobPool w !! j = Some jb -> (1 <= refCount jb < 2 ^ refCount_bits cfg)%Z ->
  run_rest cfg (Some j) flags a w =
    Done None
      ((if (refCount jb =? 1)%Z then without_job j
        else with_job j (set_refCount (refCount jb - 1) jb))
         (log (wake_up ((Z.land flags (DONT_SIGNAL cfg) =? 0)%Z && negb (a =? 0)%Z)
               ++ decRef_events cfg j (refCount jb)) w)).
Proof.
  intros Hj Hrc. unfold run_rest, Pin_exit.
  erewrite bind_eq by apply wake_up_eq.
  unfold bind at 1. erewrite decRef_eq by exact Hj. cbn zeta.
  destruct (Z.ltb_spec 0 (refCount jb)); [|lia]. rewrite orb_true_r.
  rewrite (to_refCount_small cfg (refCount jb - 1)) by lia.
  unfold decRef_events.
  destruct (refCount jb =? 1)%Z; unfold ret; f_equal; world_ext; try trace_eq.
  apply delete_insert_eq.
Qed.

(** X6: the Pin of run. run adds a reference to the job on entry and
    releases it at its end: it keeps none of its own. For a live job
    whose reference count is at least 1 and not at its maximum, and a
    caller whose queue has room, run gets as far as put, with the job
    queued. From there on:
    - when no other thread acts before run ends, run returns with the job
      pool as it was and destroys nothing; the job is the last entry of
      the caller's queue and active_jobs is one higher;
    - when another thread of the scheduler, whose queue is empty and
      whose draw of a victim is the caller's state, calls execute between
      put and the rest of run, it steals the job and finishes it (a job
      without function or parent and with one unit of work, alone in the
      caller's queue). The job is then complete and still live, with the
      reference count it had at the call: the Pin holds it. The rest of
      run releases the Pin and leaves one reference less than at the
      call; when the count was 1 at the call, the end of run destroys the
      job. The caller's queue is empty again and active_jobs is what it
      was before run. *)
Theorem run_pin_released (cfg : Config) (default_random_engine : N -> N * N)
    (invoke : JobFunc -> nat -> nat -> M unit) (tid j : nat) (jb : Job)
    (state : TSRef) (s : ThreadState) (flags : Z) (w : World) :
  mJobPool w !! j = Some jb ->
  (1 <= refCount jb < 2 ^ refCount_bits cfg - 1)%Z ->
  sThreadState w !! tid = Some state -> ref_js state = this w ->
  mThreadStates w !! ref_index state = Some s ->
  (Z.of_nat (length (workQueue s)) < MAX_JOB_COUNT cfg)%Z ->
  exists a w1,
    run_put cfg tid (Some j) w = Done a w1 /\
    (exists w',
       run_rest cfg (Some j) flags a w1 = Done None w' /\
       run cfg tid (Some j) flags w = Done None w' /\
       mJobPool w' = mJobPool w /\
       (workQueue <$> mThreadStates w' !! ref_index state) = Some (workQueue s ++ [j]) /\
       mActiveJobs w' = to_uint32 (mActiveJobs w + 1) /\
       forall k, EvDestroy k ∉ events_since w w') /\
    (forall thief_tid thief ts,
       sThreadState w !! thief_tid = Some thief -> ref_js thief = this w ->
       mThreadStates w !! ref_index thief = Some ts ->
       ref_index thief <> ref_index state ->
       workQueue ts = [] -> workQueue s = [] ->
       (mThreadCount w + mAdoptedThreads w <> 0)%Z ->
       to_uint16 (Z.of_N (fst (default_random_engine (rndGen ts)))
                  mod (mThreadCount w + mAdoptedThreads w))
       = Z.of_nat (ref_index state) ->
       function jb = None -> runningJobCount jb = 1%Z -> parent_of jb = None ->
       (refCount jb < 2 ^ refCount_bits cfg - 2)%Z ->
       (0 <= mActiveJobs w < 2 ^ 32 - 1)%Z ->
       exists w2 w3,
         execute cfg default_random_engine invoke thief_tid thief w1 = Done true w2 /\
         EvSteal (ref_index state) ∈ events_since w1 w2 /\
         mJobPool w2 = <[j := set_runningJobCount 0 jb]> (mJobPool w) /\
         run_rest cfg (Some j) flags a w2 = Done None w3 /\
         mJobPool w3
         = (if (refCount jb =? 1)%Z then delete j (mJobPool w)
            else <[j := set_refCount (refCount jb - 1) (set_runningJobCount 0 jb)]>
                   (mJobPool w)) /\
         (refCount jb = 1%Z -> EvDestroy j ∈ events_since w2 w3) /\
         (workQueue <$> mThreadStates w3 !! ref_index state) = Some [] /\
         mActiveJobs w3 = mActiveJobs w).
Proof.
  intros Hj Hrc Hst Hjs Hs Hcap.
  pose proof (run_put_eq cfg tid j jb state s w Hj Hrc Hst Hjs Hs Hcap) as Eput.
  pose proof (run_eq cfg tid j jb state s flags w Hj Hrc Hst Hjs Hs Hcap) as Erun.
  set (jb1 := set_refCount (refCount jb + 1) jb) in *.
  set (s1 := set_workQueue (workQueue s ++ [j]) s) in *.
  eexists _, _. split; [exact Eput|]. split.
  - eexists. split; [|split; [exact Erun|]].
    + rewrite <- Erun, run_parts. unfold bind at 1. rewrite Eput. reflexivity.
    + split; [reflexivity|]. split.
      { world_simpl. rewrite list_lookup_insert_eq by (eapply lookup_lt_Some, Hs).
        reflexivity. }
      split; [reflexivity|].
      intros k Hin. erewrite events_since_app in Hin by (world_simpl; reflexivity).
      unfold wake_up in Hin.
      destruct (_ && _); cbn in Hin;
        repeat (apply elem_of_cons in Hin as [Hin|Hin]; [discriminate Hin|]);
        apply elem_of_nil in Hin; exact Hin.
  - intros thief_tid thief ts Htst Htjs Hts Hne Hqt Hq Hd Hdraw Hf Hc Hp Hrc2 Ha.
    assert (Hlen : ref_index state < length (mThreadStates w))
      by (eapply lookup_lt_Some, Hs).
    erewrite (execute_steals cfg default_random_engine invoke thief_tid thief ts
                (ref_index state) s1 [] j jb1);
      [|exact Htjs
       |world_simpl; rewrite list_lookup_insert_ne by congruence; exact Hts
       |exact Hqt
       |exact Hdraw
       |exact Hd
       |congruence
       |world_simpl; apply list_lookup_insert_eq; exact Hlen
       |cbn; rewrite Hq; reflexivity
       |world_simpl; apply lookup_insert_eq
       |exact Hf|exact Hc|exact Hp|cbn; lia
       |world_simpl; rewrite to_uint32_small by lia; lia].
    change (refCount jb1) with (refCount jb + 1)%Z.
    destruct (Z.eqb_spec (refCount jb + 1) 1); [lia|].
    replace (refCount jb + 1 - 1)%Z with (refCount jb) by lia.
    eexists _, _. split; [reflexivity|]. split.
    { erewrite events_since_app by (world_simpl; reflexivity).
      do 2 apply list_elem_of_further. apply list_elem_of_here. }
    split.
    { world_simpl. rewrite insert_insert_eq. destruct jb. reflexivity. }
    erewrite (run_rest_eq cfg j (set_refCount (refCount jb) (set_runningJobCount 0 jb1)));
      [|world_simpl; apply lookup_insert_eq|cbn; lia].
    split; [reflexivity|].
    cbn [refCount set_refCount].
    split; [|split; [|split]].
    + destruct (refCount jb =? 1)%Z; world_simpl.
      * rewrite !delete_insert_eq. reflexivity.
      * rewrite !insert_insert_eq. destruct jb. reflexivity.
    + intros ->. erewrite events_since_app by (world_simpl; reflexivity).
      unfold decRef_events. cbn [Z.eqb Pos.eqb].
      rewrite !elem_of_app. right. apply list_elem_of_further. apply elem_of_app. right.
      apply list_elem_of_here.
    + destruct (refCount jb =? 1)%Z; world_simpl;
        rewrite list_lookup_insert_eq by (rewrite !length_insert; exact Hlen);
        reflexivity.
    + destruct (refCount jb =? 1)%Z; world_simpl;
        rewrite to_uint32_small by lia; lia.
Qed.

(** An instance: the adopted thread 100 runs job 0 of [Scenario.crew];
    left alone, and with worker 1 (thread 2) stealing the job before the
    Pin is released. *)
Lemma run_pin_released_witness :
  exists a w1 w' w2 w3,
    run_put Sample.debug_build 100 (Some 0) Scenario.crew = Done a w1 /\
    run Sample.debug_build 100 (Some 0) 0 Scenario.crew = Done None w' /\
    mJobPool w' = mJobPool Scenario.crew /\
    execute Sample.debug_build Sample.lcg Sample.no_effect 2 (mkTSRef 7 1) w1
    = Done true w2 /\
    run_rest Sample.debug_build (Some 0) 0 a w2 = Done None w3 /\
    mJobPool w3 = ∅.
Proof.
  destruct (run_pin_released Sample.debug_build Sample.lcg Sample.no_effect 100 0
              (mkJob None 0x7FFF 1 1) (mkTSRef 7 2) (ctor_state Sample.rd 2 2) 0
              Scenario.crew eq_refl ltac:(vm_compute; split; congruence) eq_refl eq_refl
              eq_refl ltac:(vm_compute; reflexivity))
    as (a & w1 & Hput & (w' & _ & Hrun & Hpool & _) & Hthief).
  destruct (Hthief 2 (mkTSRef 7 1) (ctor_state Sample.rd 2 1) eq_refl eq_refl eq_refl
              ltac:(cbn; congruence) eq_refl eq_refl ltac:(vm_compute; congruence)
              ltac:(vm_compute; reflexivity) eq_refl eq_refl eq_refl
              ltac:(vm_compute; reflexivity) ltac:(vm_compute; split; congruence))
    as (w2 & w3 & He & _ & _ & Hrest & Hpool3 & _).
  exists a, w1, w', w2, w3.
  split; [exact Hput|]. split; [exact Hrun|]. split; [exact Hpool|].
  split; [exact He|]. split; [exact Hrest|].
  rewrite Hpool3. vm_compute. reflexivity.
Defined.

Lemma wait_finished cfg rng invoke fuel tid state j jb w :
  Inv w ->
  sThreadState w !! tid = Some state -> ref_js state = this w ->
  (forall i s, mThreadStates w !! i = Some s -> workQueue s = []) ->
  mJobPool w !! j = Some jb -> (runningJobCount jb <= 0)%Z -> refCount jb = 1%Z ->
  exists s events,
    mThreadStates w !! ref_index state = Some s /\
    execute cfg rng invoke tid state w
    = Done false (with_state (ref_index state) (set_rndGen (snd (rng (rndGen s))) s)
                    (log events w)) /\
    wait cfg rng invoke (S fuel) tid (Some j) w
    = Done None
        (without_job j
           (with_state (ref_index state) (set_rndGen (snd (rng (rndGen s))) s)
              (log (events ++ [EvWaitForEvent;
                               EvLoad (A_runningJobCount j) memory_order_relaxed]
                    ++ decRef_events cfg j 1) w))) /\
    (forall f k, EvCall f k ∉ events).
Proof.
  intros HI Hst Hjs Hempty Hj Hc Hr.
  destruct (execute_idle_eq cfg rng invoke tid state w HI Hst Hjs Hempty)
    as (s & events & Hs & E & _ & _ & Hcall & _).
  exists s, events. split; [exact Hs|]. split; [exact E|]. split; [|exact Hcall].
  unfold wait. rewrite bool_decide_true by eauto. unfold assert. rewrite orb_true_r.
  erewrite bind_eq by reflexivity.
  erewrite bind_eq by (apply getState_eq; exact Hst).
  erewrite bind_eq.
  2:{ cbn [do_while]. unfold wait_body.
      erewrite bind_eq.
      2:{ erewrite bind_eq by exact E. reflexivity. }
      erewrite bind_eq
        by (apply (wait_condition_done j jb); [world_simpl; exact Hj|exact Hc]).
      reflexivity. }
  erewrite bind_eq.
  2:{ erewrite decRef_eq by (world_simpl; exact Hj).
      cbn zeta. rewrite Hr. cbn [Z.ltb Z.compare Z.eqb Pos.eqb]. rewrite orb_true_r.
      reflexivity. }
  unfold ret. apply (f_equal (Done None)). unfold decRef_events, UTILS_WAIT_FOR_EVENT, emit.
  cbn [Z.eqb Pos.eqb]. world_ext.
  - apply delete_insert_eq.
  - trace_eq.
Qed.

Lemma Inv_crew : Inv Scenario.crew.
Proof.
  unfold Inv. cbn. repeat split; try lia.
  intros tid r Hr Hjs.
  apply lookup_insert_Some in Hr as [[<- <-]|[_ Hr]]; [cbn; lia|].
  apply lookup_insert_Some in Hr as [[<- <-]|[_ Hr]]; [cbn; lia|].
  apply lookup_insert_Some in Hr as [[<- <-]|[_ Hr]]; [cbn; lia|].
  rewrite lookup_empty in Hr. discriminate Hr.
Qed.

Lemma crew_queues_empty i s :
  mThreadStates Scenario.crew !! i = Some s -> workQueue s = [].
Proof. exact (started_queues_empty i s). Qed.



(** ** Adopting, emancipating and adopting again *)

Lemma to_uint16_small z : (0 <= z < 2 ^ 16)%Z -> to_uint16 z = z.
Proof. intros H. unfold to_uint16, wrap_unsigned. apply Z.mod_small. exact H. Qed.

Lemma emancipate_member tid w r :
  sThreadState w !! tid = Some r -> ref_js r = this w ->
  emancipate tid w = Done tt (set_sThreadState (delete tid (sThreadState w)) w).
Proof.
  intros Hr Hjs. pose proof (emancipate_spec tid w) as E. rewrite Hr in E.
  rewrite bool_decide_true in E by exact Hjs. exact E.
Qed.

Lemma emancipate_inv tid w w' :
  emancipate tid w = Done tt w' ->
  exists r, sThreadState w !! tid = Some r /\ ref_js r = this w /\
    w' = set_sThreadState (delete tid (sThreadState w)) w.
Proof.
  intros H. pose proof (emancipate_spec tid w) as E.
  destruct (sThreadState w !! tid) as [r|]; [|rewrite E in H; discriminate H].
  case_bool_decide; rewrite E in H; [|discriminate H].
  injection H as <-. eauto.
Qed.

(** X9: adopt is idempotent. After a call of adopt that returned, the
    thread belongs to this scheduler (getJobSystem yields it), and
    another call of adopt on the same thread returns without changing
    anything: it takes no second slot. *)
Theorem adopt_idempotent (tid : nat) (w w1 : World) :
  adopt tid w = Done tt w1 ->
  getJobSystem tid w1 = Done (Some (this w1)) w1 /\
  adopt tid w1 = Done tt w1.
Proof.
  intros H.
  assert (exists r, sThreadState w1 !! tid = Some r /\ ref_js r = this w1) as (r & Hr & Hjs).
  { destruct (sThreadState w !! tid) as [state|] eqn:Hst.
    - destruct (decide (ref_js state = this w)) as [Hjs|Hjs].
      + rewrite (adopt_member _ _ _ Hst Hjs) in H. injection H as <-. eauto.
      + destruct (adopt_foreign _ _ _ Hst Hjs) as [msg E]. rewrite E in H. discriminate H.
    - destruct (Z.lt_ge_cases (mThreadCount w + mAdoptedThreads w)
                  (Z.of_nat (length (mThreadStates w)))) as [Hlt|Hge].
      + rewrite (adopt_slot _ _ Hst Hlt) in H. injection H as <-.
        eexists. split; [world_simpl; apply lookup_insert_eq|reflexivity].
      + destruct (adopt_exhausted _ _ Hst Hge) as [msg E]. rewrite E in H. discriminate H. }
  split; [unfold getJobSystem; rewrite Hr, Hjs; reflexivity|].
  exact (adopt_member _ _ _ Hr Hjs).
Qed.

(** An instance: thread 200 adopts twice on [Sample.idle]. *)
Lemma adopt_idempotent_witness :
  exists w1, adopt 200 Sample.idle = Done tt w1 /\ adopt 200 w1 = Done tt w1 /\
    mAdoptedThreads w1 = 1%Z.
Proof.
  eexists. split; [vm_compute; reflexivity|].
  match goal with
  | |- adopt 200 ?w1 = _ /\ _ =>
      destruct (adopt_idempotent 200 Sample.idle w1 ltac:(vm_compute; reflexivity)) as [_ H]
  end.
  split; [exact H|reflexivity].
Defined.

(** X10: emancipate does not give the slot back. A thread without
    thread-local pointer that adopts gets the slot after the workers and
    the earlier adoptions; emancipate clears its thread-local pointer but
    leaves the count of adopted threads one higher; when the same thread
    adopts again it gets the next slot, and when there is no next slot
    adopt panics although no thread uses the first one. *)
Theorem adopt_after_emancipate (tid : nat) (w : World) :
  sThreadState w !! tid = None ->
  (0 <= mThreadCount w)%Z -> (0 <= mAdoptedThreads w < 2 ^ 16 - 1)%Z ->
  let index := (mThreadCount w + mAdoptedThreads w)%Z in
  (index < Z.of_nat (length (mThreadStates w)))%Z ->
  exists w1 w2,
    adopt tid w = Done tt w1 /\
    sThreadState w1 !! tid = Some (mkTSRef (this w) (Z.to_nat index)) /\
    emancipate tid w1 = Done tt w2 /\
    sThreadState w2 !! tid = None /\
    mAdoptedThreads w2 = (mAdoptedThreads w + 1)%Z /\
    ((index + 1 < Z.of_nat (length (mThreadStates w)))%Z ->
     exists w3, adopt tid w2 = Done tt w3 /\
       sThreadState w3 !! tid = Some (mkTSRef (this w) (Z.to_nat (index + 1)))) /\
    ((Z.of_nat (length (mThreadStates w)) <= index + 1)%Z ->
     exists msg w3, adopt tid w2 = Panic msg w3).
Proof.
  intros Hnone Htc Had index Hidx.
  rewrite (adopt_slot _ _ Hnone Hidx). fold index.
  rewrite (to_uint16_small (mAdoptedThreads w + 1)) by lia.
  eexists _, _. split; [reflexivity|].
  split; [world_simpl; apply lookup_insert_eq|].
  split.
  { eapply emancipate_member; [world_simpl; apply lookup_insert_eq|reflexivity]. }
  world_simpl. rewrite delete_insert_eq.
  assert (Hnone' : delete tid (sThreadState w) !! tid = None) by apply lookup_delete_eq.
  split; [exact Hnone'|]. split; [reflexivity|]. split.
  - intros Hroom. erewrite adopt_slot; [|exact Hnone'|world_simpl; lia].
    eexists. split; [reflexivity|]. world_simpl. rewrite lookup_insert_eq.
    unfold index. do 3 f_equal. lia.
  - intros Hfull.
    match goal with
    | |- exists msg w3, adopt tid ?W = _ =>
        destruct (adopt_exhausted tid W) as [msg E];
          [exact Hnone'|world_simpl; lia|rewrite E; eauto]
    end.
Qed.

(** An instance: thread 200 on [Sample.idle], which has one adoptable
    slot: the second adoption panics. *)
Lemma adopt_after_emancipate_witness :
  exists w1 w2 msg w3,
    adopt 200 Sample.idle = Done tt w1 /\ emancipate 200 w1 = Done tt w2 /\
    adopt 200 w2 = Panic msg w3.
Proof.
  destruct (adopt_after_emancipate 200 Sample.idle eq_refl ltac:(vm_compute; congruence)
              ltac:(vm_compute; split; congruence) ltac:(vm_compute; reflexivity))
    as (w1 & w2 & Ha & _ & He & _ & _ & _ & Hfull).
  destruct Hfull as (msg & w3 & Hp); [vm_compute; congruence|].
  exists w1, w2, msg, w3. split; [exact Ha|]. split; [exact He|exact Hp].
Defined.

Lemma assert_inv cfg c w u w' : assert cfg c w = Done u w' -> w' = w.
Proof.
  unfold assert, ret, panic. destruct (NDEBUG cfg || c); [|discriminate].
  intros [= _ <-]. reflexivity.
Qed.

(** X11: a thread that emancipated is no longer served. After a call of
    emancipate that returned, getJobSystem yields null on that thread,
    and no call of run, runAndRetain, wait or emancipate by that thread
    returns: each fails on the missing thread state (with a panic when
    assertions are compiled in, and with undefined behaviour otherwise,
    for run, runAndRetain and wait). *)
Theorem emancipate_ends_service (cfg : Config) (default_random_engine : N -> N * N)
    (invoke : JobFunc -> nat -> nat -> M unit) (tid : nat) (w w1 : World) :
  emancipate tid w = Done tt w1 ->
  getJobSystem tid w1 = Done None w1 /\
  (forall job flags h w', run cfg tid job flags w1 <> Done h w') /\
  (forall job flags h w', runAndRetain cfg tid job flags w1 <> Done h w') /\
  (forall fuel job h w',
     wait cfg default_random_engine invoke fuel tid job w1 <> Done h w') /\
  (forall w', emancipate tid w1 <> Done tt w') /\
  (forall j jb flags,
     mJobPool w1 !! j = Some jb ->
     exists w',
       run cfg tid (Some j) flags w1 = (if NDEBUG cfg then Undefined else Panic "assert" w')).
Proof.
  intros H. apply emancipate_inv in H as (r & _ & _ & ->).
  set (w1 := set_sThreadState (delete tid (sThreadState w)) w).
  assert (Hnone : sThreadState w1 !! tid = None) by apply lookup_delete_eq.
  split; [unfold getJobSystem; rewrite Hnone; reflexivity|].
  split.
  { intros job flags h w' H.
    destruct (run_inv _ _ _ _ _ _ _ H) as (? & ? & ? & ? & _ & _ & _ & Hst & _). congruence. }
  split.
  { intros job flags h w' H. unfold runAndRetain in H.
    bind_inv H as u w2 H2. bind_inv H as h' w3 H3.
    destruct (run_inv _ _ _ _ _ _ _ H3) as (? & ? & ? & ? & _ & _ & _ & Hst & _).
    destruct (frames_incRef _ _ _ _ _ H2) as (_ & _ & _ & _ & Etls). congruence. }
  split.
  { intros fuel job h w' H. unfold wait in H.
    bind_inv H as u w2 H2. apply assert_inv in H2 as ->.
    bind_inv H as state w3 H3. apply getState_inv in H3 as [_ Hst]. congruence. }
  split.
  { intros w' H. apply emancipate_inv in H as (r' & Hr' & _). congruence. }
  intros j jb flags Hj. unfold run, Pin_enter.
  rewrite (bind_eq _ _ _ _ _ (incRef_eq _ _ _ _ Hj)).
  unfold bind at 1, getState, bind at 1, assert. world_simpl. fold w1. rewrite Hnone.
  rewrite (bool_decide_false (is_Some None)) by (intros [? ?]; discriminate).
  destruct (NDEBUG cfg); [exists w1; reflexivity|eexists; reflexivity].
Qed.

(** An instance: the adopted thread 100 of [Sample.started] leaves. *)
Lemma emancipate_ends_service_witness :
  exists w1, emancipate 100 Sample.started = Done tt w1 /\
    getJobSystem 100 w1 = Done None w1 /\
    forall h w', run Sample.debug_build 100 (Some 0) 0 w1 <> Done h w'.
Proof.
  eexists. split; [vm_compute; reflexivity|].
  match goal with
  | |- getJobSystem 100 ?w1 = _ /\ _ =>
      destruct (emancipate_ends_service Sample.debug_build Sample.lcg Sample.no_effect
                  100 Sample.started w1 ltac:(vm_compute; reflexivity)) as (Hg & Hrun & _)
  end.
  split; [exact Hg|]. intros h w'. apply Hrun.
Defined.

(** ** Adopted threads do not share a slot *)

Section Preserved.

Variable cfg : Config.
Variable default_random_engine : N -> N * N.
Variable invoke : JobFunc -> nat -> nat -> M unit.

(** A property of the thread bookkeeping that job functions keep. *)
Variable P : World -> Prop.
Hypothesis P_same_threads : forall w w', same_threads w w' -> P w -> P w'.
Hypothesis invoke_P : forall f tid j, preserves P (invoke f tid j).

Lemma frames_preserves {A} (m : M A) : frames m -> preserves P m.
Proof. intros H w a w' HP E. eapply P_same_threads; [eapply H, E|exact HP]. Qed.

Lemma execute_preserves tid state :
  preserves P (execute cfg default_random_engine invoke tid state).
Proof.
  unfold execute.
  apply preserves_bind; [apply frames_preserves; auto with frames|intros job].
  apply preserves_bind.
  { destruct job; apply frames_preserves; frames_tac. }
  intros [j|]; [|apply frames_preserves; auto with frames].
  apply preserves_bind; [apply frames_preserves; auto with frames|intros a].
  apply preserves_bind; [apply frames_preserves; auto with frames|intros _].
  apply preserves_bind; [apply frames_preserves; auto with frames|intros jb].
  apply preserves_bind.
  { destruct (function jb); [|apply frames_preserves; auto with frames].
    apply preserves_bind; [apply frames_preserves; auto with frames|intros _].
    apply invoke_P. }
  intros _. apply frames_preserves. frames_tac.
Qed.

Lemma wait_preserves fuel tid job :
  preserves P (wait cfg default_random_engine invoke fuel tid job).
Proof.
  unfold wait.
  apply preserves_bind; [apply frames_preserves; auto with frames|intros _].
  apply preserves_bind; [apply frames_preserves; auto with frames|intros state].
  apply preserves_bind.
  { induction fuel as [|fuel' IH]; cbn [do_while].
    - intros w a w' _ H. discriminate H.
    - apply preserves_bind.
      { unfold wait_body. apply preserves_bind; [apply execute_preserves|intros ran].
        apply frames_preserves. unfold UTILS_WAIT_FOR_EVENT. frames_tac. }
      intros _. apply preserves_bind.
      { apply frames_preserves. unfold wait_condition. frames_tac. }
      intros again. destruct again; [exact IH|apply frames_preserves, frames_ret]. }
  intros _. apply frames_preserves. frames_tac.
Qed.

End Preserved.

Lemma same_threads_Apart n w w' : same_threads w w' -> Apart n w -> Apart n w'.
Proof.
  intros (E1 & E2 & E3 & E4 & E5) HA Hn. rewrite E2 in Hn.
  destruct (HA Hn) as (A1 & A2 & A3 & A4).
  unfold adopted_apart. rewrite E1, E2, E3, E4, E5. auto.
Qed.

Lemma adopt_Apart n tid : preserves (Apart n) (adopt tid).
Proof.
  intros w a w' HA H.
  destruct (sThreadState w !! tid) as [state|] eqn:Hst.
  - destruct (decide (ref_js state = this w)) as [Hjs|Hjs].
    + rewrite (adopt_member _ _ _ Hst Hjs) in H. injection H as <- <-. exact HA.
    + destruct (adopt_foreign _ _ _ Hst Hjs) as [msg E]. rewrite E in H. discriminate H.
  - destruct (Z.lt_ge_cases (mThreadCount w + mAdoptedThreads w)
                (Z.of_nat (length (mThreadStates w)))) as [Hlt|Hge].
    + rewrite (adopt_slot _ _ Hst Hlt) in H. injection H as <- <-.
      unfold Apart, adopted_apart. world_simpl. intros Hn.
      destruct (HA Hn) as (A1 & A2 & A3 & A4).
      assert (Hu : to_uint16 (mAdoptedThreads w + 1) = (mAdoptedThreads w + 1)%Z)
        by (apply to_uint16_small; lia).
      rewrite Hu. split; [exact A1|]. split; [lia|]. split.
      * intros t r Hr Hjs. destruct (decide (t = tid)) as [->|Hne].
        -- rewrite lookup_insert_eq in Hr. injection Hr as <-. cbn. lia.
        -- rewrite lookup_insert_ne in Hr by congruence.
           specialize (A3 _ _ Hr Hjs). lia.
      * intros t1 t2 r Hne H1 H2 Hjs.
        destruct (decide (t1 = tid)) as [->|Hn1].
        -- rewrite lookup_insert_eq in H1. injection H1 as <-.
           rewrite lookup_insert_ne in H2 by congruence.
           specialize (A3 _ _ H2 eq_refl). cbn in A3. lia.
        -- rewrite lookup_insert_ne in H1 by congruence.
           destruct (decide (t2 = tid)) as [->|Hn2].
           ++ rewrite lookup_insert_eq in H2. injection H2 as <-.
              specialize (A3 _ _ H1 eq_refl). cbn in A3. lia.
           ++ rewrite lookup_insert_ne in H2 by congruence. eauto.
    + destruct (adopt_exhausted _ _ Hst Hge) as [msg E]. rewrite E in H. discriminate H.
Qed.

(** A call of adopt that panics is counted: the bookkeeping of [n]
    panics becomes that of [S n]. *)
Lemma adopt_panics_Apart n tid w msg w' :
  Apart n w -> adopt tid w = Panic msg w' -> Apart (S n) w'.
Proof.
  intros HA H. apply adopt_panics_inv in H as [->|(Hst & Hge & ->)].
  - intros Hn. destruct HA as (A1 & A2 & A3 & A4); [lia|].
    split; [exact A1|]. split; [lia|]. split; assumption.
  - unfold Apart, adopted_apart. world_simpl. intros Hn.
    destruct HA as (A1 & A2 & A3 & A4); [lia|].
    assert (Hu : to_uint16 (mAdoptedThreads w + 1) = (mAdoptedThreads w + 1)%Z)
      by (apply to_uint16_small; lia).
    rewrite Hu. split; [exact A1|]. split; [lia|]. split.
    + intros t r Hr Hjs. specialize (A3 _ _ Hr Hjs). lia.
    + exact A4.
Qed.

Lemma emancipate_Apart n tid : preserves (Apart n) (emancipate tid).
Proof.
  intros w a w' HA H. destruct a. apply emancipate_inv in H as (r & _ & _ & ->).
  unfold Apart, adopted_apart. world_simpl. intros Hn.
  destruct (HA Hn) as (A1 & A2 & A3 & A4).
  split; [exact A1|]. split; [exact A2|]. split.
  - intros t r' Hr Hjs. apply lookup_delete_Some in Hr as [_ Hr]. eauto.
  - intros t1 t2 r' Hne H1 H2 Hjs.
    apply lookup_delete_Some in H1 as [_ H1]. apply lookup_delete_Some in H2 as [_ H2].
    eauto.
Qed.

Lemma loop_enter_Apart n tid i w w' :
  Apart n w -> (Z.of_nat i < mThreadCount w)%Z ->
  loop_enter tid (mkTSRef (this w) i) w = Done tt w' -> Apart n w'.
Proof.
  intros HA Hi H. injection H as <-.
  unfold Apart, adopted_apart. world_simpl. intros Hn.
  destruct (HA Hn) as (A1 & A2 & A3 & A4).
  split; [exact A1|]. split; [exact A2|]. split.
  - intros t r Hr Hjs. destruct (decide (t = tid)) as [->|Hne].
    + rewrite lookup_insert_eq in Hr. injection Hr as <-. cbn. lia.
    + rewrite lookup_insert_ne in Hr by congruence. eauto.
  - intros t1 t2 r Hne H1 H2 Hjs.
    destruct (decide (t1 = tid)) as [->|Hn1].
    + rewrite lookup_insert_eq in H1. injection H1 as <-. exact Hi.
    + rewrite lookup_insert_ne in H1 by congruence.
      destruct (decide (t2 = tid)) as [->|Hn2].
      * rewrite lookup_insert_eq in H2. injection H2 as <-. exact Hi.
      * rewrite lookup_insert_ne in H2 by congruence. eauto.
Qed.

Lemma ctor_Apart cfg self tls hwThreads rd threadCount adoptable w :
  (forall t r, tls !! t = Some r -> ref_js r <> self) ->
  JobSystem_ctor cfg self tls hwThreads rd threadCount adoptable = Done tt w ->
  Apart 0 w.
Proof.
  intros Htls H _. unfold JobSystem_ctor in H. destruct (_ <? _)%Z; [discriminate|].
  injection H as <-. unfold adopted_apart. cbn.
  split; [apply Z.mod_pos_bound; lia|]. split; [lia|]. split.
  - intros t r Hr Hjs. exfalso. exact (Htls _ _ Hr Hjs).
  - intros t1 t2 r _ Hr _ Hjs. exfalso. exact (Htls _ _ Hr Hjs).
Qed.

Lemma reachable_Apart cfg rng invoke n w :
  (forall m f t j, preserves (Apart m) (invoke f t j)) ->
  reachable cfg rng invoke n w -> Apart n w.
Proof.
  intros Hinvoke. induction 1.
  - eapply ctor_Apart; eassumption.
  - eapply loop_enter_Apart; cycle 2; [eassumption|assumption..].
  - eapply adopt_Apart; eassumption.
  - eapply emancipate_Apart; eassumption.
  - eapply (frames_preserves _ (same_threads_Apart n) _ (frames_requestExit cfg)); eassumption.
  - eapply (frames_preserves _ (same_threads_Apart n) _ (frames_create cfg _ _)); eassumption.
  - eapply (frames_preserves _ (same_threads_Apart n) _ (frames_run cfg _ _ _)); eassumption.
  - eapply (frames_preserves _ (same_threads_Apart n) _ (frames_runAndRetain cfg _ _ _));
      eassumption.
  - eapply (wait_preserves cfg rng invoke _ (same_threads_Apart n) (Hinvoke n)); eassumption.
  - eapply (execute_preserves cfg rng invoke _ (same_threads_Apart n) (Hinvoke n));
      eassumption.
  - eapply adopt_panics_Apart; eassumption.
  - match goal with
    | Hp : emancipate _ _ = Panic _ _ |- _ => apply emancipate_panics_inv in Hp as ->
    end.
    assumption.
Qed.

(** X12: adopted threads do not share a slot while the count of adopted
    threads has not wrapped. In every world the scheduler reaches through
    the constructor and the member functions, calls of adopt and
    emancipate that panic included, with [n] panicked calls of adopt and
    [n] plus the number of thread states below 2^16: when the
    thread-local pointer of a thread refers to a slot of this scheduler
    past the workers' slots, no other thread has a thread-local pointer
    to the same slot. (adopt adds to the 16-bit count before it checks
    for a free slot, so each panicking call uses up one value of the
    count; the bound keeps the count from wrapping round to slots that
    are taken.) *)
Theorem adopted_slots_apart (cfg : Config) (default_random_engine : N -> N * N)
    (invoke : JobFunc -> nat -> nat -> M unit) (n : nat) (w : World) (t1 t2 : nat)
    (r1 r2 : TSRef) :
  (forall m f t j, preserves (Apart m) (invoke f t j)) ->
  reachable cfg default_random_engine invoke n w ->
  (Z.of_nat n + Z.of_nat (length (mThreadStates w)) < 2 ^ 16)%Z ->
  t1 <> t2 ->
  sThreadState w !! t1 = Some r1 -> sThreadState w !! t2 = Some r2 ->
  ref_js r1 = this w -> (mThreadCount w <= Z.of_nat (ref_index r1))%Z ->
  r1 <> r2.
Proof.
  intros Hinvoke Hreach Hn Hne H1 H2 Hjs Hslot ->.
  destruct (reachable_Apart _ _ _ _ _ Hinvoke Hreach Hn) as (_ & _ & _ & Ha).
  specialize (Ha _ _ _ Hne H1 H2 Hjs). lia.
Qed.

(** An instance: a scheduler with one worker and two adoptable slots,
    after threads 100 and 200 were adopted and the adoption of thread 300
    panicked. *)
Lemma adopted_slots_apart_witness :
  exists w r1 r2,
    reachable Sample.debug_build Sample.lcg Sample.no_effect 1 w /\
    sThreadState w !! 100 = Some r1 /\ sThreadState w !! 200 = Some r2 /\ r1 <> r2.
Proof.
  let t := eval vm_compute in
    (match JobSystem_ctor Sample.debug_build 7 ∅ 4 Sample.rd 0 2 with
     | Done _ w0 => w0
     | _ => Sample.idle
     end) in pose (w0 := t).
  assert (Ec : JobSystem_ctor Sample.debug_build 7 ∅ 4 Sample.rd 0 2 = Done tt w0)
    by (vm_compute; reflexivity).
  let t := eval vm_compute in
    (match adopt 100 w0 with Done _ w => w | _ => Sample.idle end) in pose (w1 := t).
  assert (Ea : adopt 100 w0 = Done tt w1) by (vm_compute; reflexivity).
  let t := eval vm_compute in
    (match adopt 200 w1 with Done _ w => w | _ => Sample.idle end) in pose (w2 := t).
  assert (Eb : adopt 200 w1 = Done tt w2) by (vm_compute; reflexivity).
  let t := eval vm_compute in
    (match adopt 300 w2 with Panic _ w => w | _ => Sample.idle end) in pose (w3 := t).
  assert (Ep : adopt 300 w2
               = Panic "Too many calls to adopt(). No more adoptable threads!" w3)
    by (vm_compute; reflexivity).
  assert (Hreach : reachable Sample.debug_build Sample.lcg Sample.no_effect 1 w3).
  { eapply reach_adopt_panics; [|exact Ep].
    eapply reach_adopt; [|exact Eb]. eapply reach_adopt; [|exact Ea].
    eapply reach_ctor; [| | | |exact Ec]; vm_compute; congruence. }
  assert (Hinv : forall m f t j, preserves (Apart m) (Sample.no_effect f t j)).
  { intros m f t j w' a w'' HI [= _ <-]. exact HI. }
  exists w3, (mkTSRef 7 1), (mkTSRef 7 2).
  split; [exact Hreach|]. split; [vm_compute; reflexivity|].
  split; [vm_compute; reflexivity|].
  apply (adopted_slots_apart Sample.debug_build Sample.lcg Sample.no_effect 1 w3 100 200);
    [exact Hinv|exact Hreach|vm_compute; reflexivity|congruence
    |vm_compute; reflexivity|vm_compute; reflexivity|reflexivity|vm_compute; congruence].
Defined.

(** ** The exit flag *)

Lemma keeps_exit_ret {A} (a : A) : keeps_exit (ret a).
Proof. intros w a' w' [= <- <-]. reflexivity. Qed.

Lemma keeps_exit_bind {A B} (m : M A) (k : A -> M B) :
  keeps_exit m -> (forall a, keeps_exit (k a)) -> keeps_exit (bind m k).
Proof.
  intros Hm Hk w b w' H. bind_inv H as a w1 H1.
  rewrite (Hk _ _ _ _ H). exact (Hm _ _ _ H1).
Qed.

Lemma keeps_exit_apply {A} (m : M A) w a w' :
  keeps_exit m -> m w = Done a w' -> mExitRequested w' = mExitRequested w.
Proof. intros H E. exact (H w a w' E). Qed.

Lemma keeps_exit_undefined {A} : keeps_exit (@undefined A).
Proof. intros w a w' H. discriminate H. Qed.

Lemma keeps_exit_panic {A} msg : keeps_exit (@panic A msg).
Proof. intros w a w' H. discriminate H. Qed.

Lemma keeps_exit_OutOfFuel {A} : keeps_exit (fun _ : World => @OutOfFuel A).
Proof. intros w a w' H. discriminate H. Qed.

Lemma keeps_exit_emit e : keeps_exit (emit e).
Proof. intros w a w' [= <- <-]. reflexivity. Qed.

Lemma keeps_exit_load_job j : keeps_exit (load_job j).
Proof.
  intros w a w'. unfold load_job. destruct (mJobPool w !! j); [|discriminate].
  intros [= <- <-]. reflexivity.
Qed.

Lemma keeps_exit_store_job j jb : keeps_exit (store_job j jb).
Proof. intros w a w' [= <- <-]. reflexivity. Qed.

Lemma keeps_exit_load_state r : keeps_exit (load_state r).
Proof. intros w a w' H. apply load_state_inv in H as (-> & _). reflexivity. Qed.

Lemma keeps_exit_store_state r s : keeps_exit (store_state r s).
Proof. intros w a w' [= <- <-]. reflexivity. Qed.

Lemma keeps_exit_mThreadStates_at i : keeps_exit (mThreadStates_at i).
Proof.
  intros w a w'. unfold mThreadStates_at. destruct (_ <=? _)%Z; [discriminate|].
  intros [= <- <-]. reflexivity.
Qed.

Lemma keeps_exit_mActiveJobs_fetch_add mo : keeps_exit (mActiveJobs_fetch_add mo).
Proof. intros w a w' [= <- <-]. reflexivity. Qed.

Lemma keeps_exit_mActiveJobs_fetch_sub mo : keeps_exit (mActiveJobs_fetch_sub mo).
Proof. intros w a w' [= <- <-]. reflexivity. Qed.

Lemma keeps_exit_mActiveJobs_load mo : keeps_exit (mActiveJobs_load mo).
Proof. intros w a w' [= <- <-]. reflexivity. Qed.

Lemma keeps_exit_mAdoptedThreads_load mo : keeps_exit (mAdoptedThreads_load mo).
Proof. intros w a w' [= <- <-]. reflexivity. Qed.

Lemma keeps_exit_mAdoptedThreads_fetch_add mo : keeps_exit (mAdoptedThreads_fetch_add mo).
Proof. intros w a w' [= <- <-]. reflexivity. Qed.

Lemma keeps_exit_mExitRequested_load mo : keeps_exit (mExitRequested_load mo).
Proof. intros w a w' [= <- <-]. reflexivity. Qed.

Lemma keeps_exit_allocateJob cfg : keeps_exit (allocateJob cfg).
Proof.
  intros w a w'. rewrite allocateJob_eq. destruct (free_slot cfg (mJobPool w));
    intros [= <- <-]; reflexivity.
Qed.

Lemma keeps_exit_destroy j : keeps_exit (destroy j).
Proof. intros w a w' [= <- <-]. reflexivity. Qed.

Lemma keeps_exit_assert cfg c : keeps_exit (assert cfg c).
Proof.
  unfold assert. destruct (NDEBUG cfg || c); [apply keeps_exit_ret|apply keeps_exit_panic].
Qed.

Lemma keeps_exit_ASSERT_PRECONDITION c msg : keeps_exit (ASSERT_PRECONDITION c msg).
Proof. destruct c; [apply keeps_exit_ret|apply keeps_exit_panic]. Qed.

Lemma keeps_exit_ASSERT_POSTCONDITION c msg : keeps_exit (ASSERT_POSTCONDITION c msg).
Proof. destruct c; [apply keeps_exit_ret|apply keeps_exit_panic]. Qed.

Lemma keeps_exit_ptr p : keeps_exit (ptr p).
Proof. destruct p; [apply keeps_exit_ret|apply keeps_exit_undefined]. Qed.

Lemma keeps_exit_set_sThreadState (f : World -> gmap nat TSRef) :
  keeps_exit (fun w => Done tt (set_sThreadState (f w) w)).
Proof. intros w a w' [= <- <-]. reflexivity. Qed.

Create HintDb exit.

#[local] Hint Resolve keeps_exit_ret keeps_exit_undefined keeps_exit_panic
  keeps_exit_OutOfFuel keeps_exit_emit keeps_exit_load_job keeps_exit_store_job
  keeps_exit_load_state keeps_exit_store_state keeps_exit_mThreadStates_at
  keeps_exit_mActiveJobs_fetch_add keeps_exit_mActiveJobs_fetch_sub
  keeps_exit_mActiveJobs_load keeps_exit_mAdoptedThreads_load
  keeps_exit_mAdoptedThreads_fetch_add keeps_exit_mExitRequested_load
  keeps_exit_allocateJob keeps_exit_destroy keeps_exit_assert
  keeps_exit_ASSERT_PRECONDITION keeps_exit_ASSERT_POSTCONDITION keeps_exit_ptr
  keeps_exit_set_sThreadState : exit.

Ltac exit_tac :=
  repeat first
    [ solve [auto with exit]
    | match goal with
      | |- keeps_exit (bind _ _) => apply keeps_exit_bind; [|intros ?]
      | |- keeps_exit (match ?x with _ => _ end) => destruct x
      | |- keeps_exit (when ?b _) => destruct b; cbn [when]
      | |- keeps_exit (let _ := _ in _) => cbv zeta
      end ].

Ltac exit_in_world :=
  let w := fresh "w" in
  let H := fresh "H" in
  intros w ? ? H; cbv beta in H; eapply keeps_exit_apply; [|exact H]; exit_tac.

Lemma keeps_exit_incRef cfg job : keeps_exit (incRef cfg job).
Proof. unfold incRef, refCount_fetch_add. exit_tac. Qed.

Lemma keeps_exit_decRef cfg job : keeps_exit (decRef cfg job).
Proof. unfold decRef, refCount_fetch_sub. exit_tac. Qed.

#[local] Hint Resolve keeps_exit_incRef keeps_exit_decRef : exit.

Lemma keeps_exit_exitRequested : keeps_exit exitRequested.
Proof. unfold exitRequested. exit_tac. Qed.

Lemma keeps_exit_hasJobCompleted job : keeps_exit (hasJobCompleted job).
Proof. unfold hasJobCompleted, runningJobCount_load. exit_tac. Qed.

Lemma keeps_exit_getState cfg tid : keeps_exit (getState cfg tid).
Proof. unfold getState. exit_in_world. Qed.

Lemma keeps_exit_getStateToStealFrom cfg rng state :
  keeps_exit (getStateToStealFrom cfg rng state).
Proof. unfold getStateToStealFrom. exit_in_world. Qed.

Lemma keeps_exit_put cfg r j : keeps_exit (put cfg r j).
Proof. unfold put. exit_tac. Qed.

Lemma keeps_exit_pop r : keeps_exit (pop r).
Proof. unfold pop. exit_tac. Qed.

Lemma keeps_exit_steal r : keeps_exit (steal r).
Proof. unfold steal. exit_tac. Qed.

Lemma keeps_exit_finish_loop cfg fuel j : keeps_exit (finish_loop cfg fuel j).
Proof.
  revert j. induction fuel as [|fuel IH]; intros j; cbn [finish_loop];
    [auto with exit|].
  unfold runningJobCount_fetch_sub. exit_tac.
Qed.

#[local] Hint Resolve keeps_exit_exitRequested keeps_exit_hasJobCompleted
  keeps_exit_getState keeps_exit_getStateToStealFrom keeps_exit_put keeps_exit_pop
  keeps_exit_steal keeps_exit_finish_loop : exit.

Lemma keeps_exit_finish cfg job : keeps_exit (finish cfg job).
Proof. unfold finish, Pin_enter, Pin_exit, UTILS_SIGNAL_EVENT. exit_in_world. Qed.

Lemma keeps_exit_create cfg parent_ func : keeps_exit (create cfg parent_ func).
Proof. unfold create, runningJobCount_fetch_add. exit_in_world. Qed.

Lemma keeps_exit_run cfg tid job flags : keeps_exit (run cfg tid job flags).
Proof. unfold run, Pin_enter, Pin_exit. exit_tac. Qed.

#[local] Hint Resolve keeps_exit_finish keeps_exit_create keeps_exit_run : exit.

Lemma keeps_exit_runAndRetain cfg tid job flags :
  keeps_exit (runAndRetain cfg tid job flags).
Proof. unfold runAndRetain. exit_tac. Qed.

Lemma keeps_exit_adopt tid : keeps_exit (adopt tid).
Proof.
  intros w a w' H. unfold adopt, setThreadPriority in H.
  destruct (sThreadState w !! tid); (eapply keeps_exit_apply; [|exact H]); exit_tac.
Qed.

Lemma keeps_exit_emancipate tid : keeps_exit (emancipate tid).
Proof. unfold emancipate. exit_in_world. Qed.

Lemma keeps_exit_loop_enter tid threadState : keeps_exit (loop_enter tid threadState).
Proof. unfold loop_enter, setThreadName, setThreadPriority. exit_tac. Qed.

Section ExitFlag.

Variable cfg : Config.
Variable default_random_engine : N -> N * N.
Variable invoke : JobFunc -> nat -> nat -> M unit.

(** Job functions do not write the exit flag. *)
Hypothesis invoke_keeps_exit : forall f tid j, keeps_exit (invoke f tid j).

Lemma keeps_exit_execute tid state :
  keeps_exit (execute cfg default_random_engine invoke tid state).
Proof. unfold execute. exit_tac; apply invoke_keeps_exit. Qed.

Lemma keeps_exit_wait fuel tid job :
  keeps_exit (wait cfg default_random_engine invoke fuel tid job).
Proof.
  unfold wait. apply keeps_exit_bind; [auto with exit|intros _].
  apply keeps_exit_bind; [auto with exit|intros state].
  apply keeps_exit_bind; [|intros _; exit_tac].
  induction fuel as [|fuel' IH]; cbn [do_while]; [auto with exit|].
  apply keeps_exit_bind.
  { unfold wait_body, UTILS_WAIT_FOR_EVENT.
    apply keeps_exit_bind; [apply keeps_exit_execute|intros ran; exit_tac]. }
  intros _. apply keeps_exit_bind; [unfold wait_condition; exit_tac|].
  intros again. destruct again; [exact IH|auto with exit].
Qed.

Lemma keeps_exit_loop_idle : keeps_exit loop_idle.
Proof. unfold loop_idle. exit_tac. Qed.

Lemma keeps_exit_loop_from fuel woken tid threadState :
  keeps_exit (loop_from cfg default_random_engine invoke fuel woken tid threadState).
Proof.
  revert woken. induction fuel as [|fuel' IH]; intros woken; cbn [loop_from];
    [auto with exit|].
  apply keeps_exit_bind.
  { destruct woken.
    - apply keeps_exit_bind; [auto with exit|intros _; apply keeps_exit_loop_idle].
    - apply keeps_exit_bind; [apply keeps_exit_execute|intros ran].
      destruct ran; cbn [negb]; [auto with exit|].
      apply keeps_exit_bind; [auto with exit|intros _; apply keeps_exit_loop_idle]. }
  intros go. destruct go; [|auto with exit].
  apply keeps_exit_bind; [auto with exit|intros exit_].
  destruct exit_; cbn [negb]; [auto with exit|apply IH].
Qed.

End ExitFlag.

(** X13: nothing in JobSystem.cpp takes a request to exit back.
    requestExit sets the exit flag; create, run, runAndRetain, finish,
    adopt, emancipate and the entry of loop leave it as it is, and so do
    execute, wait and the main loop of the workers when the job functions
    they call leave it as it is. *)
Theorem exit_flag_sticky (cfg : Config) (default_random_engine : N -> N * N)
    (invoke : JobFunc -> nat -> nat -> M unit) :
  (forall f tid j, keeps_exit (invoke f tid j)) ->
  (forall w w', requestExit cfg w = Done tt w' -> mExitRequested w' = true) /\
  (forall parent_ func, keeps_exit (create cfg parent_ func)) /\
  (forall tid job flags, keeps_exit (run cfg tid job flags)) /\
  (forall tid job flags, keeps_exit (runAndRetain cfg tid job flags)) /\
  (forall job, keeps_exit (finish cfg job)) /\
  (forall tid, keeps_exit (adopt tid)) /\
  (forall tid, keeps_exit (emancipate tid)) /\
  (forall tid state, keeps_exit (execute cfg default_random_engine invoke tid state)) /\
  (forall fuel tid job, keeps_exit (wait cfg default_random_engine invoke fuel tid job)) /\
  (forall fuel tid state,
     keeps_exit (loop cfg default_random_engine invoke fuel tid state)).
Proof.
  intros Hinvoke.
  split.
  { intros w w' H. unfold requestExit in H.
    bind_inv H as u1 w1 H1. bind_inv H as u2 w2 H2.
    assert (keeps_exit (emit EvUnlock ;;; emit EvNotifyAll ;;;
                        when (ARM_ARCH_7A cfg) (emit (EvDsb 0xA) ;;; UTILS_SIGNAL_EVENT)))
      as Hrest by (unfold UTILS_SIGNAL_EVENT; exit_tac).
    rewrite (Hrest _ _ _ H). injection H2 as _ <-. reflexivity. }
  split; [intros; apply keeps_exit_create|].
  split; [intros; apply keeps_exit_run|].
  split; [intros; apply keeps_exit_runAndRetain|].
  split; [intros; apply keeps_exit_finish|].
  split; [intros; apply keeps_exit_adopt|].
  split; [intros; apply keeps_exit_emancipate|].
  split; [intros; apply keeps_exit_execute, Hinvoke|].
  split; [intros; apply keeps_exit_wait, Hinvoke|].
  intros fuel tid state. unfold loop.
  apply keeps_exit_bind; [apply keeps_exit_loop_enter|intros _].
  apply keeps_exit_loop_from, Hinvoke.
Qed.

(** An instance: exit is requested on [Sample.busy]; worker thread 1
    then executes the queued root job, and the flag is still set. *)
Lemma exit_flag_sticky_witness :
  exists w1 w2,
    requestExit Sample.debug_build Sample.busy = Done tt w1 /\
    execute Sample.debug_build Sample.lcg Sample.no_effect 1 (mkTSRef 7 0) w1 = Done true w2 /\
    mExitRequested w2 = true.
Proof.
  destruct (exit_flag_sticky Sample.debug_build Sample.lcg Sample.no_effect)
    as (Hreq & _ & _ & _ & _ & _ & _ & Hexec & _).
  { intros f tid j w a w' [= _ <-]. reflexivity. }
  let t := eval vm_compute in
    (match requestExit Sample.debug_build Sample.busy with
     | Done _ w => w
     | _ => Sample.idle
     end) in pose (w1 := t).
  assert (E1 : requestExit Sample.debug_build Sample.busy = Done tt w1)
    by (vm_compute; reflexivity).
  let t := eval vm_compute in
    (match execute Sample.debug_build Sample.lcg Sample.no_effect 1 (mkTSRef 7 0) w1 with
     | Done _ w => w
     | _ => Sample.idle
     end) in pose (w2 := t).
  assert (E2 : execute Sample.debug_build Sample.lcg Sample.no_effect 1 (mkTSRef 7 0) w1
               = Done true w2) by (vm_compute; reflexivity).
  exists w1, w2. split; [exact E1|]. split; [exact E2|].
  rewrite (Hexec 1 (mkTSRef 7 0) w1 true w2 E2). exact (Hreq Sample.busy w1 E1).
Defined.

(** ** The destructor *)

Lemma requestExit_eq cfg w :
  requestExit cfg w =
    Done tt (log ([EvLock; EvStore A_mExitRequested memory_order_relaxed; EvUnlock; EvNotifyAll]
                  ++ (if ARM_ARCH_7A cfg then [EvDsb 0xA; EvSignalEvent] else []))
               (set_mExitRequested true w)).
Proof.
  unfold requestExit, UTILS_SIGNAL_EVENT, when, bind, emit, mExitRequested_store, ret.
  destruct (ARM_ARCH_7A cfg); cbn; f_equal; world_ext; trace_eq.
Qed.

Lemma dtor_loop_states i states :
  snd (dtor_loop i states)
  = map (fun s => if thread s then set_thread false s else s) states.
Proof.
  revert i. induction states as [|s rest IH]; intros i; [reflexivity|].
  cbn [dtor_loop map]. specialize (IH (S i)).
  destruct (dtor_loop (S i) rest) as [joined rest']. cbn [snd] in IH.
  destruct (thread s); cbn [snd]; rewrite IH; reflexivity.
Qed.

Lemma dtor_loop_joined i states k :
  k ∈ fst (dtor_loop i states) <->
  exists s, i <= k /\ states !! (k - i) = Some s /\ thread s = true.
Proof.
  revert i. induction states as [|s rest IH]; intros i.
  - cbn. split; [intros H; apply elem_of_nil in H; contradiction|].
    intros (s & _ & H & _). discriminate H.
  - cbn [dtor_loop]. specialize (IH (S i)).
    destruct (dtor_loop (S i) rest) as [joined rest']. cbn [fst] in IH.
    assert (Hrest : k ∈ joined <->
              exists s', i < k /\ (s :: rest) !! (k - i) = Some s' /\ thread s' = true).
    { rewrite IH. split; intros (s' & Hle & Hl & Ht); exists s'; (split; [lia|]);
        (split; [|exact Ht]).
      - replace (k - i) with (S (k - S i)) by lia. exact Hl.
      - replace (k - i) with (S (k - S i)) in Hl by lia. exact Hl. }
    destruct (thread s) eqn:Hs; cbn [fst].
    + rewrite elem_of_cons, Hrest. split.
      * intros [->|(s' & Hle & Hl & Ht)].
        -- exists s. rewrite Nat.sub_diag. split; [lia|]. split; [reflexivity|exact Hs].
        -- exists s'. split; [lia|]. split; assumption.
      * intros (s' & Hle & Hl & Ht). destruct (decide (k = i)) as [->|Hne]; [left; reflexivity|].
        right. exists s'. split; [lia|]. split; assumption.
    + rewrite Hrest. split.
      * intros (s' & Hle & Hl & Ht). exists s'. split; [lia|]. split; assumption.
      * intros (s' & Hle & Hl & Ht). exists s'. split; [|split; assumption].
        destruct (decide (k = i)) as [->|Hne]; [|lia].
        rewrite Nat.sub_diag in Hl. injection Hl as <-. congruence.
Qed.

Lemma dtor_loop_length i states :
  length (fst (dtor_loop i states)) = length (filter (fun s => thread s = true) states).
Proof.
  revert i. induction states as [|s rest IH]; intros i; [reflexivity|].
  cbn [dtor_loop]. specialize (IH (S i)).
  destruct (dtor_loop (S i) rest) as [joined rest']. cbn [fst] in IH.
  rewrite filter_cons. destruct (thread s) eqn:Hs; case_decide; try congruence;
    cbn [fst length]; rewrite IH; reflexivity.
Qed.

Lemma dtor_loop_ctor rd tc k m :
  fst (dtor_loop k (map (ctor_state rd tc) (seq k m)))
  = seq k (Nat.min m (Z.to_nat tc - k)).
Proof.
  revert k. induction m as [|m IH]; intros k; [reflexivity|].
  cbn [seq map dtor_loop]. specialize (IH (S k)).
  destruct (dtor_loop (S k) (map (ctor_state rd tc) (seq (S k) m))) as [joined rest'].
  cbn [fst] in IH. cbn [thread ctor_state].
  destruct (Z.ltb_spec (Z.of_nat k) tc); cbn [fst].
  - rewrite IH. replace (Nat.min (S m) (Z.to_nat tc - k))
      with (S (Nat.min m (Z.to_nat tc - S k))) by lia. reflexivity.
  - rewrite IH. replace (Nat.min m (Z.to_nat tc - S k)) with 0 by lia.
    replace (Nat.min (S m) (Z.to_nat tc - k)) with 0 by lia. reflexivity.
Qed.

(** X14: the destructor requests exit and then joins the joinable
    threads, in slot order: the positions it joins are exactly those
    whose thread was started, as many as were started, and afterwards no
    state holds a joinable thread. On a scheduler as the constructor
    built it these are the slots 0 .. worker_count - 1; the adoptable
    slots are not joined. *)
Theorem dtor_joins_workers (cfg : Config) (self : nat) (tls : gmap nat TSRef)
    (hwThreads : Z) (rd : nat -> N) (threadCount adoptable : Z) (w0 w : World) :
  (exists joined w',
     JobSystem_dtor cfg w = Done joined w' /\
     mExitRequested w' = true /\
     (forall i, i ∈ joined <-> exists s, mThreadStates w !! i = Some s /\ thread s = true) /\
     length joined = spawned w /\ spawned w' = 0) /\
  ((0 <= threadCount)%Z -> (0 <= adoptable)%Z -> (32 + adoptable < 2 ^ 64)%Z ->
   JobSystem_ctor cfg self tls hwThreads rd threadCount adoptable = Done tt w0 ->
   exists w', JobSystem_dtor cfg w0 = Done (seq 0 (Z.to_nat (mThreadCount w0))) w').
Proof.
  split.
  - unfold JobSystem_dtor. rewrite (bind_eq _ _ _ _ _ (requestExit_eq cfg w)).
    world_simpl.
    pose proof (dtor_loop_states 0 (mThreadStates w)) as Hstates.
    pose proof (dtor_loop_length 0 (mThreadStates w)) as Hlen.
    pose proof (fun k => dtor_loop_joined 0 (mThreadStates w) k) as Hjoined.
    destruct (dtor_loop 0 (mThreadStates w)) as [joined states]. cbn [fst snd] in *.
    eexists _, _. split; [reflexivity|]. split; [reflexivity|]. split.
    { intros i. rewrite Hjoined, Nat.sub_0_r. split.
      - intros (s & _ & H1 & H2). eauto.
      - intros (s & H1 & H2). exists s. split; [lia|]. split; assumption. }
    split; [exact Hlen|]. unfold spawned. world_simpl. rewrite Hstates.
    clear. induction (mThreadStates w) as [|s rest IH]; [reflexivity|].
    cbn [map]. rewrite filter_cons. destruct (thread s) eqn:Hs; cbn [thread set_thread].
    + case_decide; [discriminate|exact IH].
    + rewrite Hs. case_decide; [discriminate|exact IH].
  - intros Htc Had Hov Hctor. unfold JobSystem_ctor in Hctor.
    pose proof (ctor_threadCount_range cfg hwThreads threadCount Htc) as Hr.
    set (tc := ctor_threadCount cfg hwThreads threadCount) in *.
    assert (Hn : to_size_t (tc + adoptable) = (tc + adoptable)%Z)
      by (unfold to_size_t, wrap_unsigned; apply Z.mod_small; lia).
    rewrite Hn, (to_uint16_small tc) in Hctor by lia.
    destruct (Z.ltb_spec (ULONG_BITS cfg) (tc + adoptable)); [discriminate|].
    injection Hctor as <-.
    unfold JobSystem_dtor. erewrite bind_eq by apply requestExit_eq. world_simpl.
    pose proof (dtor_loop_ctor rd tc 0 (Z.to_nat (tc + adoptable))) as E.
    destruct (dtor_loop 0 _) as [joined states]. cbn [fst] in E.
    eexists. rewrite E. do 2 f_equal. lia.
Qed.

(** An instance: a scheduler built for 8 hardware threads with one
    adoptable slot has 3 workers, which are joined. *)
Lemma dtor_joins_workers_witness :
  exists w0 w',
    JobSystem_ctor Sample.debug_build 7 ∅ 8 Sample.rd 0 1 = Done tt w0 /\
    JobSystem_dtor Sample.debug_build w0 = Done [0; 1; 2] w'.
Proof.
  let t := eval vm_compute in
    (match JobSystem_ctor Sample.debug_build 7 ∅ 8 Sample.rd 0 1 with
     | Done _ w0 => w0
     | _ => Sample.idle
     end) in pose (w0 := t).
  assert (Ec : JobSystem_ctor Sample.debug_build 7 ∅ 8 Sample.rd 0 1 = Done tt w0)
    by (vm_compute; reflexivity).
  destruct (dtor_joins_workers Sample.debug_build 7 ∅ 8 Sample.rd 0 1 w0 w0) as [_ H].
  destruct (H ltac:(lia) ltac:(lia) ltac:(lia) Ec) as (w' & Hd).
  exists w0, w'. split; [exact Ec|exact Hd].
Defined.

(** ** The main loop of the workers *)

Lemma exitRequested_eq w :
  exitRequested w
  = Done (mExitRequested w) (log [EvLoad A_mExitRequested memory_order_relaxed] w).
Proof. reflexivity. Qed.

Lemma loop_idle_eq w :
  loop_idle w =
    Done (mExitRequested w || negb (mActiveJobs w =? 0)%Z)
      (log ([EvLoad A_mExitRequested memory_order_relaxed]
            ++ (if mExitRequested w then []
                else [EvLoad A_mActiveJobs memory_order_relaxed])
            ++ [EvUnlock]) w).
Proof.
  unfold loop_idle. rewrite (bind_eq _ _ _ _ _ (exitRequested_eq w)).
  destruct (mExitRequested w) eqn:He; cbn [negb orb].
  - unfold bind, emit, ret. f_equal. world_ext. trace_eq.
  - unfold bind at 1, mActiveJobs_load. world_simpl.
    destruct (mActiveJobs w =? 0)%Z; unfold bind, emit, ret; cbn [negb]; f_equal;
      world_ext; trace_eq.
Qed.

Lemma loop_tail_inv cfg rng invoke fuel tid st w e w' :
  (exit_ <- exitRequested ;;
   if negb exit_ then loop_from cfg rng invoke fuel false tid st
   else ret loop_exited) w = Done e w' ->
  (mExitRequested w = true /\ e = loop_exited /\ mExitRequested w' = true) \/
  (mExitRequested w = false /\
   loop_from cfg rng invoke fuel false tid st
     (log [EvLoad A_mExitRequested memory_order_relaxed] w) = Done e w').
Proof.
  rewrite (bind_eq _ _ _ _ _ (exitRequested_eq w)).
  destruct (mExitRequested w) eqn:He; cbn [negb].
  - intros [= <- <-]. left. repeat split. exact He.
  - intros H. right. split; [reflexivity|exact H].
Qed.

Lemma loop_idle_blocks w0 go w1 :
  (emit EvLock ;;; loop_idle) w0 = Done go w1 -> go = false ->
  mExitRequested w1 = false /\ mActiveJobs w1 = 0%Z /\
  exists t, trace w1 = t ++ [EvUnlock].
Proof.
  intros H0 Hgo. bind_inv H0 as u w2 H2. injection H2 as _ <-.
  rewrite loop_idle_eq in H0. injection H0 as Hg <-.
  cbn [mExitRequested mActiveJobs set_trace] in Hg. world_simpl.
  rewrite Hgo in Hg. apply orb_false_iff in Hg as [Hex Hact].
  split; [exact Hex|]. split.
  - destruct (Z.eqb_spec (mActiveJobs w0) 0) as [E|]; [exact E|discriminate Hact].
  - rewrite Hex. exists ((trace w0 ++ [EvLock])
                         ++ [EvLoad A_mExitRequested memory_order_relaxed;
                             EvLoad A_mActiveJobs memory_order_relaxed]).
    rewrite <- !app_assoc. reflexivity.
Qed.

Lemma loop_from_blocked cfg rng invoke fuel woken tid threadState w w' :
  loop_from cfg rng invoke fuel woken tid threadState w = Done loop_blocked w' ->
  mActiveJobs w' = 0%Z.
Proof.
  revert woken w. induction fuel as [|fuel IH]; intros woken w H; [discriminate H|].
  cbn [loop_from] in H. bind_inv H as go w1 H1. destruct go.
  - apply loop_tail_inv in H as [(_ & E & _)|[_ H]]; [discriminate E|].
    exact (IH _ _ H).
  - injection H as <-. destruct woken.
    + exact (proj1 (proj2 (loop_idle_blocks _ _ _ H1 eq_refl))).
    + bind_inv H1 as ran w2 H2. destruct ran; cbn [negb] in H1; [discriminate H1|].
      exact (proj1 (proj2 (loop_idle_blocks _ _ _ H1 eq_refl))).
Qed.



(** X16: shutdown ends the workers. A worker that sleeps on the
    condition variable and is woken after requestExit returns from loop
    at once: it takes the lock, sees the exit flag, and executes nothing,
    whatever is still queued; the job pool, the queues and active_jobs
    are as they were before requestExit. A worker that starts a pass
    while exit is requested returns from loop after that pass: once its
    call of execute has returned it pops no queue again (given that job
    functions leave the exit flag alone). *)
Theorem loop_shutdown (cfg : Config) (default_random_engine : N -> N * N)
    (invoke : JobFunc -> nat -> nat -> M unit) (fuel : nat)
    (tid : nat) (threadState : TSRef) (w : World) :
  (exists w1 events,
     requestExit cfg w = Done tt w1 /\
     loop_from cfg default_random_engine invoke (S fuel) true tid threadState w1
       = Done loop_exited (log events (set_mExitRequested true w)) /\
     (forall i, EvPop i ∉ events) /\ (forall i, EvSteal i ∉ events)) /\
  ((forall f t j, keeps_exit (invoke f t j)) ->
   mExitRequested w = true ->
   forall ran w1,
     execute cfg default_random_engine invoke tid threadState w = Done ran w1 ->
     exists events,
       loop_from cfg default_random_engine invoke (S fuel) false tid threadState w
         = Done loop_exited (log events w1) /\
       (forall i, EvPop i ∉ events) /\ (forall i, EvSteal i ∉ events)).
Proof.
  split.
  - rewrite requestExit_eq. eexists _, _. split; [reflexivity|].
    cbn [loop_from]. split.
    + erewrite bind_eq.
      2:{ erewrite bind_eq by reflexivity. rewrite loop_idle_eq. world_simpl. reflexivity. }
      cbn [orb]. erewrite bind_eq by apply exitRequested_eq. world_simpl. cbn [negb].
      unfold ret. apply (f_equal (Done loop_exited)). world_ext. trace_eq.
    + destruct (ARM_ARCH_7A cfg); cbn [app]; split; intros i Hin;
        repeat (apply elem_of_cons in Hin as [Hin|Hin]; [discriminate Hin|]);
        apply elem_of_nil in Hin; exact Hin.
  - intros Hinvoke Hexit ran w1 Hexec.
    pose proof (keeps_exit_execute cfg default_random_engine invoke Hinvoke
                  tid threadState _ _ _ Hexec) as Hexit1.
    rewrite Hexit in Hexit1.
    cbn [loop_from]. destruct ran.
    + exists [EvLoad A_mExitRequested memory_order_relaxed]. split.
      * erewrite bind_eq.
        2:{ erewrite bind_eq by exact Hexec. reflexivity. }
        cbv iota. erewrite bind_eq by apply exitRequested_eq.
        rewrite Hexit1. reflexivity.
      * split; intros i Hin;
          repeat (apply elem_of_cons in Hin as [Hin|Hin]; [discriminate Hin|]);
          apply elem_of_nil in Hin; exact Hin.
    + exists [EvLock; EvLoad A_mExitRequested memory_order_relaxed; EvUnlock;
              EvLoad A_mExitRequested memory_order_relaxed]. split.
      * erewrite bind_eq.
        2:{ erewrite bind_eq by exact Hexec. cbn [negb].
            erewrite bind_eq by reflexivity. rewrite loop_idle_eq. world_simpl.
            rewrite Hexit1. reflexivity. }
        cbn [orb]. erewrite bind_eq by apply exitRequested_eq. world_simpl.
        rewrite Hexit1. cbn [negb]. unfold ret. apply (f_equal (Done loop_exited)).
        world_ext. trace_eq.
      * split; intros i Hin;
          repeat (apply elem_of_cons in Hin as [Hin|Hin]; [discriminate Hin|]);
          apply elem_of_nil in Hin; exact Hin.
Qed.

(** Instances: exit is requested while the root job of [Sample.busy] is
    queued; the woken worker thread 1 returns and the job stays in its
    queue. In [Sample.shutting_down] worker thread 1 starts a pass, finds
    nothing and returns. *)
Lemma loop_shutdown_witness :
  (exists w1 w2,
     requestExit Sample.debug_build Sample.busy = Done tt w1 /\
     loop_from Sample.debug_build Sample.lcg Sample.no_effect 1 true 1 (mkTSRef 7 0) w1
       = Done loop_exited w2 /\
     workQueue <$> mThreadStates w2 !! 0 = Some [0]) /\
  (exists w2,
     loop_from Sample.debug_build Sample.lcg Sample.no_effect 1 false 1 (mkTSRef 7 0)
       Sample.shutting_down = Done loop_exited w2).
Proof.
  split.
  - destruct (loop_shutdown Sample.debug_build Sample.lcg Sample.no_effect 0 1 (mkTSRef 7 0)
                Sample.busy) as [(w1 & events & Hreq & Hloop & _) _].
    exists w1. eexists. split; [exact Hreq|]. split; [exact Hloop|]. reflexivity.
  - destruct (loop_shutdown Sample.debug_build Sample.lcg Sample.no_effect 0 1 (mkTSRef 7 0)
                Sample.shutting_down) as [_ H].
    let t := eval vm_compute in
      (match execute Sample.debug_build Sample.lcg Sample.no_effect 1 (mkTSRef 7 0)
               Sample.shutting_down with
       | Done _ w => w
       | _ => Sample.idle
       end) in pose (w1 := t).
    assert (E : execute Sample.debug_build Sample.lcg Sample.no_effect 1 (mkTSRef 7 0)
                  Sample.shutting_down = Done false w1) by (vm_compute; reflexivity).
    destruct (H ltac:(intros f t j w a w' [= _ <-]; reflexivity) eq_refl false w1 E)
      as (events & Hloop & _).
    eexists. exact Hloop.
Defined.

(** ** active_jobs counts the queued jobs *)

Lemma keeps_queues_ret {A} (a : A) : keeps_queues (ret a).
Proof. intros w a' w' [= <- <-]. split; reflexivity. Qed.

Lemma keeps_queues_bind {A B} (m : M A) (k : A -> M B) :
  keeps_queues m -> (forall a, keeps_queues (k a)) -> keeps_queues (bind m k).
Proof.
  intros Hm Hk w b w' H. bind_inv H as a w1 H1.
  destruct (Hm _ _ _ H1) as [E1 E2]. destruct (Hk _ _ _ _ H) as [E3 E4].
  split; congruence.
Qed.

Lemma keeps_queues_apply {A} (m : M A) w a w' :
  keeps_queues m -> m w = Done a w' ->
  mThreadStates w' = mThreadStates w /\ mActiveJobs w' = mActiveJobs w.
Proof. intros H E. exact (H w a w' E). Qed.

Lemma keeps_queues_undefined {A} : keeps_queues (@undefined A).
Proof. intros w a w' H. discriminate H. Qed.

Lemma keeps_queues_panic {A} msg : keeps_queues (@panic A msg).
Proof. intros w a w' H. discriminate H. Qed.

Lemma keeps_queues_OutOfFuel {A} : keeps_queues (fun _ : World => @OutOfFuel A).
Proof. intros w a w' H. discriminate H. Qed.

Lemma keeps_queues_emit e : keeps_queues (emit e).
Proof. intros w a w' [= <- <-]. split; reflexivity. Qed.

Lemma keeps_queues_load_job j : keeps_queues (load_job j).
Proof.
  intros w a w'. unfold load_job. destruct (mJobPool w !! j); [|discriminate].
  intros [= <- <-]. split; reflexivity.
Qed.

Lemma keeps_queues_store_job j jb : keeps_queues (store_job j jb).
Proof. intros w a w' [= <- <-]. split; reflexivity. Qed.

Lemma keeps_queues_load_state r : keeps_queues (load_state r).
Proof. intros w a w' H. apply load_state_inv in H as (-> & _). split; reflexivity. Qed.

Lemma keeps_queues_mThreadStates_at i : keeps_queues (mThreadStates_at i).
Proof.
  intros w a w'. unfold mThreadStates_at. destruct (_ <=? _)%Z; [discriminate|].
  intros [= <- <-]. split; reflexivity.
Qed.

Lemma keeps_queues_mActiveJobs_load mo : keeps_queues (mActiveJobs_load mo).
Proof. intros w a w' [= <- <-]. split; reflexivity. Qed.

Lemma keeps_queues_mAdoptedThreads_load mo : keeps_queues (mAdoptedThreads_load mo).
Proof. intros w a w' [= <- <-]. split; reflexivity. Qed.

Lemma keeps_queues_mAdoptedThreads_fetch_add mo :
  keeps_queues (mAdoptedThreads_fetch_add mo).
Proof. intros w a w' [= <- <-]. split; reflexivity. Qed.

Lemma keeps_queues_mExitRequested_load mo : keeps_queues (mExitRequested_load mo).
Proof. intros w a w' [= <- <-]. split; reflexivity. Qed.

Lemma keeps_queues_mExitRequested_store b mo : keeps_queues (mExitRequested_store b mo).
Proof. intros w a w' [= <- <-]. split; reflexivity. Qed.

Lemma keeps_queues_allocateJob cfg : keeps_queues (allocateJob cfg).
Proof.
  intros w a w'. rewrite allocateJob_eq. destruct (free_slot cfg (mJobPool w));
    intros [= <- <-]; split; reflexivity.
Qed.

Lemma keeps_queues_destroy j : keeps_queues (destroy j).
Proof. intros w a w' [= <- <-]. split; reflexivity. Qed.

Lemma keeps_queues_assert cfg c : keeps_queues (assert cfg c).
Proof.
  unfold assert. destruct (NDEBUG cfg || c); [apply keeps_queues_ret|apply keeps_queues_panic].
Qed.

Lemma keeps_queues_ASSERT_PRECONDITION c msg : keeps_queues (ASSERT_PRECONDITION c msg).
Proof. destruct c; [apply keeps_queues_ret|apply keeps_queues_panic]. Qed.

Lemma keeps_queues_ASSERT_POSTCONDITION c msg : keeps_queues (ASSERT_POSTCONDITION c msg).
Proof. destruct c; [apply keeps_queues_ret|apply keeps_queues_panic]. Qed.

Lemma keeps_queues_ptr p : keeps_queues (ptr p).
Proof. destruct p; [apply keeps_queues_ret|apply keeps_queues_undefined]. Qed.

Lemma keeps_queues_set_sThreadState (f : World -> gmap nat TSRef) :
  keeps_queues (fun w => Done tt (set_sThreadState (f w) w)).
Proof. intros w a w' [= <- <-]. split; reflexivity. Qed.

Create HintDb queues.

#[local] Hint Resolve keeps_queues_ret keeps_queues_undefined keeps_queues_panic
  keeps_queues_OutOfFuel keeps_queues_emit keeps_queues_load_job keeps_queues_store_job
  keeps_queues_load_state keeps_queues_mThreadStates_at keeps_queues_mActiveJobs_load
  keeps_queues_mAdoptedThreads_load keeps_queues_mAdoptedThreads_fetch_add
  keeps_queues_mExitRequested_load keeps_queues_mExitRequested_store
  keeps_queues_allocateJob keeps_queues_destroy keeps_queues_assert
  keeps_queues_ASSERT_PRECONDITION keeps_queues_ASSERT_POSTCONDITION keeps_queues_ptr
  keeps_queues_set_sThreadState : queues.

Ltac queues_tac :=
  repeat first
    [ solve [auto with queues]
    | match goal with
      | |- keeps_queues (bind _ _) => apply keeps_queues_bind; [|intros ?]
      | |- keeps_queues (match ?x with _ => _ end) => destruct x
      | |- keeps_queues (when ?b _) => destruct b; cbn [when]
      | |- keeps_queues (let _ := _ in _) => cbv zeta
      end ].

Ltac queues_in_world :=
  let w := fresh "w" in
  let H := fresh "H" in
  intros w ? ? H; cbv beta in H; eapply keeps_queues_apply; [|exact H]; queues_tac.

Lemma keeps_queues_incRef cfg job : keeps_queues (incRef cfg job).
Proof. unfold incRef, refCount_fetch_add. queues_tac. Qed.

Lemma keeps_queues_decRef cfg job : keeps_queues (decRef cfg job).
Proof. unfold decRef, refCount_fetch_sub. queues_tac. Qed.

#[local] Hint Resolve keeps_queues_incRef keeps_queues_decRef : queues.

Lemma keeps_queues_requestExit cfg : keeps_queues (requestExit cfg).
Proof. unfold requestExit, UTILS_SIGNAL_EVENT. queues_tac. Qed.

Lemma keeps_queues_exitRequested : keeps_queues exitRequested.
Proof. unfold exitRequested. queues_tac. Qed.

Lemma keeps_queues_hasJobCompleted job : keeps_queues (hasJobCompleted job).
Proof. unfold hasJobCompleted, runningJobCount_load. queues_tac. Qed.

Lemma keeps_queues_getState cfg tid : keeps_queues (getState cfg tid).
Proof. unfold getState. queues_in_world. Qed.

Lemma keeps_queues_finish_loop cfg fuel j : keeps_queues (finish_loop cfg fuel j).
Proof.
  revert j. induction fuel as [|fuel IH]; intros j; cbn [finish_loop];
    [auto with queues|].
  unfold runningJobCount_fetch_sub. queues_tac.
Qed.

#[local] Hint Resolve keeps_queues_requestExit keeps_queues_exitRequested
  keeps_queues_hasJobCompleted keeps_queues_getState keeps_queues_finish_loop : queues.

Lemma keeps_queues_finish cfg job : keeps_queues (finish cfg job).
Proof. unfold finish, Pin_enter, Pin_exit, UTILS_SIGNAL_EVENT. queues_in_world. Qed.

Lemma keeps_queues_create cfg parent_ func : keeps_queues (create cfg parent_ func).
Proof. unfold create, runningJobCount_fetch_add. queues_in_world. Qed.

Lemma keeps_queues_adopt tid : keeps_queues (adopt tid).
Proof.
  intros w a w' H. unfold adopt, setThreadPriority in H.
  destruct (sThreadState w !! tid); (eapply keeps_queues_apply; [|exact H]); queues_tac.
Qed.

Lemma keeps_queues_emancipate tid : keeps_queues (emancipate tid).
Proof. unfold emancipate. queues_in_world. Qed.

Lemma keeps_queues_loop_enter tid threadState : keeps_queues (loop_enter tid threadState).
Proof. unfold loop_enter, setThreadName, setThreadPriority. queues_tac. Qed.

Lemma keeps_queues_wait_condition job : keeps_queues (wait_condition job).
Proof. unfold wait_condition. queues_tac. Qed.

#[local] Hint Resolve keeps_queues_finish keeps_queues_create keeps_queues_wait_condition
  : queues.

Lemma queued_insert states i s s' :
  states !! i = Some s ->
  queued (<[i := s']> states) + length (workQueue s)
  = queued states + length (workQueue s').
Proof.
  unfold queued. revert i. induction states as [|s0 rest IH]; intros i H; [discriminate H|].
  destruct i as [|i]; cbn in H |- *.
  - injection H as ->. lia.
  - specialize (IH i H). rewrite <- !Nat.add_assoc. f_equal. exact IH.
Qed.

Lemma queued_0 states i s :
  queued states = 0 -> states !! i = Some s -> workQueue s = [].
Proof.
  unfold queued. revert i. induction states as [|s0 rest IH]; intros i H0 H; [discriminate H|].
  cbn in H0. destruct i as [|i]; cbn in H.
  - injection H as <-. apply length_zero_iff_nil. lia.
  - apply (IH i); [lia|exact H].
Qed.

Lemma keeps_queues_Counted {A} (m : M A) : keeps_queues m -> preserves Counted m.
Proof.
  intros Hm w a w' HC H. destruct (Hm _ _ _ H) as [E1 E2].
  unfold Counted. rewrite E1, E2. exact HC.
Qed.

Lemma to_uint32_succ_pred q : to_uint32 (to_uint32 (q + 1) - 1) = to_uint32 q.
Proof.
  unfold to_uint32, wrap_unsigned. rewrite Zminus_mod_idemp_l. f_equal. lia.
Qed.

Lemma to_uint32_succ q : to_uint32 (to_uint32 q + 1) = to_uint32 (q + 1).
Proof. unfold to_uint32, wrap_unsigned. apply Zplus_mod_idemp_l. Qed.

Lemma pop_queued r w job w' :
  pop r w = Done job w' ->
  mActiveJobs w' = mActiveJobs w /\
  queued (mThreadStates w') + match job with Some _ => 1 | None => 0 end = queued (mThreadStates w).
Proof.
  unfold pop. intros H. bind_inv H as s w1 H1.
  apply load_state_inv in H1 as (-> & _ & Hs).
  bind_inv H as u w2 H2. injection H2 as _ <-.
  destruct (last (workQueue s)) as [j|] eqn:Hl.
  - bind_inv H as u' w3 H3. injection H3 as _ <-. injection H as <- <-.
    split; [reflexivity|]. world_simpl.
    pose proof (queued_insert _ _ _ (set_workQueue (removelast (workQueue s)) s) Hs) as E.
    apply last_Some in Hl as [q Hq]. rewrite Hq in E |- *.
    cbn [workQueue set_workQueue] in E. rewrite removelast_last in E |- *.
    rewrite length_app in E. cbn [length] in E. lia.
  - injection H as <- <-. split; [reflexivity|]. world_simpl. lia.
Qed.

Lemma steal_queued r w job w' :
  steal r w = Done job w' ->
  mActiveJobs w' = mActiveJobs w /\
  queued (mThreadStates w') + match job with Some _ => 1 | None => 0 end = queued (mThreadStates w).
Proof.
  unfold steal. intros H. bind_inv H as s w1 H1.
  apply load_state_inv in H1 as (-> & _ & Hs).
  bind_inv H as u w2 H2. injection H2 as _ <-.
  destruct (workQueue s) as [|j q] eqn:Hq.
  - injection H as <- <-. split; [reflexivity|]. world_simpl. lia.
  - bind_inv H as u' w3 H3. injection H3 as _ <-. injection H as <- <-.
    split; [reflexivity|]. world_simpl.
    pose proof (queued_insert _ _ _ (set_workQueue q s) Hs) as E.
    rewrite Hq in E. cbn [workQueue set_workQueue length] in E. lia.
Qed.

Lemma getStateToStealFrom_queued cfg rng r w victim w' :
  getStateToStealFrom cfg rng r w = Done victim w' ->
  mActiveJobs w' = mActiveJobs w /\
  queued (mThreadStates w') = queued (mThreadStates w).
Proof.
  unfold getStateToStealFrom. intros H.
  bind_inv H as adopted w1 H1. injection H1 as <- <-.
  bind_inv H as s w2 H2. apply load_state_inv in H2 as (-> & _ & Hs).
  destruct (rng (rndGen s)) as [x g].
  bind_inv H as u w3 H3. injection H3 as _ <-.
  assert (keeps_queues
            (if (mThreadCount w + mAdoptedThreads w =? 0)%Z then undefined
             else assert cfg (to_uint16 (Z.of_N x mod (mThreadCount w + mAdoptedThreads w))
                              <? Z.of_nat (length (mThreadStates w)))%Z ;;;
                  mThreadStates_at
                    (to_uint16 (Z.of_N x mod (mThreadCount w + mAdoptedThreads w)))))
    as Hrest by queues_tac.
  destruct (Hrest _ _ _ H) as [E1 E2]. rewrite E1, E2. world_simpl.
  split; [reflexivity|].
  pose proof (queued_insert _ _ _ (set_rndGen g s) Hs) as E.
  cbn [workQueue set_rndGen mThreadStates set_trace] in E. lia.
Qed.

Lemma run_Counted cfg tid job flags : preserves Counted (run cfg tid job flags).
Proof.
  intros w h w' HC H.
  destruct (run_inv _ _ _ _ _ _ _ H) as
    (j & jb & state & s & _ & _ & _ & _ & _ & Hs & _ & Hact & Hts & _).
  unfold Counted in *. rewrite Hact, Hts, HC, to_uint32_succ. f_equal.
  pose proof (queued_insert _ _ _ (set_workQueue (workQueue s ++ [j]) s) Hs) as E.
  cbn [workQueue set_workQueue] in E. rewrite length_app in E. cbn [length] in E. lia.
Qed.

Lemma queued_ctor rd tc k n : queued (map (ctor_state rd tc) (seq k n)) = 0.
Proof.
  unfold queued. revert k. induction n as [|n IH]; intros k; [reflexivity|].
  cbn. apply IH.
Qed.

Section CountedJobs.

Variable cfg : Config.
Variable default_random_engine : N -> N * N.
Variable invoke : JobFunc -> nat -> nat -> M unit.

(** Job functions queue and take jobs through the member functions. *)
Hypothesis invoke_Counted : forall f tid j, preserves Counted (invoke f tid j).

Lemma execute_Counted tid state :
  preserves Counted (execute cfg default_random_engine invoke tid state).
Proof.
  intros w ran w' HC H. unfold execute in H.
  bind_inv H as job1 w1 H1. apply pop_queued in H1 as [A1 Q1].
  bind_inv H as job w2 H2.
  assert (Hjob : mActiveJobs w2 = mActiveJobs w /\
                 queued (mThreadStates w2) + match job with Some _ => 1 | None => 0 end
                 = queued (mThreadStates w)).
  { destruct job1 as [j1|].
    - injection H2 as <- <-. split; [exact A1|exact Q1].
    - bind_inv H2 as victim w3 H3. apply getStateToStealFrom_queued in H3 as [A3 Q3].
      case_bool_decide.
      + apply steal_queued in H2 as [A2 Q2]. split; [congruence|lia].
      + injection H2 as <- <-. split; [congruence|lia]. }
  destruct Hjob as [A2 Q2]. destruct job as [j|].
  - bind_inv H as a w3 H3. injection H3 as _ <-.
    assert (HC3 : Counted (set_trace (trace w2 ++ [EvFetchSub A_mActiveJobs memory_order_relaxed])
                             (set_mActiveJobs (to_uint32 (mActiveJobs w2 - 1)) w2))).
    { unfold Counted in *. world_simpl. rewrite A2, HC.
      replace (Z.of_nat (queued (mThreadStates w)))
        with (Z.of_nat (queued (mThreadStates w2)) + 1)%Z by lia.
      apply to_uint32_succ_pred. }
    revert HC3 H. generalize (set_trace (trace w2 ++ [EvFetchSub A_mActiveJobs memory_order_relaxed])
                                (set_mActiveJobs (to_uint32 (mActiveJobs w2 - 1)) w2)).
    intros w3 HC3 H.
    bind_inv H as u w4 H4. apply assert_inv in H4 as ->.
    bind_inv H as jb w5 H5.
    pose proof (keeps_queues_Counted _ (keeps_queues_load_job j) _ _ _ HC3 H5) as HC5.
    bind_inv H as u' w6 H6.
    assert (HC6 : Counted w6).
    { destruct (function jb) as [f|].
      - bind_inv H6 as u'' w7 H7. injection H7 as _ <-.
        eapply invoke_Counted; [|exact H6]. exact HC5.
      - injection H6 as _ <-. exact HC5. }
    bind_inv H as u'' w7 H7. injection H as _ <-.
    exact (keeps_queues_Counted _ (keeps_queues_finish cfg (Some j)) _ _ _ HC6 H7).
  - injection H as _ <-. unfold Counted in *. rewrite A2, HC. f_equal. lia.
Qed.

Lemma wait_Counted fuel tid job :
  preserves Counted (wait cfg default_random_engine invoke fuel tid job).
Proof.
  unfold wait.
  apply preserves_bind; [apply keeps_queues_Counted; auto with queues|intros _].
  apply preserves_bind; [apply keeps_queues_Counted; auto with queues|intros state].
  apply preserves_bind; [|intros _; apply keeps_queues_Counted; queues_tac].
  induction fuel as [|fuel' IH]; cbn [do_while].
  - intros w a w' _ H. discriminate H.
  - apply preserves_bind.
    { unfold wait_body. apply preserves_bind; [apply execute_Counted|intros ran].
      apply keeps_queues_Counted. unfold UTILS_WAIT_FOR_EVENT. queues_tac. }
    intros _. apply preserves_bind; [apply keeps_queues_Counted; auto with queues|].
    intros again. destruct again; [exact IH|apply keeps_queues_Counted; auto with queues].
Qed.

Lemma loop_from_Counted fuel woken tid threadState :
  preserves Counted (loop_from cfg default_random_engine invoke fuel woken tid threadState).
Proof.
  assert (Hidle : keeps_queues (emit EvLock ;;; loop_idle))
    by (unfold loop_idle; queues_tac).
  revert woken. induction fuel as [|fuel' IH]; intros woken; cbn [loop_from].
  - intros w a w' _ H. discriminate H.
  - apply preserves_bind.
    { destruct woken; [apply keeps_queues_Counted, Hidle|].
      apply preserves_bind; [apply execute_Counted|intros ran].
      destruct ran; cbn [negb]; apply keeps_queues_Counted; [auto with queues|exact Hidle]. }
    intros go. destruct go; [|apply keeps_queues_Counted; auto with queues].
    apply preserves_bind; [apply keeps_queues_Counted; auto with queues|intros exit_].
    destruct exit_; cbn [negb]; [apply keeps_queues_Counted; auto with queues|apply IH].
Qed.

Lemma reachable_Counted n w :
  reachable cfg default_random_engine invoke n w -> Counted w.
Proof.
  induction 1.
  - unfold JobSystem_ctor in *. destruct (_ <? _)%Z; [discriminate|].
    match goal with H : Done _ _ = Done _ _ |- _ => injection H as <- end.
    unfold Counted. cbn [mActiveJobs mThreadStates].
    rewrite queued_ctor. reflexivity.
  - eapply (keeps_queues_Counted _ (keeps_queues_loop_enter _ _)); eassumption.
  - eapply (keeps_queues_Counted _ (keeps_queues_adopt _)); eassumption.
  - eapply (keeps_queues_Counted _ (keeps_queues_emancipate _)); eassumption.
  - eapply (keeps_queues_Counted _ (keeps_queues_requestExit cfg)); eassumption.
  - eapply (keeps_queues_Counted _ (keeps_queues_create cfg _ _)); eassumption.
  - eapply run_Counted; eassumption.
  - match goal with H : runAndRetain _ _ _ _ _ = _ |- _ => unfold runAndRetain in H;
      bind_inv H as u w1 H1; bind_inv H as h1 w2 H2; injection H as _ <- end.
    eapply run_Counted; [|eassumption].
    eapply (keeps_queues_Counted _ (keeps_queues_incRef cfg _)); eassumption.
  - eapply wait_Counted; eassumption.
  - eapply execute_Counted; eassumption.
  - match goal with
    | Hp : adopt _ _ = Panic _ _ |- _ =>
        apply adopt_panics_inv in Hp as [->|(_ & _ & ->)]
    end; assumption.
  - match goal with
    | Hp : emancipate _ _ = Panic _ _ |- _ => apply emancipate_panics_inv in Hp as ->
    end.
    assumption.
Qed.

End CountedJobs.



(** ** wait left alone *)

Lemma wait_condition_again j jb w :
  mJobPool w !! j = Some jb -> (0 < runningJobCount jb)%Z -> mExitRequested w = false ->
  wait_condition (Some j) w
  = Done true (log [EvLoad (A_runningJobCount j) memory_order_relaxed;
                    EvLoad A_mExitRequested memory_order_relaxed] w).
Proof.
  intros Hj Hc He.
  unfold wait_condition, hasJobCompleted, ptr, runningJobCount_load, load_job,
    exitRequested, mExitRequested_load, emit, bind, ret.
  rewrite Hj. destruct (Z.leb_spec (runningJobCount jb) 0); [lia|]. cbn [negb].
  world_simpl. rewrite He. cbn [negb]. f_equal. world_ext. trace_eq.
Qed.

Lemma do_while_spins cfg rng invoke fuel tid state j jb w :
  Inv w ->
  sThreadState w !! tid = Some state -> ref_js state = this w ->
  (forall i s, mThreadStates w !! i = Some s -> workQueue s = []) ->
  mJobPool w !! j = Some jb -> (0 < runningJobCount jb)%Z ->
  mExitRequested w = false ->
  do_while fuel (wait_body cfg rng invoke tid state) (wait_condition (Some j)) w
  = OutOfFuel.
Proof.
  revert w. induction fuel as [|fuel IH]; intros w HI Hst Hjs Hempty Hj Hc He;
    [reflexivity|].
  destruct (execute_idle_eq cfg rng invoke tid state w HI Hst Hjs Hempty)
    as (s & events & Hs & E & _).
  cbn [do_while]. unfold wait_body.
  erewrite bind_eq.
  2:{ erewrite bind_eq by exact E. reflexivity. }
  erewrite bind_eq by (apply (wait_condition_again j jb); [exact Hj|exact Hc|exact He]).
  apply IH; try assumption.
  - eapply same_threads_Inv; [|exact HI]. repeat split. world_simpl. apply length_insert.
  - world_simpl. intros i si Hsi. destruct (decide (i = ref_index state)) as [->|Hne].
    + rewrite list_lookup_insert_eq in Hsi by (eapply lookup_lt_Some, Hs).
      injection Hsi as <-. exact (Hempty _ _ Hs).
    + rewrite list_lookup_insert_ne in Hsi by congruence. eauto.
Qed.


Lemma Inv_family c1 c2 : Inv (Sample.family c1 c2).
Proof. exact Inv_started. Qed.

